(** * Fallout: London VR installer — file-synchronisation and archive-patching core

    A shallow embedding of the parts of [installer.py] that carry the
    installer's algorithmic content: the BA2 header codec ([BA2Header]),
    the archive version normaliser ([FalloutVRDowngrader]), the delta
    patcher ([ESMPatcher]), the DLC resolver
    ([_scan_single_directory_for_dlc]) and the parallel tree copier
    ([copy_directory_parallel]).

    Conventions of the embedding.
    - A path is the list of its components; the file system is a finite map
      from paths to nodes.  A primitive raises when the path it needs is
      absent; on a path that is there it can still be refused by the
      operating system (a read-only or locked file, a full disk), and a
      copy that is refused may leave a part of the file behind.  These
      refusals are inputs of the embedding ([os_faults] for the
      primitives on [fs], [Copier.fault] for the tasks of the tree copier).
    - Python exceptions are values of [exn]; a call that may raise returns
      a [res]; code that also mutates the file system lives in the monad
      [M].  [try ... except Exception] is [try_except].
    - Logging and widget updates do not influence any returned value or
      file and are left out. *)

From Stdlib Require Import ZArith Lia Strings.Byte Strings.Ascii Strings.String.
From Stdlib Require Numbers.Cyclic.Int63.Uint63.
From Stdlib Require Import Floats.PrimFloat.
From stdpp Require Import gmap strings list fin_maps.

Local Open Scope Z_scope.

(** ** Exceptions and results *)

Inductive exn : Type :=
| FileNotFoundError (msg : string)
| FileExistsError (msg : string)
| PermissionError (msg : string)
| InterruptedError (msg : string)
| OSError (msg : string)
| TimeoutExpired
| UnboundLocalError (var : string)
| StructError
| ZeroDivisionError
| Exception (msg : string).

(** [str(e)]. *)
Definition str_exn (e : exn) : string :=
  match e with
  | FileNotFoundError m | FileExistsError m | PermissionError m
  | InterruptedError m | OSError m | Exception m => m
  | TimeoutExpired => "Command timed out"
  | UnboundLocalError v => "cannot access local variable " +:+ v
  | StructError => "argument out of range"
  | ZeroDivisionError => "division by zero"
  end.

(** [isinstance(e, PermissionError)]. *)
Definition is_PermissionError (e : exn) : bool :=
  match e with PermissionError _ => true | _ => false end.

(** [isinstance(e, subprocess.TimeoutExpired)]. *)
Definition is_TimeoutExpired (e : exn) : bool :=
  match e with TimeoutExpired => true | _ => false end.

Inductive res (A : Type) : Type :=
| Ret (a : A)
| Raise (e : exn).
Arguments Ret {A} a.
Arguments Raise {A} e.

Definition res_bind {A B} (r : res A) (k : A -> res B) : res B :=
  match r with Ret a => k a | Raise e => Raise e end.

(** [try: body; except Exception as e: handler(e)] — every constructor of
    [exn] is a subclass of [Exception]. *)
Definition try_except {A} (body : res A) (handler : exn -> res A) : res A :=
  match body with Ret a => Ret a | Raise e => handler e end.

Definition raises {A} (r : res A) : Prop := exists e, r = Raise e.

(** ** Bytes and [struct] *)

Abbreviation bytes := (list byte).

#[global] Instance byte_eq_decision : EqDecision byte := Byte.byte_eq_dec.

Definition byte_val (b : byte) : Z := Z.of_N (Byte.to_N b).

Definition byte_of_Z (z : Z) : byte :=
  default x00 (Byte.of_N (Z.to_N z)).

Module struct.

(** [struct.unpack('<I', b)[0]]: four bytes, least significant first. *)
Definition unpack_I (b : bytes) : res Z :=
  match b with
  | [b0; b1; b2; b3] =>
      Ret (Z.lor (byte_val b0)
          (Z.lor (Z.shiftl (byte_val b1) 8)
          (Z.lor (Z.shiftl (byte_val b2) 16)
                 (Z.shiftl (byte_val b3) 24))))
  | _ => Raise StructError
  end.

(** [struct.pack('<I', v)]: raises [struct.error] outside [0, 2^32). *)
Definition pack_I (v : Z) : res bytes :=
  if bool_decide (0 <= v < 2 ^ 32) then
    Ret [ byte_of_Z (Z.land v 255);
          byte_of_Z (Z.land (Z.shiftr v 8) 255);
          byte_of_Z (Z.land (Z.shiftr v 16) 255);
          byte_of_Z (Z.land (Z.shiftr v 24) 255) ]
  else Raise StructError.

End struct.

(** ** Paths and the file system *)

Abbreviation path := (list string).

Inductive node : Type :=
| File (data : bytes)
| Directory.

Abbreviation fs := (gmap path node).

(** [p / name] *)
Definition path_join (p : path) (name : string) : path := p ++ [name].

(** [p.name] *)
Definition path_name (p : path) : string := List.last p "".

(** [p.parent] *)
Definition path_parent (p : path) : path := removelast p.

(** [os.path.exists(p)] / [Path.exists()] *)
Definition path_exists (s : fs) (p : path) : bool :=
  bool_decide (is_Some (s !! p)).

(** [p.is_file()] *)
Definition is_file (s : fs) (p : path) : bool :=
  match s !! p with Some (File _) => true | _ => false end.

(** [open(p, 'rb').read()]: the whole content, or the error [open] raises. *)
Definition open_rb (s : fs) (p : path) : res bytes :=
  match s !! p with
  | Some (File d) => Ret d
  | Some Directory => Raise (PermissionError "Permission denied")
  | None => Raise (FileNotFoundError "No such file or directory")
  end.

(** [f.read(n)] at offset 0. *)
Definition read_n (n : nat) (d : bytes) : bytes := take n d.

(** [f.seek(off); f.write(b)] on a file whose content is [d]: the bytes at
    [off .. off + len b) are overwritten, a write past the end extends the
    file (the gap, if any, reads as zero). *)
Definition seek_write (d : bytes) (off : nat) (b : bytes) : bytes :=
  take off d ++ replicate (off - length d) x00 ++ b ++ drop (off + length b) d.

(** The monad of code that reads and mutates the file system and may
    raise: the file system survives an exception. *)
Definition M (A : Type) : Type := fs -> res A * fs.

Definition mret {A} (a : A) : M A := fun s => (Ret a, s).
Definition mraise {A} (e : exn) : M A := fun s => (Raise e, s).
Definition mbind {A B} (m : M A) (k : A -> M B) : M B :=
  fun s => match m s with
           | (Ret a, s') => k a s'
           | (Raise e, s') => (Raise e, s')
           end.
Definition mtry {A} (body : M A) (handler : exn -> M A) : M A :=
  fun s => match body s with
           | (Ret a, s') => (Ret a, s')
           | (Raise e, s') => handler e s'
           end.
Definition mread {A} (f : fs -> res A) : M A := fun s => (f s, s).
Definition mget {A} (f : fs -> A) : M A := fun s => (Ret (f s), s).

Declare Scope m_scope.
Delimit Scope m_scope with M.
Notation "x <- m ;; k" := (mbind m (fun x => k))
  (at level 100, m at next level, right associativity) : m_scope.
Notation "m ;;; k" := (mbind m (fun _ => k))
  (at level 100, right associativity) : m_scope.

(** ** What the operating system refuses

    Opening a file for update, copying, removing and renaming can fail on
    files that are there: the file is read-only or held by another
    process, the disk is full.  Which operation is refused on which path,
    and with which exception, is given by the environment; a refusal
    stays with its path for the whole run.  A copy that is refused leaves
    nothing at its destination ([partial = None]) or the first [n] bytes
    of the source ([partial = Some n]).  A copy that is made carries the
    attributes of its source: whether it can be opened for update
    afterwards is again a question to the environment. *)
Inductive copy_end : Type :=
| CopyDone
| CopyFails (e : exn) (partial : option nat).

Class os_faults : Type := mk_faults {
  open_rw_fault : path -> option exn;
  copy_fault : path -> path -> copy_end;
  remove_fault : path -> option exn;
  rename_fault : path -> path -> option exn
}.

(** The operating system refuses nothing. *)
Definition no_os_faults : os_faults :=
  mk_faults (fun _ => None) (fun _ _ => CopyDone) (fun _ => None) (fun _ _ => None).

(** [with open(p, 'r+b') as f: f.seek(off); f.write(b)] *)
Definition open_rw_seek_write {E : os_faults} (p : path) (off : nat) (b : bytes)
  : M unit :=
  fun s => match s !! p with
           | Some (File d) =>
               match open_rw_fault p with
               | Some e => (Raise e, s)
               | None => (Ret tt, <[p := File (seek_write d off b)]> s)
               end
           | Some Directory => (Raise (PermissionError "Permission denied"), s)
           | None => (Raise (FileNotFoundError "No such file or directory"), s)
           end.

(** ** ASCII string helpers *)

(** [s.lower()] on ASCII text. *)
Definition lower_ascii (c : Ascii.ascii) : Ascii.ascii :=
  let n := Ascii.N_of_ascii c in
  if bool_decide (65 <= n <= 90)%N then Ascii.ascii_of_N (n + 32) else c.

Fixpoint lower (s : string) : string :=
  match s with
  | EmptyString => EmptyString
  | String c s' => String (lower_ascii c) (lower s')
  end.

(** [s.startswith(p)] *)
Definition startswith (s p : string) : bool := String.prefix p s.

(** [sub in s] *)
Fixpoint contains (s sub : string) : bool :=
  String.prefix sub s ||
  match s with
  | EmptyString => false
  | String _ s' => contains s' sub
  end.

(** [s.endswith(p)] *)
Fixpoint endswith (s p : string) : bool :=
  bool_decide (s = p) ||
  match s with
  | EmptyString => false
  | String _ s' => endswith s' p
  end.

(** ** The BA2 archive header *)

Module ArchiveVersionEnum.
Definition FALLOUT_4 : Z := 1.
Definition FALLOUT_4_NG2 : Z := 7.
Definition FALLOUT_4_NG : Z := 8.
End ArchiveVersionEnum.

(** [v in [FALLOUT_4_NG, FALLOUT_4_NG2]] *)
Definition is_next_gen_version (v : Z) : bool :=
  bool_decide (v = ArchiveVersionEnum.FALLOUT_4_NG) ||
  bool_decide (v = ArchiveVersionEnum.FALLOUT_4_NG2).

Record BA2Header : Type := mkBA2Header {
  magic : bytes;
  version : Z;
  format : bytes;
  file_count : Z
}.

(** [b'BTDX'] *)
Definition BTDX : bytes := [x42; x54; x44; x58].

(** [header_data[i:j]] *)
Definition slice (d : bytes) (i j : nat) : bytes := take (j - i) (drop i d).

Module BA2.

(** The body of the [with] block of [BA2Header.from_file], on the
    content of the opened file. *)
Definition parse (d : bytes) : res (option BA2Header) :=
  let header_data := read_n 16 d in
  if bool_decide (length header_data < 16)%nat then Ret None
  else
    let magic := slice header_data 0 4 in
    res_bind (struct.unpack_I (slice header_data 4 8)) (fun version =>
    let format_type := slice header_data 8 12 in
    res_bind (struct.unpack_I (slice header_data 12 16)) (fun file_count =>
    if bool_decide (magic <> BTDX) then Ret None
    else Ret (Some (mkBA2Header magic version format_type file_count)))).

(** [BA2Header.from_file(file_path)] *)
Definition from_file (s : fs) (file_path : path) : res (option BA2Header) :=
  try_except
    (res_bind (open_rb s file_path) parse)
    (fun _ => Ret None).

(** [header and header.version in [FALLOUT_4_NG, FALLOUT_4_NG2]] *)
Definition header_is_next_gen (h : res (option BA2Header)) : bool :=
  match h with
  | Ret (Some hd) => is_next_gen_version (version hd)
  | _ => false
  end.

End BA2.

(** ** The archive version normaliser *)

(** [for x in l: acc = body(acc, x)] in [M]. *)
Fixpoint mfor {A B} (l : list A) (acc : B) (body : B -> A -> M B) : M B :=
  match l with
  | [] => mret acc
  | x :: l' => (acc' <- body acc x ;; mfor l' acc' body)%M
  end.

Module FalloutVRDowngrader.

Record t : Type := mk { data_path : path }.

(** [__init__] *)
Definition init (s : fs) (fallout4vr_data_path : path) : res t :=
  let self := mk fallout4vr_data_path in
  if negb (path_exists s (data_path self)) then
    Raise (FileNotFoundError "Fallout 4 VR Data directory not found")
  else Ret self.

Definition dlc_groups : list (string * list string) :=
  [ ("Automatron DLC", ["DLCRobot"]);
    ("Far Harbor DLC", ["DLCCoast"]);
    ("Nuka-World DLC", ["DLCNukaWorld"]);
    ("Wasteland Workshop DLC", ["DLCworkshop"]) ]%string.

(** [p] is an entry of directory [dir] whose name matches [*.ba2]
    (names compare without case on Windows). *)
Definition matches_ba2 (dir p : path) : bool :=
  bool_decide (p <> [] /\ path_parent p = dir) &&
  endswith (lower (path_name p)) ".ba2".

(** [list(dir.glob("*.ba2"))] *)
Definition glob_ba2 (s : fs) (dir : path) : list path :=
  List.filter (matches_ba2 dir) (map fst (map_to_list s)).

(** [any(ba2_file.name.startswith(prefix) for prefix in prefixes)] *)
Definition belongs_to (prefixes : list string) (ba2_file : path) : bool :=
  existsb (startswith (path_name ba2_file)) prefixes.

(** The inner loop of [find_dlc_ba2_status]: the files of one group and
    whether one of them carries a next-gen version. *)
Definition scan_group (s : fs) (prefixes : list string) (ba2_files : list path)
  : list path * bool :=
  foldl (fun '(dlc_files, needs_downgrade) ba2_file =>
           if belongs_to prefixes ba2_file then
             (dlc_files ++ [ba2_file],
              needs_downgrade || BA2.header_is_next_gen (BA2.from_file s ba2_file))
           else (dlc_files, needs_downgrade))
        ([], false) ba2_files.

(** [find_dlc_ba2_status]: the dictionary in insertion order. *)
Definition find_dlc_ba2_status (self : t) (s : fs)
  : list (string * (list path * string)) :=
  let ba2_files := glob_ba2 s (data_path self) in
  omap (fun '(dlc_name, prefixes) =>
          let '(dlc_files, needs_downgrade) := scan_group s prefixes ba2_files in
          match dlc_files with
          | [] => None
          | _ => Some (dlc_name,
                       (dlc_files,
                        if needs_downgrade then "Needs Downgrade"%string
                        else "London Ready"%string))
          end)
       dlc_groups.

(** [get_dlc_needing_downgrade] *)
Definition get_dlc_needing_downgrade (self : t) (s : fs)
  : list (string * list path) :=
  omap (fun '(dlc_name, (files, status)) =>
          if String.eqb status "Needs Downgrade" then
            let next_gen_files :=
              List.filter (fun file_path =>
                             BA2.header_is_next_gen (BA2.from_file s file_path))
                          files in
            match next_gen_files with
            | [] => None
            | _ => Some (dlc_name, next_gen_files)
            end
          else None)
       (find_dlc_ba2_status self s).

Section rewrite.
Context {E : os_faults}.

(** The write of [downgrade_ba2_file]:
    [open(file_path, 'r+b'); f.seek(4); f.write(struct.pack('<I', code))]. *)
Definition write_version_code (file_path : path) (code : Z) : M unit :=
  (b <- mread (fun _ => struct.pack_I code) ;;
   open_rw_seek_write file_path 4 b)%M.

(** [downgrade_ba2_file] *)
Definition downgrade_ba2_file (file_path : path) : M bool :=
  mtry
    (header <- mread (fun s => BA2.from_file s file_path) ;;
     match header with
     | None => mret false
     | Some h =>
         if bool_decide (version h = ArchiveVersionEnum.FALLOUT_4) then mret true
         else if negb (is_next_gen_version (version h)) then mret false
         else
           (write_version_code file_path ArchiveVersionEnum.FALLOUT_4 ;;;
            mret true)
     end)%M
    (fun _ => mret false).

(** The inner loop of [downgrade_dlc_ba2_files] over the files of one
    group. *)
Definition downgrade_group (files : list path) (success_count : Z)
  : M (Z * list path) :=
  mfor files (success_count, [])
       (fun '(success_count, downgraded_files) file_path =>
          (ok <- downgrade_ba2_file file_path ;;
           mret (if ok : bool
                 then (success_count + 1, downgraded_files ++ [file_path])
                 else (success_count, downgraded_files)))%M).

(** [downgrade_dlc_ba2_files] *)
Definition downgrade_dlc_ba2_files (self : t) : M (Z * list (string * list path)) :=
  (dlc_needing_downgrade <- mget (get_dlc_needing_downgrade self) ;;
   match dlc_needing_downgrade with
   | [] => mret (0, [])
   | _ =>
       mfor dlc_needing_downgrade (0, [])
            (fun '(success_count, downgraded_by_dlc) '(dlc_name, files) =>
               (r <- downgrade_group files success_count ;;
                let '(success_count', downgraded_files) := r in
                mret (success_count',
                      match downgraded_files with
                      | [] => downgraded_by_dlc
                      | _ => downgraded_by_dlc ++ [(dlc_name, downgraded_files)]
                      end))%M)
   end)%M.

End rewrite.

End FalloutVRDowngrader.

(** ** The DLC resolver *)

(** [s.split(sep)[0]]: the part of [s] before the first occurrence of
    [sep], all of [s] when [sep] does not occur. *)
Fixpoint before_first (sep s : string) : string :=
  if String.prefix sep s then EmptyString
  else match s with
       | EmptyString => EmptyString
       | String c s' => String c (before_first sep s')
       end.

(** One value of the [dlc_info] dictionary. *)
Record dlc_data : Type := mk_dlc_data {
  esm : string;
  ba2_prefixes : list string;
  found_in : option string;
  esm_path : option path;
  ba2_paths : list path;
  is_next_gen : option bool
}.

(** Truth value of [dlc_data.get("is_next_gen")]. *)
Definition truthy (o : option bool) : bool :=
  match o with Some true => true | _ => false end.

Module DlcResolver.

(** The catalogue built at the start of [detect_dlc_in_both_games]. *)
Definition unresolved (esm_name : string) (prefixes : list string) : dlc_data :=
  mk_dlc_data esm_name prefixes None None [] None.

Definition initial_dlc_info : list (string * dlc_data) :=
  [ ("Automatron", unresolved "DLCRobot.esm" ["DLCRobot"]);
    ("Wasteland Workshop", unresolved "DLCworkshop01.esm" ["DLCworkshop01"]);
    ("Far Harbor", unresolved "DLCCoast.esm" ["DLCCoast"]);
    ("Contraptions Workshop", unresolved "DLCworkshop02.esm" ["DLCworkshop02"]);
    ("Vault-Tec Workshop", unresolved "DLCworkshop03.esm" ["DLCworkshop03"]);
    ("Nuka-World", unresolved "DLCNukaWorld.esm" ["DLCNukaWorld"]) ]%string.

(** [p] is an entry of [directory]. *)
Definition is_child (directory p : path) : bool :=
  bool_decide (p <> [] /\ path_parent p = directory).

(** [directory.iterdir()] *)
Definition iterdir (s : fs) (directory : path) : res (list path) :=
  match s !! directory with
  | Some Directory => Ret (List.filter (is_child directory) (map fst (map_to_list s)))
  | Some (File _) => Raise (OSError "The directory name is invalid")
  | None => Raise (FileNotFoundError "The system cannot find the path specified")
  end.

(** The prefix under which a [.ba2] file is filed in [ba2_map]. *)
Definition ba2_prefix (file_name : string) : string :=
  if contains file_name " - " then before_first " - " file_name
  else before_first "." file_name.

(** The loop that fills [esm_map] and [ba2_map]. *)
Definition build_maps (files : list path)
  : gmap string path * gmap string (list path) :=
  foldl (fun '(esm_map, ba2_map) file_path =>
           let file_name := path_name file_path in
           let file_lower := lower file_name in
           if endswith file_lower ".esm" then
             (<[file_name := file_path]> esm_map, ba2_map)
           else if endswith file_lower ".ba2" then
             let prefix := ba2_prefix file_name in
             (esm_map,
              <[prefix := default [] (ba2_map !! prefix) ++ [file_path]]> ba2_map)
           else (esm_map, ba2_map))
        (∅, ∅) files.

(** The loops over [ba2_prefixes] and [ba2_map[prefix]]: the archives of
    the group in this directory and whether one of them is next-gen. *)
Definition match_ba2 (s : fs) (ba2_map : gmap string (list path))
    (prefixes : list string) : list path * bool :=
  foldl (fun acc prefix =>
           match ba2_map !! prefix with
           | Some found =>
               foldl (fun '(ba2_paths, is_ng) ba2_path =>
                        (ba2_paths ++ [ba2_path],
                         is_ng || BA2.header_is_next_gen (BA2.from_file s ba2_path)))
                     acc found
           | None => acc
           end)
        ([], false) prefixes.

(** What one directory offers for a group: the metadata file and the
    matching archives with their joint next-gen flag; [None] when the
    group's [.esm] is not in the directory. *)
Definition candidate (s : fs) (esm_map : gmap string path)
    (ba2_map : gmap string (list path)) (d : dlc_data)
  : option (path * (list path * bool)) :=
  match esm_map !! esm d with
  | Some esm_path => Some (esm_path, match_ba2 s ba2_map (ba2_prefixes d))
  | None => None
  end.

(** The body of the loop over [dlc_info.items()] for one group. *)
Definition update_entry (s : fs) (esm_map : gmap string path)
    (ba2_map : gmap string (list path)) (source_name : string) (d : dlc_data)
  : dlc_data :=
  match candidate s esm_map ba2_map d with
  | Some (esm_path, (ba2_paths, is_ng)) =>
      if bool_decide (found_in d = None) || (negb is_ng && truthy (is_next_gen d))
      then mk_dlc_data (esm d) (ba2_prefixes d)
                       (Some source_name) (Some esm_path) ba2_paths (Some is_ng)
      else d
  | None => d
  end.

(** [_scan_single_directory_for_dlc]: returns the dictionary it mutates.
    The [except] clause only logs, so a directory that cannot be listed
    leaves the dictionary as it was. *)
Definition _scan_single_directory_for_dlc (s : fs) (directory : path)
    (dlc_info : list (string * dlc_data)) (source_name : string)
  : list (string * dlc_data) :=
  match iterdir s directory with
  | Ret entries =>
      let files := List.filter (is_file s) entries in
      let '(esm_map, ba2_map) := build_maps files in
      map (fun '(dlc_name, d) =>
             (dlc_name, update_entry s esm_map ba2_map source_name d))
          dlc_info
  | Raise _ => dlc_info
  end.

(** The candidate a directory offers, as [_scan_single_directory_for_dlc]
    computes it; [None] also when the directory cannot be listed. *)
Definition directory_candidate (s : fs) (directory : path) (d : dlc_data)
  : option (path * (list path * bool)) :=
  match iterdir s directory with
  | Ret entries =>
      let '(esm_map, ba2_map) := build_maps (List.filter (is_file s) entries) in
      candidate s esm_map ba2_map d
  | Raise _ => None
  end.

(** [detect_dlc_in_both_games], on the three configured locations. *)
Definition scan_if_exists (s : fs) (directory : path) (source_name : string)
    (dlc_info : list (string * dlc_data)) : list (string * dlc_data) :=
  if path_exists s directory
  then _scan_single_directory_for_dlc s directory dlc_info source_name
  else dlc_info.

Definition detect_dlc_in_both_games (s : fs) (f4_path : path)
    (f4vr_path london_data_path : option path) : list (string * dlc_data) :=
  let dlc_info := initial_dlc_info in
  let dlc_info :=
    if path_exists s f4_path then
      scan_if_exists s (path_join f4_path "Data") "Fallout 4 DLC"
        (_scan_single_directory_for_dlc s f4_path dlc_info "Fallout 4 DLC")
    else dlc_info in
  let dlc_info :=
    match f4vr_path with
    | Some vr => scan_if_exists s (path_join vr "Data") "Fallout 4 VR" dlc_info
    | None => dlc_info
    end in
  match london_data_path with
  | Some london =>
      if path_exists s london then
        scan_if_exists s (path_join london "Data") "Fallout London"
          (_scan_single_directory_for_dlc s london dlc_info "Fallout London")
      else dlc_info
  | None => dlc_info
  end.

End DlcResolver.

(** ** File-system primitives used by the delta patcher *)

(** [os.path.getsize(p)] *)
Definition getsize (s : fs) (p : path) : res Z :=
  match s !! p with
  | Some (File d) => Ret (Z.of_nat (length d))
  | Some Directory => Ret 0
  | None => Raise (FileNotFoundError "The system cannot find the file specified")
  end.

Section primitives.
Context {E : os_faults}.

(** [os.remove(p)] *)
Definition os_remove (p : path) : M unit :=
  fun s => match s !! p with
           | Some (File _) =>
               match remove_fault p with
               | Some e => (Raise e, s)
               | None => (Ret tt, delete p s)
               end
           | Some Directory => (Raise (PermissionError "Access is denied"), s)
           | None =>
               (Raise (FileNotFoundError "The system cannot find the file specified"), s)
           end.

(** [os.rename(src, dst)] with Windows semantics: an existing [dst] is an
    error. *)
Definition os_rename (src dst : path) : M unit :=
  fun s => match s !! src with
           | None =>
               (Raise (FileNotFoundError "The system cannot find the file specified"), s)
           | Some n =>
               if path_exists s dst
               then (Raise (FileExistsError "Cannot create a file when that file already exists"), s)
               else
                 match rename_fault src dst with
                 | Some e => (Raise e, s)
                 | None => (Ret tt, <[dst := n]> (delete src s))
                 end
           end.

(** Where [shutil.copy2(src, dst)] writes: a [dst] that is a directory
    receives the copy under the source's name. *)
Definition copy_target (s : fs) (src dst : path) : path :=
  match s !! dst with
  | Some Directory => path_join dst (path_name src)
  | _ => dst
  end.

(** [shutil.copy2(src, dst)] *)
Definition copy2 (src dst : path) : M unit :=
  fun s => match s !! src with
           | Some (File d) =>
               match copy_fault src dst with
               | CopyDone => (Ret tt, <[copy_target s src dst := File d]> s)
               | CopyFails e None => (Raise e, s)
               | CopyFails e (Some n) =>
                   (Raise e, <[copy_target s src dst := File (take n d)]> s)
               end
           | Some Directory => (Raise (PermissionError "Permission denied"), s)
           | None => (Raise (FileNotFoundError "No such file or directory"), s)
           end.

End primitives.

(** [path + suffix] on the textual form of a path: the suffix extends the
    last component. *)
Fixpoint path_add (p : path) (suffix : string) : path :=
  match p with
  | [] => [suffix]
  | [name] => [name +:+ suffix]
  | c :: p' => c :: path_add p' suffix
  end.

(** ** The delta patcher *)

Module ESMPatcher.

Record patch_entry : Type := mk_patch { patch : string; description : string }.

Record t : Type := mk {
  assets_dir : path;
  xdelta_path : path;
  patch_mappings : gmap Z patch_entry
}.

(** [__init__]: the size-keyed table of the two known variants. *)
Definition init (assets_dir : path) : t :=
  mk assets_dir
     (path_join assets_dir "xdelta3.exe")
     (<[330777465 := mk_patch "fallout4_323025.xdelta" "323,025 KB variant"]>
      (<[330553163 := mk_patch "fallout4_322806.xdelta" "322,806 KB variant"]> ∅)).

(** What one invocation of the external tool does: how
    [subprocess.run(cmd, timeout=120)] ends, and what the tool leaves at its
    output path ([None]: it does not touch that path). *)
Inductive run_end : Type :=
| Completed (returncode : Z)
| RunRaises (e : exn).

Record tool_run : Type := mk_run { run_end_of : run_end; output : option bytes }.

(** [subprocess.run(cmd, ..., timeout=120)] with [cmd] ending in
    [temp_output]; returns [result.returncode]. *)
Definition subprocess_run (tool : tool_run) (temp_output : path) : M Z :=
  fun s =>
    let s' := match output tool with
              | Some b => <[temp_output := File b]> s
              | None => s
              end in
    match run_end_of tool with
    | Completed rc => (Ret rc, s')
    | RunRaises e => (Raise e, s')
    end.

Definition when (b : bool) (m : M unit) : M unit := if b then m else mret tt.

Section patch.
Context {E : os_faults}.

(** [if os.path.exists(p): os.remove(p)] *)
Definition remove_if_exists (p : path) : M unit :=
  (e <- mget (fun s => path_exists s p) ;; when e (os_remove p))%M.

(** The restore block that every failure branch repeats:
    [if os.path.exists(backup_path):
       if os.path.exists(esm_path): os.remove(esm_path)
       os.rename(backup_path, esm_path)] *)
Definition restore_backup (esm_path backup_path : path) : M unit :=
  (b <- mget (fun s => path_exists s backup_path) ;;
   when b (remove_if_exists esm_path ;;; os_rename backup_path esm_path))%M.

(** Reading the local [temp_output] in an [except] clause: unbound when the
    exception left the [try] block before the assignment. *)
Definition remove_temp (temp_output : option path) : M unit :=
  match temp_output with
  | Some p => remove_if_exists p
  | None => mraise (UnboundLocalError "temp_output")
  end.

(** The two [except] clauses of [patch_fallout4_esm]. *)
Definition on_exception (esm_path backup_path : path) (temp_output : option path)
    (e : exn) : M bool :=
  if is_TimeoutExpired e then
    (restore_backup esm_path backup_path ;;;
     remove_temp temp_output ;;;
     mret false)%M
  else
    (b <- mget (fun s => path_exists s backup_path) ;;
     when b (mtry (remove_if_exists esm_path ;;; os_rename backup_path esm_path)
                  (fun _ => mret tt)) ;;;
     remove_temp temp_output ;;;
     mret false)%M.

(** The [try] block after the backup has been made. *)
Definition apply_patch (tool : tool_run) (esm_path backup_path temp_output : path)
  : M bool :=
  (returncode <- subprocess_run tool temp_output ;;
   if bool_decide (returncode = 0) then
     out_exists <- mget (fun s => path_exists s temp_output) ;;
     if out_exists : bool then
       patched_size <- mread (fun s => getsize s temp_output) ;;
       if bool_decide (patched_size > 300000000) then
         os_remove esm_path ;;;
         os_rename temp_output esm_path ;;;
         remove_if_exists backup_path ;;;
         mret true
       else
         restore_backup esm_path backup_path ;;;
         remove_if_exists temp_output ;;;
         mret false
     else
       restore_backup esm_path backup_path ;;;
       mret false
   else
     restore_backup esm_path backup_path ;;;
     remove_if_exists temp_output ;;;
     mret false)%M.

(** [patch_fallout4_esm] *)
Definition patch_fallout4_esm (self : t) (tool : tool_run) (folon_data_dir : path)
  : M bool :=
  let esm_path := path_join folon_data_dir "Fallout4.esm" in
  (esm_exists <- mget (fun s => path_exists s esm_path) ;;
   if negb esm_exists then mret false
   else
     esm_size <- mread (fun s => getsize s esm_path) ;;
     match patch_mappings self !! esm_size with
     | None => mret false
     | Some selected_patch =>
         let patch_path := path_join (assets_dir self) (patch selected_patch) in
         patch_exists <- mget (fun s => path_exists s patch_path) ;;
         if negb patch_exists then mret false
         else
           tool_exists <- mget (fun s => path_exists s (xdelta_path self)) ;;
           if negb tool_exists then mret false
           else
             let backup_path := path_add esm_path ".backup" in
             fun s =>
               match copy2 esm_path backup_path s with
               | (Raise e, s1) => on_exception esm_path backup_path None e s1
               | (Ret _, s1) =>
                   let temp_output := path_add esm_path ".patched" in
                   mtry (apply_patch tool esm_path backup_path temp_output)
                        (on_exception esm_path backup_path (Some temp_output))
                        s1
               end
     end)%M.

End patch.

End ESMPatcher.

(** ** The parallel tree copier *)

(** A source directory as [os.walk] sees it: the files of the directory
    with their content, and its sub-directories. *)
#[local] Unset Elimination Schemes.
Inductive tree : Type :=
| Tree (files : list (string * bytes)) (dirs : list (string * tree)).
#[local] Set Elimination Schemes.

Definition tree_files (t : tree) : list (string * bytes) :=
  match t with Tree files _ => files end.

Definition tree_dirs (t : tree) : list (string * tree) :=
  match t with Tree _ dirs => dirs end.

(** First entry of a directory listing with the given name. *)
Fixpoint assoc {A : Type} (name : string) (l : list (string * A)) : option A :=
  match l with
  | [] => None
  | (k, v) :: l' => if bool_decide (k = name) then Some v else assoc name l'
  end.

(** The content of the file at a path relative to the root of the tree. *)
Fixpoint tree_lookup (t : tree) (rel : path) : option bytes :=
  match rel with
  | [] => None
  | [name] => assoc name (tree_files t)
  | d :: rel' =>
      match assoc d (tree_dirs t) with
      | Some sub => tree_lookup sub rel'
      | None => None
      end
  end.

(** The textual form of a path, components joined by the separator. *)
Definition path_str (p : path) : string := String.concat "\" p.

(** [x in l] on lists of strings. *)
Definition in_list (x : string) (l : list string) : bool :=
  existsb (String.eqb x) l.

Module Copier.

(** An entry [(src_file, dest_file, size)] of [files_to_copy]. *)
Record file_info : Type := mk_info {
  src_file : path;
  dest_file : path;
  size : Z
}.

Definition default_exclude_dirs : list string :=
  ["F4SE"; "source"; "scripts\source"]%string.

(** [any(excl.lower() in root.lower() for excl in exclude_dirs_lower)] *)
Definition in_excluded_directory (exclude_dirs_lower : list string) (root : path)
  : bool :=
  existsb (fun excl => contains (lower (path_str root)) (lower excl))
          exclude_dirs_lower.

Section scan.
Variables (src_dir dest_dir : path).
Variables (exclude_dirs_lower exclude_files_lower : list string).

(** The source files on which [os.path.getsize] raises [OSError]. *)
Variable getsize_fails : path -> bool.

(** [os.path.join(dest_dir, os.path.relpath(src_file, src_dir))] *)
Definition dest_of (src_file : path) : path :=
  dest_dir ++ drop (length src_dir) src_file.

(** The loop over the files of one directory visited by the walk: a file
    whose size cannot be read is left out of the manifest (the [except
    OSError] clause only logs). *)
Definition scan_files (root : path) (files : list (string * bytes))
  : list file_info :=
  flat_map (fun '(file, data) =>
              if in_list (lower file) exclude_files_lower then []
              else
                let src_file := path_join root file in
                if getsize_fails src_file then []
                else [mk_info src_file (dest_of src_file) (Z.of_nat (length data))])
           files.

(** The [for root, dirs, files in os.walk(src_dir)] loop, from directory
    [root] downwards: excluded sub-directories are pruned from the walk,
    a directory whose path contains an excluded name contributes nothing,
    and the walk visits a directory before its sub-directories. *)
Fixpoint scan_tree (root : path) (t : tree) {struct t} : list file_info :=
  match t with
  | Tree files dirs =>
      (if in_excluded_directory exclude_dirs_lower root then []
       else scan_files root files)
      ++ flat_map (fun '(d, sub) =>
                     if in_list (lower d) exclude_dirs_lower then []
                     else scan_tree (path_join root d) sub)
                  dirs
  end.

End scan.

(** [files_to_copy.sort(key=lambda x: x[2])]: stable, ascending by size. *)
Fixpoint insert_by_size (x : file_info) (l : list file_info) : list file_info :=
  match l with
  | [] => [x]
  | y :: l' =>
      if bool_decide (size x <= size y) then x :: y :: l'
      else y :: insert_by_size x l'
  end.

Definition sort_by_size (l : list file_info) : list file_info :=
  foldr insert_by_size [] l.

(** What the environment does to one copy task: nothing, or an exception
    at one of the places where the task touches the file system.  A fault
    while the content is written ([FailAtChunk k e n]) makes the write of
    chunk [k] raise [e] (the closing flush, when the file has fewer
    chunks); the bytes that reached the destination by then are the first
    [n] bytes of the source: the chunk may have been written in part, and
    chunks handed over earlier may not have been flushed. *)
Inductive fault : Type :=
| NoFault
| FailMakedirs (e : exn)
| FailOpen (e : exn)
| FailAtChunk (k : nat) (e : exn) (n : nat)
| FailCopystat (e : exn).

Definition fault_exn (f : fault) : option exn :=
  match f with
  | NoFault => None
  | FailMakedirs e | FailOpen e | FailAtChunk _ e _ | FailCopystat e => Some e
  end.

(** The environment of one copy operation: for each source file, whether
    its task finds [self.cancel_requested] set when it starts, the fault
    it meets, and whether its size can be read when the manifest is
    built. *)
Record env : Type := mk_env {
  cancel_requested : path -> bool;
  fault_of : path -> fault;
  getsize_fails : path -> bool
}.


Inductive event : Type :=
| ReadonlyCleared (dest_file : path)
| CopyStarted (src_file : path).

(** The state shared by the tasks of one copy operation, with the
    destination files and a trace of what the tasks did. *)
Record state : Type := mk_state {
  dest : gmap path bytes;
  copied_counter : Z;
  failed_files : list (path * string);
  events : list event
}.

Definition log_event (ev : event) (st : state) : state :=
  mk_state (dest st) (copied_counter st) (failed_files st) (events st ++ [ev]).

(** [remove_readonly_and_overwrite(file_path)]: clears the read-only
    attribute of an existing file; it swallows its own errors. *)
Definition remove_readonly_and_overwrite (file_path : path) (st : state) : state :=
  match dest st !! file_path with
  | Some _ => log_event (ReadonlyCleared file_path) st
  | None => st
  end.

(** [chunk_size = 4 * 1024 * 1024] *)
Definition chunk_size : N := 4 * 1024 * 1024.

(** [f.read(n)]: the chunk read and what remains of the file. *)
Fixpoint read_chunk (n : N) (d : bytes) : bytes * bytes :=
  match d with
  | [] => ([], [])
  | b :: d' =>
      if bool_decide (n = 0)%N then ([], d)
      else let '(chunk, rest) := read_chunk (N.pred n) d' in (b :: chunk, rest)
  end.

(** The [while True] loop of the chunked copy: [index] chunks have been
    handed to [fdest.write] and counted, [fsrc] is what remains to be read
    and [fdest] what has been handed over.  A fault at chunk [k] stops the
    loop after [k] chunks, or at the end of the file if it is shorter. *)
Fixpoint copy_chunks (fuel : nat) (f : fault) (index : nat)
    (fsrc fdest : bytes) (counter : Z) : res unit * bytes * Z :=
  match fuel with
  | O => (Ret tt, fdest, counter)
  | S fuel' =>
      match f with
      | FailAtChunk k e _ =>
          if bool_decide (k = index) then (Raise e, fdest, counter)
          else
            match read_chunk chunk_size fsrc with
            | ([], _) => (Raise e, fdest, counter)
            | (chunk, rest) =>
                copy_chunks fuel' f (S index) rest (fdest ++ chunk)
                            (counter + Z.of_nat (length chunk))
            end
      | _ =>
          match read_chunk chunk_size fsrc with
          | ([], _) => (Ret tt, fdest, counter)
          | (chunk, rest) =>
              copy_chunks fuel' f (S index) rest (fdest ++ chunk)
                          (counter + Z.of_nat (length chunk))
          end
      end
  end.

(** What the destination file holds when the [with] block is left: the
    chunks handed to [fdest.write], unless the content fault cut the
    writing short. *)
Definition on_disk (f : fault) (data handed : bytes) : bytes :=
  match f with
  | FailAtChunk _ _ n => take n data
  | _ => handed
  end.

Section copy.
Variables (src_tree : tree) (src_dir : path) (environment : env).

(** [open(src_file, 'rb')] *)
Definition open_src (src_file : path) : res bytes :=
  match tree_lookup src_tree (drop (length src_dir) src_file) with
  | Some data => Ret data
  | None => Raise (FileNotFoundError "No such file or directory")
  end.

(** The [try] block of [copy_single_file_safe]. *)
Definition copy_attempt (info : file_info) (st : state) : res unit * state :=
  let f := fault_of environment (src_file info) in
  match f with
  | FailMakedirs e => (Raise e, st)
  | _ =>
      let st := remove_readonly_and_overwrite (dest_file info) st in
      let st := log_event (CopyStarted (src_file info)) st in
      match f with
      | FailOpen e => (Raise e, st)
      | _ =>
          match open_src (src_file info) with
          | Raise e => (Raise e, st)
          | Ret data =>
              let '(r, handed, counter) :=
                copy_chunks (S (length data)) f 0 data [] (copied_counter st) in
              let st := mk_state (<[dest_file info := on_disk f data handed]> (dest st))
                                 counter (failed_files st) (events st) in
              match r with
              | Raise e => (Raise e, st)
              | Ret _ =>
                  match f with
                  | FailCopystat e => (Raise e, st)
                  | _ => (Ret tt, st)
                  end
              end
          end
      end
  end.

(** [copy_single_file_safe(file_info)] *)
Definition copy_single_file_safe (info : file_info) (st : state)
  : res (bool * path * option string) * state :=
  if cancel_requested environment (src_file info) then
    (Raise (InterruptedError "Installation cancelled by user"), st)
  else
    match copy_attempt info st with
    | (Ret _, st') => (Ret (true, src_file info, None), st')
    | (Raise e, st') =>
        (Ret (false, src_file info, Some (str_exn e)),
         mk_state (dest st') (copied_counter st')
                  (failed_files st' ++ [(src_file info, str_exn e)]) (events st'))
    end.

(** One turn of the [for future in as_completed(future_to_file)] loop: the
    task of [info] runs to its end and its result is collected. *)
Definition collect (acc : Z * state) (info : file_info) : Z * state :=
  let '(files_copied, st) := acc in
  match copy_single_file_safe info st with
  | (Ret (success, _, _), st') =>
      (if success : bool then files_copied + 1 else files_copied, st')
  | (Raise e, st') =>
      (files_copied,
       mk_state (dest st') (copied_counter st')
                (failed_files st' ++ [(src_file info, str_exn e)]) (events st'))
  end.

(** [len(failed_files) > len(files_to_copy) * 0.1], the product taken
    exactly. *)
Definition too_many_failures (failed total : nat) : bool :=
  negb (QArith_base.Qle_bool
          (QArith_base.inject_Z (Z.of_nat failed))
          (QArith_base.Qmult (QArith_base.inject_Z (Z.of_nat total))
                             (QArith_base.Qmake 1 10))).

(** The same test with the product rounded to binary64, as the
    interpreter evaluates it. *)
Definition too_many_failures_binary64 (failed total : nat) : bool :=
  PrimFloat.ltb
    (PrimFloat.mul (PrimFloat.of_uint63 (Uint63.of_Z (Z.of_nat total)))
                   0x1.999999999999ap-4%float)
    (PrimFloat.of_uint63 (Uint63.of_Z (Z.of_nat failed))).

(** [copy_directory_parallel].  The tasks of the pool complete in the order
    [completion] gives to the sorted manifest. *)
Definition copy_directory_parallel (completion : list file_info -> list file_info)
    (dest_dir : path) (exclude_dirs exclude_files : option (list string))
    (dest0 : gmap path bytes) : res bool * state :=
  let exclude_dirs := default default_exclude_dirs exclude_dirs in
  let exclude_files := default [] exclude_files in
  let exclude_dirs_lower := map lower exclude_dirs in
  let exclude_files_lower := map lower exclude_files in
  let files_to_copy :=
    scan_tree src_dir dest_dir exclude_dirs_lower exclude_files_lower
              (getsize_fails environment) src_dir src_tree in
  let st0 := mk_state dest0 0 [] [] in
  match files_to_copy with
  | [] => (Ret true, st0)
  | _ =>
      let files_to_copy := sort_by_size files_to_copy in
      let '(files_copied, st) :=
        foldl collect (0, st0) (completion files_to_copy) in
      if too_many_failures (length (failed_files st)) (length files_to_copy)
      then (Raise (Exception "Too many copy failures"), st)
      else (Ret true, st)
  end.

(** The copy loop of the sequential copier [copy_directory_with_progress]
    over its [files_to_copy].  [os.makedirs] and the first [shutil.copy2]
    of a file meet the fault of the environment, the second
    [shutil.copy2] meets [retry_fault] (of which a [FailMakedirs] has no
    place in a copy and counts as no fault); [total_size] is the sum the
    scan has computed. *)
Section sequential.
Variable retry_fault : path -> fault.
Variable total_size : Z.

(** [shutil.copy2(src_file, dest_file); copied_size += file_size]: a copy
    that fails leaves nothing, a part of the content, or the content
    without its attributes. *)
Definition copy2_file (f : fault) (info : file_info) (st : state)
  : res unit * state :=
  let st := log_event (CopyStarted (src_file info)) st in
  match f with
  | FailOpen e => (Raise e, st)
  | _ =>
      match open_src (src_file info) with
      | Raise e => (Raise e, st)
      | Ret data =>
          match f with
          | FailAtChunk _ e n =>
              (Raise e,
               mk_state (<[dest_file info := take n data]> (dest st))
                        (copied_counter st) (failed_files st) (events st))
          | FailCopystat e =>
              (Raise e,
               mk_state (<[dest_file info := data]> (dest st))
                        (copied_counter st) (failed_files st) (events st))
          | _ =>
              (Ret tt,
               mk_state (<[dest_file info := data]> (dest st))
                        (copied_counter st + size info) (failed_files st) (events st))
          end
      end
  end.

(** [progress_percentage = (copied_size / total_size) * 100] *)
Definition progress_percentage : res unit :=
  if bool_decide (total_size = 0) then Raise ZeroDivisionError else Ret tt.

Fixpoint copy_loop_sequential (files_to_copy : list file_info) (st : state)
  : res unit * state :=
  match files_to_copy with
  | [] => (Ret tt, st)
  | info :: rest =>
      if cancel_requested environment (src_file info) then
        (Raise (InterruptedError "Installation cancelled by user"), st)
      else
        match fault_of environment (src_file info) with
        | FailMakedirs e => (Raise e, st)
        | f =>
            let st := remove_readonly_and_overwrite (dest_file info) st in
            match copy2_file f info st with
            | (Ret _, st') =>
                match progress_percentage with
                | Raise e => (Raise e, st')
                | Ret _ => copy_loop_sequential rest st'
                end
            | (Raise e, st') =>
                if is_PermissionError e then
                  let st' := remove_readonly_and_overwrite (dest_file info) st' in
                  match copy2_file (retry_fault (src_file info)) info st' with
                  | (Ret _, st'') =>
                      match progress_percentage with
                      | Raise e' => (Raise e', st'')
                      | Ret _ => copy_loop_sequential rest st''
                      end
                  | (Raise _, st'') => copy_loop_sequential rest st''
                  end
                else (Raise e, st')
            end
        end
  end.

End sequential.

End copy.

End Copier.

(** ** Vocabulary of the statements about the archive codec and normaliser *)

(** A next-gen archive of sixteen bytes, used as a running example. *)
Definition example_ng_archive : bytes :=
  [x42; x54; x44; x58; x08; x00; x00; x00; x47; x4e; x52; x4c; x02; x00; x00; x00].


(** A compatible archive of sixteen bytes. *)
Definition example_compatible_archive : bytes :=
  [x42; x54; x44; x58; x01; x00; x00; x00; x47; x4e; x52; x4c; x02; x00; x00; x00].

Module NormaliserSpec.
Import FalloutVRDowngrader.

(** The next-gen test both scans apply to a path. *)
Definition ng (s : fs) (p : path) : bool :=
  BA2.header_is_next_gen (BA2.from_file s p).

(** What a run over the paths [l] may have done to the file system: the
    same paths exist, and a path that is next-gen afterwards was next-gen
    before and is not among [l], unless opening it for update is
    refused. *)
Definition normalised {E : os_faults} (l : list path) (s s' : fs) : Prop :=
  (forall q, is_Some (s' !! q) <-> is_Some (s !! q)) /\
  (forall q, ng s' q = true ->
             ng s q = true /\ (q ∉ l \/ is_Some (open_rw_fault q))).

(** All paths handed to [downgrade_ba2_file] by one run. *)
Definition worklist (self : t) (s : fs) : list path :=
  concat (map snd (get_dlc_needing_downgrade self s)).

(** A data directory with one next-gen Automatron archive, one compatible
    Far Harbor archive and one archive outside the catalogue. *)
Definition example_data_dir : fs :=
  {[ ["Data"]%string := Directory;
     ["Data"; "DLCRobot - Main.ba2"]%string := File example_ng_archive;
     ["Data"; "DLCCoast - Main.ba2"]%string := File example_compatible_archive;
     ["Data"; "Fallout4 - Misc.ba2"]%string := File example_ng_archive ]}.

End NormaliserSpec.

(** ** Vocabulary of the statements about the delta patcher *)

Module PatcherSpec.
Import ESMPatcher.

(** The backup has been made and the tool has run: target and backup hold
    the original bytes, no directory stands at the output path, and every
    other path is as it was in [s]. *)
Definition staged (esm backup temp : path) (d : bytes) (s s2 : fs) : Prop :=
  s2 !! esm = Some (File d) /\
  s2 !! backup = Some (File d) /\
  s2 !! temp <> Some Directory /\
  (forall q, q <> backup -> q <> temp -> s2 !! q = s !! q).

(** A state the handlers can roll back from: the backup holds the
    original bytes, no directory stands at the target or at the output
    path, and every path but these three is as it was in [s]. *)
Definition recoverable (esm backup temp : path) (d : bytes) (s s2 : fs) : Prop :=
  s2 !! backup = Some (File d) /\
  s2 !! esm <> Some Directory /\
  s2 !! temp <> Some Directory /\
  (forall q, q <> esm -> q <> backup -> q <> temp -> s2 !! q = s !! q).


(** The state every failure branch ends in: the original file system
    without the two artefacts. *)
Definition rolled_back (backup temp : path) (s : fs) : fs :=
  delete temp (delete backup s).

(** A small instance: a three-byte target whose size is a key of the
    table, and a tool that exits with status 1 after writing a partial
    output. *)
Definition toy_patcher : t :=
  mk ["assets"]%string ["assets"; "xdelta3.exe"]%string
     {[ 3 := mk_patch "toy.xdelta" "three-byte variant" ]}.

Definition toy_fs : fs :=
  {[ ["mod"; "Fallout4.esm"]%string := File [x01; x02; x03];
     ["assets"; "toy.xdelta"]%string := File [x00];
     ["assets"; "xdelta3.exe"]%string := File [x00] ]}.

Definition failing_tool : tool_run := mk_run (Completed 1) (Some [x09]).

(** The disk fills up while the backup is written: one byte of it reaches
    the disk. *)
Definition backup_cut_short : os_faults :=
  mk_faults (fun _ => None)
            (fun _ _ => CopyFails (OSError "No space left on device") (Some 1%nat))
            (fun _ => None) (fun _ _ => None).



End PatcherSpec.

(** ** Vocabulary of the statements about the DLC resolver *)

Module ResolverSpec.
Import DlcResolver.

(** The later directory supersedes an earlier resolution of group [d]: it
    offers the group with no next-gen archive, and the earlier resolution
    was next-gen. *)
Definition supersedes (s : fs) (directory : path) (d : dlc_data) : Prop :=
  exists esm_path ba2_paths,
    directory_candidate s directory d = Some (esm_path, (ba2_paths, false)) /\
    is_next_gen d = Some true.

(** A concrete instance: Automatron is next-gen in [A] and compatible in
    [B]. *)
Definition two_directories : fs :=
  {[ ["A"]%string := Directory;
     ["A"; "DLCRobot.esm"]%string := File [x54; x45; x53; x34];
     ["A"; "DLCRobot - Main.ba2"]%string := File example_ng_archive;
     ["B"]%string := Directory;
     ["B"; "DLCRobot.esm"]%string := File [x54; x45; x53; x34];
     ["B"; "DLCRobot - Main.ba2"]%string := File example_compatible_archive ]}.

Definition after_directory_a : list (string * dlc_data) :=
  _scan_single_directory_for_dlc two_directories ["A"]%string
    initial_dlc_info "Fallout 4 DLC".

Definition automatron_in_a : dlc_data :=
  mk_dlc_data "DLCRobot.esm" ["DLCRobot"]%string (Some "Fallout 4 DLC"%string)
    (Some ["A"; "DLCRobot.esm"]%string)
    [["A"; "DLCRobot - Main.ba2"]%string] (Some true).

End ResolverSpec.

(** ** Vocabulary of the statements about the copier *)

(** The file [name] with content [data] lies in the tree under the
    directories [dirs]. *)
Fixpoint tree_has (t : tree) (dirs : list string) (name : string) (data : bytes)
  : Prop :=
  match dirs with
  | [] => In (name, data) (tree_files t)
  | d :: dirs' => exists sub, In (d, sub) (tree_dirs t) /\ tree_has sub dirs' name data
  end.

(** No directory of the tree lists a name twice. *)
Fixpoint tree_wf (t : tree) : bool :=
  match t with
  | Tree files dirs =>
      bool_decide (NoDup (map fst files)) &&
      bool_decide (NoDup (map fst dirs)) &&
      forallb (fun '(_, sub) => tree_wf sub) dirs
  end.

Module CopierSpec.
Import Copier.

(** [total_size]: the sum of the sizes in the manifest. *)
Definition total_size (manifest : list file_info) : Z :=
  foldr (fun info acc => size info + acc) 0 manifest.

(** The sources whose copy was started, in the order of the trace. *)
Definition copy_starts (evs : list event) : list path :=
  omap (fun ev => match ev with CopyStarted p => Some p | _ => None end) evs.

Section outcome.
Variables (src_tree : tree) (src_dir : path) (environment : env).

(** The exception that ends the task of a manifest entry, if any: the
    cancellation signal, the fault the environment injects, or the error of
    opening a source that is not there. *)
Definition outcome (info : file_info) : option exn :=
  if cancel_requested environment (src_file info) then
    Some (InterruptedError "Installation cancelled by user")
  else
    match fault_of environment (src_file info) with
    | FailMakedirs e | FailOpen e => Some e
    | f =>
        match open_src src_tree src_dir (src_file info) with
        | Raise e => Some e
        | Ret _ => fault_exn f
        end
    end.

(** The task gets as far as starting the copy. *)
Definition started (info : file_info) : bool :=
  negb (cancel_requested environment (src_file info)) &&
  match fault_of environment (src_file info) with
  | FailMakedirs _ => false
  | _ => true
  end.

(** The content the task gets to copy: none when it ends before the
    source is open. *)
Definition opened (info : file_info) : option bytes :=
  if cancel_requested environment (src_file info) then None
  else
    match fault_of environment (src_file info) with
    | FailMakedirs _ | FailOpen _ => None
    | _ =>
        match open_src src_tree src_dir (src_file info) with
        | Raise _ => None
        | Ret data => Some data
        end
    end.

(** The chunks the task hands to [fdest.write] before it ends. *)
Definition handed (info : file_info) : option bytes :=
  (fun data => (copy_chunks (S (length data)) (fault_of environment (src_file info))
                            0 data [] 0).1.2) <$> opened info.

(** What the task leaves at its destination: nothing when it does not get
    to open the destination, else the bytes that reached the file. *)
Definition written (info : file_info) : option bytes :=
  (fun data => on_disk (fault_of environment (src_file info)) data
                 (copy_chunks (S (length data)) (fault_of environment (src_file info))
                              0 data [] 0).1.2) <$> opened info.

(** The bytes the task adds to the shared counter. *)
Definition counted (info : file_info) : Z :=
  Z.of_nat (length (default [] (handed info))).

(** The events the task adds to the trace. *)
Definition trace (info : file_info) (st : state) : list event :=
  if started info then
    match dest st !! dest_file info with
    | Some _ => [ReadonlyCleared (dest_file info)]
    | None => []
    end ++ [CopyStarted (src_file info)]
  else [].

(** The state after the task of [info] has run and been collected. *)
Definition after_task (info : file_info) (st : state) : state :=
  mk_state
    (match written info with
     | Some w => <[dest_file info := w]> (dest st)
     | None => dest st
     end)
    (copied_counter st + counted info)
    (failed_files st ++
     match outcome info with
     | Some e => [(src_file info, str_exn e)]
     | None => []
     end)
    (events st ++ trace info st).

(** The state after the tasks of [l] have run, in this order. *)
Definition run_tasks (l : list file_info) (st : state) : state :=
  foldl (fun st info => after_task info st) st l.

(** The task of this entry fails. *)
Definition fails (info : file_info) : Prop := is_Some (outcome info).

(** The record a failing task leaves in [failed_files]. *)
Definition failure_record (info : file_info) : option (path * string) :=
  (fun e => (src_file info, str_exn e)) <$> outcome info.

(** Number of [CopyStarted] events for a source file: how often its copy
    was attempted. *)
Definition attempts (st : state) (src : path) : nat :=
  length (List.filter (fun ev => match ev with
                                 | CopyStarted p => bool_decide (p = src)
                                 | _ => false
                                 end) (events st)).

End outcome.

(** Exclusion as the specification words it: the file's name is in the
    excluded-file set, or the name of one of its ancestor directories is in
    the excluded-directory set, case-insensitively. *)
Definition excluded_by_name (exclude_dirs exclude_files : list string)
    (dirs : list string) (name : string) : bool :=
  in_list (lower name) (map lower exclude_files) ||
  existsb (fun d => in_list (lower d) (map lower exclude_dirs)) dirs.

(** The strings consist of ASCII characters, on which [lower] is
    [str.lower]. *)
Definition is_ascii (s : string) : bool :=
  forallb (fun c => (Ascii.N_of_ascii c <? 128)%N) (list_ascii_of_string s).

Definition ascii_names (l : list string) : bool := forallb is_ascii l.

(** One retry: the copy of [src] was attempted a second time, and not a
    third. *)
Definition retried_once (st : state) (src : path) : Prop :=
  length (List.filter (fun p => bool_decide (p = src)) (copy_starts (events st)))
  = 2%nat.

(** The manifest of a copy operation. *)
Definition manifest_of (environment : env) (src_tree : tree) (src_dir dest_dir : path)
    (exclude_dirs exclude_files : option (list string)) : list file_info :=
  scan_tree src_dir dest_dir
    (map lower (default default_exclude_dirs exclude_dirs))
    (map lower (default [] exclude_files)) (getsize_fails environment)
    src_dir src_tree.

(** Ten one-byte files in one directory. *)
Definition ten_files : tree :=
  Tree [("f0", [x00]); ("f1", [x01]); ("f2", [x02]); ("f3", [x03]); ("f4", [x04]);
        ("f5", [x05]); ("f6", [x06]); ("f7", [x07]); ("f8", [x08]); ("f9", [x09])]%string
       [].

Definition no_faults : path -> fault := fun _ => NoFault.

(** Every size can be read. *)
Definition sizes_readable : path -> bool := fun _ => false.

(** The cancellation flag is set when the task of [f9] starts. *)
Definition cancel_at_f9 : env :=
  mk_env (fun p => bool_decide (path_name p = "f9"%string)) no_faults sizes_readable.


(** Opening the destination of [f9] is refused. *)
Definition permission_error_at_f9 : env :=
  mk_env (fun _ => false)
         (fun p => if bool_decide (path_name p = "f9"%string)
                   then FailOpen (PermissionError "Permission denied")
                   else NoFault)
         sizes_readable.

(** A file under a directory whose name contains an excluded name without
    being one. *)
Definition with_resources : tree :=
  Tree [("a.txt", [x01; x02])]%string
       [("Resources"%string, Tree [("r.bin", [x04; x05; x06])]%string [])].

Definition quiet : env := mk_env (fun _ => false) no_faults sizes_readable.

(** The size of [f9] cannot be read when the manifest is built. *)
Definition size_unreadable_at_f9 : env :=
  mk_env (fun _ => false) no_faults
         (fun p => bool_decide (path_name p = "f9"%string)).

(** The manifest of [ten_files] and the state a copy starts from. *)
Definition ten_manifest : list file_info :=
  manifest_of quiet ten_files ["src"]%string ["dst"]%string None None.

Definition initial_state : state := mk_state ∅ 0 [] [].

(** The second [shutil.copy2] of the sequential copier succeeds. *)
Definition retry_succeeds : path -> fault := no_faults.

End CopierSpec.

(** ** Further functions of the installer *)

Module DowngraderMore.
Import FalloutVRDowngrader.

(** [find_ba2_needing_downgrade(data_dir)] *)
Definition find_ba2_needing_downgrade (s : fs) (data_dir : path) : list path :=
  List.filter (fun ba2_file => BA2.header_is_next_gen (BA2.from_file s ba2_file))
              (glob_ba2 s data_dir).

(** The file system differs from [s] at most on the paths of [l]. *)
Definition unchanged_outside (l : list path) (s s' : fs) : Prop :=
  forall q, ~ In q l -> s' !! q = s !! q.

(** The header [h] with the compatible version code in its version
    field. *)
Definition downgraded (h : BA2Header) : BA2Header :=
  mkBA2Header (magic h) ArchiveVersionEnum.FALLOUT_4 (format h) (file_count h).

(** The name of [q] starts with a prefix of one of the catalogued
    groups. *)
Definition in_catalogue (q : path) : bool :=
  existsb (fun g : string * list string => belongs_to g.2 q) dlc_groups.

(** A version code [downgrade_ba2_file] accepts. *)
Definition known_version (v : Z) : Prop :=
  v = ArchiveVersionEnum.FALLOUT_4 \/ is_next_gen_version v = true.

Section refusals.
Context {E : os_faults}.

(** The operating system lets the file be opened for update. *)
Definition can_update (q : path) : bool :=
  match open_rw_fault q with
  | None => true
  | Some _ => false
  end.

(** What a sequence of calls of [downgrade_ba2_file] on the paths [l] does
    to the file system: a path keeps its content unless it is a path of
    [l] that can be opened for update; such a path, when it holds an
    archive of a known version, reads back with the compatible version;
    and any archive of a known version reads back as it was, or with the
    compatible version if it can be opened for update. *)
Definition downgrades (l : list path) (s s' : fs) : Prop :=
  unchanged_outside (List.filter can_update l) s s' /\
  forall q h, BA2.from_file s q = Ret (Some h) -> known_version (version h) ->
    (In q l -> can_update q = true ->
     BA2.from_file s' q = Ret (Some (downgraded h))) /\
    (BA2.from_file s' q = Ret (Some h) \/
     (can_update q = true /\ BA2.from_file s' q = Ret (Some (downgraded h)))).

(** The per-group map [downgrade_dlc_ba2_files] returns for a work list:
    of each group the files that could be opened for update, groups
    without such a file left out. *)
Definition updated_groups (groups : list (string * list path))
  : list (string * list path) :=
  omap (fun '(dlc_name, files) =>
          match List.filter can_update files with
          | [] => None
          | downgraded_files => Some (dlc_name, downgraded_files)
          end) groups.

End refusals.

End DowngraderMore.

Module PatcherMore.

(** [check_fallout4_esm_size(f4_path)], on the list of directories it
    tries in turn; the result is the pair [(needs_patching, size)]. *)
Fixpoint check_paths (s : fs) (check_paths_left : list path) : res (option bool * Z) :=
  match check_paths_left with
  | [] => Ret (None, 0)
  | check_path :: rest =>
      let esm_path := path_join check_path "Fallout4.esm" in
      if path_exists s esm_path then
        res_bind (getsize s esm_path) (fun esm_size =>
          if bool_decide (esm_size = 330777465) || bool_decide (esm_size = 330553163)
          then Ret (Some true, esm_size)
          else Ret (Some false, esm_size))
      else check_paths s rest
  end.

Definition check_fallout4_esm_size (s : fs) (f4_path : path) : res (option bool * Z) :=
  check_paths s [f4_path; path_join f4_path "Data"].

(** A tool that exits with status zero and leaves an output of
    300,000,001 bytes. *)
Definition succeeding_tool : ESMPatcher.tool_run :=
  ESMPatcher.mk_run (ESMPatcher.Completed 0)
                    (Some (repeat Byte.x00 (Z.to_nat 300000001))).

End PatcherMore.

Module ResolverMore.
Import DlcResolver.

(** The directories [detect_dlc_in_both_games] hands to
    [_scan_single_directory_for_dlc], in the order of the calls, each with
    the source name it is scanned under. *)
Definition scanned_directories (s : fs) (f4_path : path)
    (f4vr_path london_data_path : option path) : list (path * string) :=
  (if path_exists s f4_path then
     (f4_path, "Fallout 4 DLC"%string) ::
     (if path_exists s (path_join f4_path "Data")
      then [(path_join f4_path "Data", "Fallout 4 DLC"%string)] else [])
   else []) ++
  (match f4vr_path with
   | Some vr =>
       if path_exists s (path_join vr "Data")
       then [(path_join vr "Data", "Fallout 4 VR"%string)] else []
   | None => []
   end) ++
  (match london_data_path with
   | Some london =>
       if path_exists s london then
         (london, "Fallout London"%string) ::
         (if path_exists s (path_join london "Data")
          then [(path_join london "Data", "Fallout London"%string)] else [])
       else []
   | None => []
   end).

(** A sequence of calls of [_scan_single_directory_for_dlc] on one
    dictionary. *)
Definition scan_directories (s : fs) (dirs : list (path * string))
    (dlc_info : list (string * dlc_data)) : list (string * dlc_data) :=
  foldl (fun info '(directory, source_name) =>
           _scan_single_directory_for_dlc s directory info source_name)
        dlc_info dirs.

(** What the directories of a sequence offer for a group, in scan order:
    source name, metadata file, archives and next-gen flag. *)
Definition offer : Type := string * (path * (list path * bool)).

Definition offers (s : fs) (d : dlc_data) (dirs : list (path * string)) : list offer :=
  omap (fun '(directory, source_name) =>
          match directory_candidate s directory d with
          | Some c => Some (source_name, c)
          | None => None
          end) dirs.

Definition compatible (o : offer) : bool := negb o.2.2.2.

(** The first compatible offer, or else the first offer. *)
Definition best (l : list offer) : option offer :=
  match List.find compatible l with
  | Some o => Some o
  | None => head l
  end.

(** The entry of a group resolved to an offer. *)
Definition resolve (d : dlc_data) (o : option offer) : dlc_data :=
  match o with
  | Some (source_name, (esm_path, (ba2_paths, is_ng))) =>
      mk_dlc_data (esm d) (ba2_prefixes d) (Some source_name) (Some esm_path)
                  ba2_paths (Some is_ng)
  | None => d
  end.

End ResolverMore.

Module CopierMore.
Import Copier CopierSpec.

(** The disk fills up before the first chunk of [f9] is written. *)
Definition disk_full_at_f9 : env :=
  mk_env (fun _ => false)
         (fun p => if bool_decide (path_name p = "f9"%string)
                   then FailAtChunk 0 (OSError "No space left on device") 0
                   else NoFault)
         sizes_readable.

(** *** [copy_directory_parallel_with_exclusions] *)

Section scan_set.
Variables (src_dir dest_dir : path).
Variables (exclude_dirs_lower exclude_files_set : list string).
Variable getsize_fails : path -> bool.

(** The loop over the files of one directory: [file in exclude_files_set]
    compares the name as it is. *)
Definition scan_files_set (root : path) (files : list (string * bytes))
  : list file_info :=
  flat_map (fun '(file, data) =>
              if in_list file exclude_files_set then []
              else
                let src_file := path_join root file in
                if getsize_fails src_file then []
                else [mk_info src_file (dest_of src_dir dest_dir src_file)
                              (Z.of_nat (length data))])
           files.

(** The walk, as in [copy_directory_parallel]. *)
Fixpoint scan_tree_set (root : path) (t : tree) {struct t} : list file_info :=
  match t with
  | Tree files dirs =>
      (if in_excluded_directory exclude_dirs_lower root then []
       else scan_files_set root files)
      ++ flat_map (fun '(d, sub) =>
                     if in_list (lower d) exclude_dirs_lower then []
                     else scan_tree_set (path_join root d) sub)
                  dirs
  end.

End scan_set.

Section copy_exclusions.
Variables (src_tree : tree) (src_dir : path) (environment : env).

(** One turn of the [as_completed] loop.  The worker
    [copy_single_file_safe_exclusions] is [copy_single_file_safe] word for
    word; the loop appends [(file_path, error)] when the worker reports
    failure ([error] is a string whenever [success] is [False]). *)
Definition collect_exclusions (acc : Z * state) (info : file_info) : Z * state :=
  let '(files_copied, st) := acc in
  match copy_single_file_safe src_tree src_dir environment info st with
  | (Ret (success, file_path, error), st') =>
      if success : bool then (files_copied + 1, st')
      else (files_copied,
            mk_state (dest st') (copied_counter st')
                     (failed_files st' ++ [(file_path, default ""%string error)])
                     (events st'))
  | (Raise e, st') =>
      (files_copied,
       mk_state (dest st') (copied_counter st')
                (failed_files st' ++ [(src_file info, str_exn e)]) (events st'))
  end.

(** [copy_directory_parallel_with_exclusions] *)
Definition copy_directory_parallel_with_exclusions
    (completion : list file_info -> list file_info)
    (dest_dir : path) (exclude_dirs exclude_files : option (list string))
    (dest0 : gmap path bytes) : res bool * state :=
  let exclude_dirs := default default_exclude_dirs exclude_dirs in
  let exclude_files := default [] exclude_files in
  let exclude_dirs_lower := map lower exclude_dirs in
  let exclude_files_set := exclude_files in
  let files_to_copy :=
    scan_tree_set src_dir dest_dir exclude_dirs_lower exclude_files_set
                  (getsize_fails environment) src_dir src_tree in
  let st0 := mk_state dest0 0 [] [] in
  match files_to_copy with
  | [] => (Ret true, st0)
  | _ =>
      let files_to_copy := sort_by_size files_to_copy in
      let '(files_copied, st) :=
        foldl collect_exclusions (0, st0) (completion files_to_copy) in
      if too_many_failures (length (failed_files st)) (length files_to_copy)
      then (Raise (Exception "Too many copy failures"), st)
      else (Ret true, st)
  end.

(** The task of the entry finds the cancellation flag set. *)
Definition cancelled (info : file_info) : bool :=
  cancel_requested environment (src_file info).

(** The task of the entry fails inside its [try] block. *)
Definition fails_in_task (info : file_info) : bool :=
  negb (cancelled info) &&
  match outcome src_tree src_dir environment info with
  | Some _ => true
  | None => false
  end.

(** What the run files in [failed_files] for an entry: the worker's
    record and the record the collecting loop adds for a reported failure,
    or the single record of an exception that escaped the worker. *)
Definition records_of (info : file_info) : list (path * string) :=
  if cancelled info then
    [(src_file info, "Installation cancelled by user"%string)]
  else
    match outcome src_tree src_dir environment info with
    | Some e => [(src_file info, str_exn e); (src_file info, str_exn e)]
    | None => []
    end.

(** *** The sequential copier *)

(** The exception a [shutil.copy2] of an entry raises under a fault, if
    any. *)
Definition copy2_failure (f : fault) (info : file_info) : option exn :=
  match f with
  | FailOpen e => Some e
  | _ =>
      match open_src src_tree src_dir (src_file info) with
      | Raise e => Some e
      | Ret _ =>
          match f with
          | FailAtChunk _ e _ | FailCopystat e => Some e
          | _ => None
          end
      end
  end.

(** The exception of the progress update after a copy that succeeded. *)
Definition division (total_size : Z) : option exn :=
  if bool_decide (total_size = 0) then Some ZeroDivisionError else None.

(** The exception with which the loop of [copy_directory_with_progress]
    ends at an entry, if it ends there. *)
Definition stops_with (retry_fault : path -> fault) (total_size : Z)
    (info : file_info) : option exn :=
  if cancel_requested environment (src_file info) then
    Some (InterruptedError "Installation cancelled by user")
  else
    match fault_of environment (src_file info) with
    | FailMakedirs e => Some e
    | f =>
        match copy2_failure f info with
        | None => division total_size
        | Some e =>
            if is_PermissionError e then
              match copy2_failure (retry_fault (src_file info)) info with
              | None => division total_size
              | Some _ => None
              end
            else Some e
        end
    end.

End copy_exclusions.

End CopierMore.

Module DlcCopy.
Import DlcResolver.

Section copy_dlc.
Context {E : os_faults}.

(** Truth value of [dlc_data["found_in"]]. *)
Definition found (d : dlc_data) : bool :=
  match found_in d with
  | Some source_name => negb (String.eqb source_name "")
  | None => false
  end.

(** [files_to_copy] of one group: the metadata file, then the archives. *)
Definition files_of (d : dlc_data) : list path :=
  match esm_path d with
  | Some p => [p]
  | None => []
  end ++ ba2_paths d.

(** [try: shutil.copy2(str(file_path), os.path.join(dest_dir, file_path.name))
     except Exception: logging.error(...)] *)
Definition copy_file (dest_dir file_path : path) : M unit :=
  mtry (copy2 file_path (path_join dest_dir (path_name file_path)))
       (fun _ => mret tt).

(** [copy_best_dlc_files(dlc_info, dest_dir)] *)
Definition copy_best_dlc_files (dlc_info : list (string * dlc_data))
    (dest_dir : path) : M unit :=
  mfor dlc_info tt
       (fun _ '(dlc_name, d) =>
          if found d then
            mfor (files_of d) tt (fun _ file_path => copy_file dest_dir file_path)
          else mret tt).

(** What a call of [copy_file] on a regular file with content [data]
    leaves at its destination: the copy, what was there before when the
    copy is refused outright, or the part of the copy that was written
    before it was refused. *)
Definition left_at_dest (s : fs) (dest_dir file_path : path) (data : bytes)
  : option node :=
  let dest_file := path_join dest_dir (path_name file_path) in
  match copy_fault file_path dest_file with
  | CopyDone => Some (File data)
  | CopyFails _ None => s !! dest_file
  | CopyFails _ (Some n) => Some (File (take n data))
  end.

End copy_dlc.

(** All files a call of [copy_best_dlc_files] tries to copy, in order. *)
Definition all_files (dlc_info : list (string * dlc_data)) : list path :=
  concat (map (fun e : string * dlc_data =>
                 if found e.2 then files_of e.2 else []) dlc_info).

(** The two kinds of file a resolved group lists: the metadata file of the
    catalogue entry [d0], and an archive filed under one of its
    prefixes. *)
Definition esm_of (d0 : dlc_data) (p : path) : Prop :=
  path_name p = esm d0 /\ endswith (lower (path_name p)) ".esm" = true.

Definition archive_of (d0 : dlc_data) (p : path) : Prop :=
  endswith (lower (path_name p)) ".esm" = false /\
  endswith (lower (path_name p)) ".ba2" = true /\
  In (ba2_prefix (path_name p)) (ba2_prefixes d0).

(** The two directories of the resolver example and an empty destination
    directory. *)
Definition two_directories_and_dest : fs :=
  <[ ["dst"]%string := Directory ]> ResolverSpec.two_directories.

End DlcCopy.

(** * Properties *)

(** ** [struct]: packing and unpacking a little-endian uint32 *)

Lemma byte_val_range (b : byte) : 0 <= byte_val b < 256.
Proof.
  unfold byte_val. pose proof (Byte.to_N_bounded b). lia.
Qed.

Lemma byte_val_of_Z (z : Z) : 0 <= z < 256 -> byte_val (byte_of_Z z) = z.
Proof.
  intros Hz. unfold byte_val, byte_of_Z.
  destruct (Byte.of_N (Z.to_N z)) as [b|] eqn:Hb.
  - apply Byte.to_of_N in Hb. simpl. rewrite Hb. lia.
  - apply Byte.of_N_None_iff in Hb. lia.
Qed.

Lemma land_255_range (z : Z) : 0 <= Z.land z 255 < 256.
Proof.
  change 255 with (Z.ones 8). rewrite Z.land_ones by lia.
  apply Z.mod_pos_bound. lia.
Qed.

Lemma testbit_land_255 (z n : Z) :
  0 <= n -> Z.testbit (Z.land z 255) n = Z.testbit z n && bool_decide (n < 8).
Proof.
  intros Hn. change 255 with (Z.ones 8). rewrite Z.land_spec.
  f_equal. case_bool_decide.
  - apply Z.ones_spec_low. lia.
  - apply Z.ones_spec_high. lia.
Qed.

Lemma unpack_pack_bits (v : Z) :
  0 <= v < 2 ^ 32 ->
  Z.lor (Z.land v 255)
    (Z.lor (Z.shiftl (Z.land (Z.shiftr v 8) 255) 8)
    (Z.lor (Z.shiftl (Z.land (Z.shiftr v 16) 255) 16)
           (Z.shiftl (Z.land (Z.shiftr v 24) 255) 24))) = v.
Proof.
  intros Hv. apply Z.bits_inj'. intros n Hn.
  rewrite !Z.lor_spec.
  rewrite testbit_land_255 by lia.
  destruct (decide (n < 8)) as [H8|H8].
  { rewrite !Z.shiftl_spec_low by lia.
    rewrite bool_decide_eq_true_2 by lia.
    rewrite andb_true_r, !orb_false_r. done. }
  rewrite (bool_decide_eq_false_2 (n < 8)) by lia. rewrite andb_false_r. simpl.
  rewrite (Z.shiftl_spec _ 8) by lia. rewrite testbit_land_255 by lia.
  rewrite Z.shiftr_spec by lia. replace (n - 8 + 8) with n by lia.
  destruct (decide (n < 16)) as [H16|H16].
  { rewrite !Z.shiftl_spec_low by lia.
    rewrite bool_decide_eq_true_2 by lia.
    rewrite andb_true_r, !orb_false_r. done. }
  rewrite (bool_decide_eq_false_2 (n - 8 < 8)) by lia. rewrite andb_false_r. simpl.
  rewrite (Z.shiftl_spec _ 16) by lia. rewrite testbit_land_255 by lia.
  rewrite Z.shiftr_spec by lia. replace (n - 16 + 16) with n by lia.
  destruct (decide (n < 24)) as [H24|H24].
  { rewrite !Z.shiftl_spec_low by lia.
    rewrite bool_decide_eq_true_2 by lia.
    rewrite andb_true_r, !orb_false_r. done. }
  rewrite (bool_decide_eq_false_2 (n - 16 < 8)) by lia. rewrite andb_false_r. simpl.
  rewrite (Z.shiftl_spec _ 24) by lia. rewrite testbit_land_255 by lia.
  rewrite Z.shiftr_spec by lia. replace (n - 24 + 24) with n by lia.
  destruct (decide (n < 32)) as [H32|H32].
  { rewrite bool_decide_eq_true_2 by lia. by rewrite andb_true_r. }
  rewrite (bool_decide_eq_false_2 (n - 24 < 8)) by lia. rewrite andb_false_r.
  symmetry. destruct (decide (v = 0)) as [->|Hv0]; [apply Z.bits_0|].
  apply Z.bits_above_log2; [lia|].
  assert (Z.log2 v < 32) by (apply Z.log2_lt_pow2; lia). lia.
Qed.

Lemma unpack_pack_I (v : Z) (b : bytes) :
  struct.pack_I v = Ret b -> struct.unpack_I b = Ret v /\ length b = 4%nat.
Proof.
  unfold struct.pack_I. case_bool_decide as Hv; [|done].
  intros [= <-]. split; [|done]. unfold struct.unpack_I.
  rewrite !byte_val_of_Z by apply land_255_range.
  by rewrite unpack_pack_bits.
Qed.

Lemma pack_I_in_range (v : Z) :
  0 <= v < 2 ^ 32 -> exists b, struct.pack_I v = Ret b.
Proof.
  intros Hv. unfold struct.pack_I. rewrite bool_decide_eq_true_2 by done. eauto.
Qed.

(** ** The header reader *)

Lemma unpack_I_length_4 (b : bytes) :
  length b = 4%nat -> exists v, struct.unpack_I b = Ret v.
Proof.
  destruct b as [|b0 [|b1 [|b2 [|b3 [|b4 b]]]]]; try done.
  intros _. simpl. eauto.
Qed.

Lemma slice_length (d : bytes) (i j : nat) :
  (j <= length d)%nat -> (i <= j)%nat -> length (slice d i j) = (j - i)%nat.
Proof.
  intros Hj Hi. unfold slice. rewrite length_take, length_drop. lia.
Qed.

(** What [parse] computes on a content of at least sixteen bytes. *)
Lemma parse_long (d : bytes) :
  (16 <= length d)%nat ->
  exists version file_count,
    struct.unpack_I (slice d 4 8) = Ret version /\
    struct.unpack_I (slice d 12 16) = Ret file_count /\
    BA2.parse d =
      if bool_decide (take 4 d <> BTDX) then Ret None
      else Ret (Some (mkBA2Header (take 4 d) version (slice d 8 12) file_count)).
Proof.
  intros Hlen.
  destruct (unpack_I_length_4 (slice d 4 8)) as [v Hv].
  { rewrite slice_length; lia. }
  destruct (unpack_I_length_4 (slice d 12 16)) as [c Hc].
  { rewrite slice_length; lia. }
  exists v, c. split; [done|]. split; [done|].
  unfold BA2.parse, read_n.
  rewrite bool_decide_eq_false_2 by (rewrite length_take; lia).
  assert (Hs : forall i j, (i <= j <= 16)%nat -> slice (take 16 d) i j = slice d i j).
  { intros i j Hj. unfold slice. rewrite !take_drop_commute, take_take.
    do 2 f_equal. lia. }
  rewrite !Hs by lia. rewrite Hv, Hc. simpl.
  replace (slice d 0 4) with (take 4 d) by done. done.
Qed.

Lemma parse_short (d : bytes) :
  (length d < 16)%nat -> BA2.parse d = Ret None.
Proof.
  intros Hlen. unfold BA2.parse, read_n.
  rewrite bool_decide_eq_true_2; [done|]. rewrite length_take. lia.
Qed.

(** [from_file] returns a value on every file system and every path: no
    exception reaches the caller. *)
Lemma from_file_never_raises (s : fs) (p : path) :
  exists r, BA2.from_file s p = Ret r.
Proof.
  unfold BA2.from_file, try_except.
  destruct (res_bind (open_rb s p) BA2.parse); eauto.
Qed.

Lemma from_file_on_file (s : fs) (p : path) (d : bytes) :
  s !! p = Some (File d) ->
  BA2.from_file s p = try_except (BA2.parse d) (fun _ => Ret None).
Proof.
  intros Hp. unfold BA2.from_file, open_rb. by rewrite Hp.
Qed.

(** A header is returned exactly for files of at least sixteen bytes that
    start with the magic tag. *)
Lemma from_file_Some (s : fs) (p : path) (h : BA2Header) :
  BA2.from_file s p = Ret (Some h) ->
  exists d version file_count,
    s !! p = Some (File d) /\ (16 <= length d)%nat /\ take 4 d = BTDX /\
    struct.unpack_I (slice d 4 8) = Ret version /\
    struct.unpack_I (slice d 12 16) = Ret file_count /\
    h = mkBA2Header (take 4 d) version (slice d 8 12) file_count.
Proof.
  unfold BA2.from_file, open_rb.
  destruct (s !! p) as [[d|]|] eqn:Hp; simpl; try done.
  destruct (decide (length d < 16)%nat) as [Hlt|Hge].
  { by rewrite parse_short. }
  destruct (parse_long d) as (v & c & Hv & Hc & ->); [lia|].
  case_bool_decide as Hm; simpl; [done|].
  intros [= <-]. exists d, v, c.
  assert (take 4 d = BTDX) by (by destruct (decide (take 4 d = BTDX))).
  repeat split; try done; lia.
Qed.

(** C9 — [BA2Header.from_file] on a file whose first four bytes are not the
    magic tag [b'BTDX'], or whose content is shorter than sixteen bytes,
    returns [None]; it returns normally (no exception reaches the caller). *)
Theorem from_file_rejects_invalid (s : fs) (p : path) (d : bytes) :
  s !! p = Some (File d) ->
  take 4 d <> BTDX \/ (length d < 16)%nat ->
  BA2.from_file s p = Ret None.
Proof.
  intros Hp Hbad. rewrite (from_file_on_file _ _ _ Hp).
  destruct (decide (length d < 16)%nat) as [Hlt|Hge].
  { by rewrite parse_short. }
  destruct Hbad as [Hm|?]; [|lia].
  destruct (parse_long d) as (v & c & _ & _ & ->); [lia|].
  by rewrite bool_decide_eq_true_2.
Qed.

Lemma from_file_rejects_invalid_witness :
  BA2.from_file {[ ["Data"; "a.ba2"]%string := File [x42; x54; x44] ]}
                (["Data"; "a.ba2"]%string) = Ret None.
Proof.
  apply (from_file_rejects_invalid _ _ [x42; x54; x44]).
  - reflexivity.
  - right. simpl. lia.
Defined.

(** A path that cannot be opened also yields [None]. *)
Lemma from_file_unreadable (s : fs) (p : path) :
  is_file s p = false -> BA2.from_file s p = Ret None.
Proof.
  unfold is_file, BA2.from_file, open_rb.
  by destruct (s !! p) as [[d|]|].
Qed.

(** ** Rewriting the version field *)

Lemma slice_lookup (d : bytes) (i j k : nat) :
  slice d i j !! k = if decide (k < j - i)%nat then d !! (i + k)%nat else None.
Proof.
  unfold slice. rewrite lookup_take. case_decide; [|done]. apply lookup_drop.
Qed.

Lemma slice_ext (d d' : bytes) (i j : nat) :
  (forall k, (i <= k < j)%nat -> d' !! k = d !! k) -> slice d' i j = slice d i j.
Proof.
  intros H. apply list_eq. intros k. rewrite !slice_lookup.
  case_decide; [|done]. apply H. lia.
Qed.

Section seek_write.
Variables (d b : bytes) (off : nat).
Hypothesis Hfit : (off + length b <= length d)%nat.

Lemma seek_write_inside : seek_write d off b = take off d ++ b ++ drop (off + length b) d.
Proof.
  unfold seek_write. replace (off - length d)%nat with 0%nat by lia. done.
Qed.

Lemma seek_write_length : length (seek_write d off b) = length d.
Proof.
  rewrite seek_write_inside, !length_app, length_take, length_drop. lia.
Qed.

Lemma seek_write_lookup_outside (i : nat) :
  (i < off \/ off + length b <= i)%nat -> seek_write d off b !! i = d !! i.
Proof.
  intros Hi. rewrite seek_write_inside.
  assert (Hto : length (take off d) = off) by (rewrite length_take; lia).
  destruct Hi as [Hi|Hi].
  - rewrite lookup_app_l by lia. by apply lookup_take_lt.
  - rewrite lookup_app_r by lia. rewrite lookup_app_r by lia.
    rewrite lookup_drop. f_equal. lia.
Qed.

Lemma seek_write_slice_written :
  slice (seek_write d off b) off (off + length b) = b.
Proof.
  rewrite seek_write_inside. unfold slice.
  assert (Hto : length (take off d) = off) by (rewrite length_take; lia).
  rewrite drop_app_length' by done.
  replace (off + length b - off)%nat with (length b) by lia.
  apply take_app_length.
Qed.

End seek_write.

(** The effect of the version write on an existing file that can be
    opened for update. *)
Lemma write_version_code_file {E : os_faults} (s : fs) (p : path) (d : bytes)
    (code : Z) :
  s !! p = Some (File d) ->
  open_rw_fault p = None ->
  0 <= code < 2 ^ 32 ->
  exists b, struct.pack_I code = Ret b /\
    FalloutVRDowngrader.write_version_code p code s
    = (Ret tt, <[p := File (seek_write d 4 b)]> s).
Proof.
  intros Hp Hopen Hc. destruct (pack_I_in_range code Hc) as [b Hb].
  exists b. split; [done|].
  unfold FalloutVRDowngrader.write_version_code, mbind, mread, open_rw_seek_write.
  by rewrite Hb, Hp, Hopen.
Qed.

(** A refused open leaves the file system as it is. *)
Lemma write_version_code_refused {E : os_faults} (s : fs) (p : path) (code : Z)
    (e : exn) :
  open_rw_fault p = Some e ->
  exists e', FalloutVRDowngrader.write_version_code p code s = (Raise e', s).
Proof.
  intros Hopen.
  unfold FalloutVRDowngrader.write_version_code, mbind, mread, open_rw_seek_write.
  destruct (struct.pack_I code) as [b|e0]; [|eauto].
  rewrite Hopen. destruct (s !! p) as [[d|]|]; eauto.
Qed.

(** Reading back a header whose version field has been overwritten. *)
Lemma from_file_after_write (s : fs) (p : path) (d b : bytes) (h : BA2Header) (code : Z) :
  s !! p = Some (File d) ->
  BA2.from_file s p = Ret (Some h) ->
  struct.pack_I code = Ret b ->
  BA2.from_file (<[p := File (seek_write d 4 b)]> s) p
  = Ret (Some (mkBA2Header (magic h) code (format h) (file_count h))).
Proof.
  intros Hp Hh Hb.
  destruct (from_file_Some _ _ _ Hh) as (d0 & v & c & Hp0 & Hlen & Hm & Hv & Hc & ->).
  assert (d0 = d) as -> by congruence.
  destruct (unpack_pack_I _ _ Hb) as [Hub Hlb].
  assert (Hfit : (4 + length b <= length d)%nat) by lia.
  pose proof (seek_write_length d b 4 Hfit) as Hl'.
  pose proof (seek_write_lookup_outside d b 4 Hfit) as Ho.
  rewrite (from_file_on_file _ _ (seek_write d 4 b)) by apply lookup_insert_eq.
  destruct (parse_long (seek_write d 4 b)) as (v' & c' & Hv' & Hc' & ->); [lia|].
  assert (Ht : take 4 (seek_write d 4 b) = take 4 d).
  { change (slice (seek_write d 4 b) 0 4 = slice d 0 4).
    apply slice_ext. intros k Hk. apply Ho. lia. }
  assert (Hf : slice (seek_write d 4 b) 8 12 = slice d 8 12).
  { apply slice_ext. intros k Hk. apply Ho. lia. }
  assert (Hn : slice (seek_write d 4 b) 12 16 = slice d 12 16).
  { apply slice_ext. intros k Hk. apply Ho. lia. }
  assert (Hw : slice (seek_write d 4 b) 4 8 = b).
  { pose proof (seek_write_slice_written d b 4 Hfit) as Hsw.
    by rewrite Hlb in Hsw. }
  rewrite Ht, Hf. rewrite Hw in Hv'. rewrite Hn in Hc'.
  rewrite bool_decide_eq_false_2 by (intros Hne; by apply Hne).
  simpl. repeat f_equal; congruence.
Qed.

(** C3 — on a file with a valid header that can be opened for update,
    writing a version code at byte offset 4 and reading the header again
    gives the first header with the version field replaced by the new
    code; the file keeps its length and every byte outside offsets 4..7;
    the downgrade path performs exactly this write with the compatible
    code. *)
Theorem header_round_trip {E : os_faults} (s : fs) (p : path) (d : bytes)
    (h : BA2Header) (code : Z) :
  s !! p = Some (File d) ->
  BA2.from_file s p = Ret (Some h) ->
  open_rw_fault p = None ->
  0 <= code < 2 ^ 32 ->
  exists d',
    FalloutVRDowngrader.write_version_code p code s = (Ret tt, <[p := File d']> s) /\
    BA2.from_file (<[p := File d']> s) p
      = Ret (Some (mkBA2Header (magic h) code (format h) (file_count h))) /\
    length d' = length d /\
    (forall i, (i < 4 \/ 8 <= i)%nat -> d' !! i = d !! i) /\
    (is_next_gen_version (version h) = true ->
     FalloutVRDowngrader.downgrade_ba2_file p s
     = (Ret true,
        (FalloutVRDowngrader.write_version_code p ArchiveVersionEnum.FALLOUT_4 s).2)).
Proof.
  intros Hp Hh Hopen Hc.
  destruct (write_version_code_file s p d code Hp Hopen Hc) as (b & Hb & Hw).
  destruct (unpack_pack_I _ _ Hb) as [_ Hlb].
  destruct (from_file_Some _ _ _ Hh) as (d0 & v & c & Hp0 & Hlen & _).
  assert (d0 = d) as -> by congruence.
  assert (Hfit : (4 + length b <= length d)%nat) by lia.
  exists (seek_write d 4 b). split; [done|]. split.
  { by apply from_file_after_write. }
  split; [by apply seek_write_length|]. split.
  { intros i Hi. apply seek_write_lookup_outside; [done|lia]. }
  intros Hng.
  destruct (write_version_code_file s p d ArchiveVersionEnum.FALLOUT_4 Hp Hopen)
    as (b1 & Hb1 & Hw1); [done|].
  unfold FalloutVRDowngrader.downgrade_ba2_file, mtry, mbind, mread.
  rewrite Hh, Hw1, Hng. simpl.
  rewrite bool_decide_eq_false_2.
  - unfold mbind. by rewrite Hw1.
  - intros H1. rewrite H1 in Hng. by vm_compute in Hng.
Qed.

Lemma header_round_trip_witness :
  exists d',
    FalloutVRDowngrader.write_version_code (E := no_os_faults)
      ["Data"; "DLCRobot - Main.ba2"]%string 1
      {[ ["Data"; "DLCRobot - Main.ba2"]%string := File example_ng_archive ]}
    = (Ret tt, <[ ["Data"; "DLCRobot - Main.ba2"]%string := File d' ]>
                 {[ ["Data"; "DLCRobot - Main.ba2"]%string := File example_ng_archive ]}) /\
    length d' = 16%nat.
Proof.
  destruct (header_round_trip (E := no_os_faults)
              {[ ["Data"; "DLCRobot - Main.ba2"]%string := File example_ng_archive ]}
              ["Data"; "DLCRobot - Main.ba2"]%string example_ng_archive
              (mkBA2Header BTDX 8 [x47; x4e; x52; x4c] 2) 1)
    as (d' & Hw & _ & Hl & _).
  - reflexivity.
  - reflexivity.
  - reflexivity.
  - lia.
  - exists d'. split; [exact Hw|exact Hl].
Defined.

(** ** Construction of the normaliser *)

(** C10 — constructing [FalloutVRDowngrader] on a root path that does not
    exist raises [FileNotFoundError] and yields no normaliser object, so no
    scan or rewrite can be run on it. *)
Theorem init_missing_root_raises (s : fs) (root : path) :
  s !! root = None ->
  (exists msg, FalloutVRDowngrader.init s root = Raise (FileNotFoundError msg)) /\
  (forall self, FalloutVRDowngrader.init s root <> Ret self).
Proof.
  intros Hn. unfold FalloutVRDowngrader.init, path_exists. simpl.
  rewrite bool_decide_eq_false_2; simpl; [eauto|].
  rewrite Hn. by intros [? ?].
Qed.

Lemma init_missing_root_raises_witness :
  (exists msg, FalloutVRDowngrader.init ∅ ["Data"]%string = Raise (FileNotFoundError msg)) /\
  (forall self, FalloutVRDowngrader.init ∅ ["Data"]%string <> Ret self).
Proof.
  apply (init_missing_root_raises ∅ ["Data"]%string). reflexivity.
Defined.

(** Conversely, a constructed normaliser has a root that exists. *)
Lemma init_Ret_root_exists (s : fs) (root : path) (self : FalloutVRDowngrader.t) :
  FalloutVRDowngrader.init s root = Ret self ->
  FalloutVRDowngrader.data_path self = root /\ is_Some (s !! root).
Proof.
  unfold FalloutVRDowngrader.init, path_exists. simpl.
  case_bool_decide as He; simpl; [|done].
  intros [= <-]. done.
Qed.

(** ** Idempotence of the normaliser *)

Module NormaliserFacts.
Import FalloutVRDowngrader NormaliserSpec.

Lemma from_file_ext (s s' : fs) (p : path) :
  s' !! p = s !! p -> BA2.from_file s' p = BA2.from_file s p.
Proof.
  intros H. unfold BA2.from_file, open_rb. by rewrite H.
Qed.

Section faults.
Context {E : os_faults}.

Lemma normalised_nil (s : fs) : normalised [] s s.
Proof.
  split; [done|]. intros q Hq. split; [done|]. left. apply not_elem_of_nil.
Qed.

Lemma normalised_app (l1 l2 : list path) (s s1 s2 : fs) :
  normalised l1 s s1 -> normalised l2 s1 s2 -> normalised (l1 ++ l2) s s2.
Proof.
  intros [Ha1 Hb1] [Ha2 Hb2]. split.
  - intros q. by rewrite Ha2.
  - intros q Hq. destruct (Hb2 q Hq) as [Hq1 Hn2].
    destruct (Hb1 q Hq1) as [Hq0 Hn1]. split; [done|].
    rewrite elem_of_app. tauto.
Qed.

(** On a next-gen archive that cannot be opened for update,
    [downgrade_ba2_file] reports failure and changes nothing. *)
Lemma downgrade_ba2_file_refused (p : path) (s : fs) :
  ng s p = true -> is_Some (open_rw_fault p) ->
  downgrade_ba2_file p s = (Ret false, s).
Proof.
  intros Hng [e He]. unfold ng in Hng.
  unfold downgrade_ba2_file, mtry, mbind, mread.
  destruct (BA2.from_file s p) as [[h|]|e0] eqn:Ho; try done.
  simpl in Hng. rewrite Hng. simpl.
  rewrite bool_decide_eq_false_2.
  2:{ intros H1. rewrite H1 in Hng. by vm_compute in Hng. }
  destruct (write_version_code_refused s p ArchiveVersionEnum.FALLOUT_4 e He)
    as [e' ->].
  done.
Qed.

(** One call of [downgrade_ba2_file] returns and leaves its path
    compatible (or unreadable as an archive) unless the open is refused;
    other paths keep their content. *)
Lemma downgrade_ba2_file_spec (p : path) (s : fs) :
  exists (ok : bool) (s' : fs),
    downgrade_ba2_file p s = (Ret ok, s') /\
    normalised [p] s s' /\
    (ng s p = false -> s' = s).
Proof.
  destruct (ng s p) eqn:Hngp.
  2:{ unfold downgrade_ba2_file, mtry, mbind, mread. unfold ng in Hngp.
      destruct (from_file_never_raises s p) as [o Ho]. rewrite Ho in *.
      assert (Hsame : forall ok : bool,
                 exists (ok0 : bool) (s' : fs),
                   (Ret ok, s) = (Ret ok0, s') /\ normalised [p] s s' /\
                   (false = false -> s' = s)).
      { intros ok. exists ok, s. split; [done|]. split; [|done].
        split; [done|]. intros q Hq. split; [done|]. left.
        rewrite list_elem_of_singleton. intros ->. unfold ng in Hq. congruence. }
      destruct o as [h|]; simpl; [|by apply Hsame].
      case_bool_decide as H1; [by apply Hsame|].
      simpl in Hngp. rewrite Hngp. simpl. by apply Hsame. }
  destruct (open_rw_fault p) as [e|] eqn:Hopen.
  { rewrite downgrade_ba2_file_refused by (done || (rewrite Hopen; eauto)).
    exists false, s. split; [done|]. split; [|done].
    split; [done|]. intros q Hq. split; [done|].
    destruct (decide (q = p)) as [->|Hne].
    - right. rewrite Hopen. eauto.
    - left. by rewrite list_elem_of_singleton. }
  unfold downgrade_ba2_file, mtry, mbind, mread. unfold ng in Hngp.
  destruct (BA2.from_file s p) as [[h|]|e0] eqn:Ho; try done.
  simpl in Hngp. rewrite Hngp. simpl.
  rewrite bool_decide_eq_false_2.
  2:{ intros H1. rewrite H1 in Hngp. by vm_compute in Hngp. }
  destruct (from_file_Some _ _ _ Ho) as (d & v & c & Hp & Hlen & _).
  destruct (write_version_code_file s p d ArchiveVersionEnum.FALLOUT_4 Hp Hopen)
    as (b & Hb & Hw); [done|].
  rewrite Hw. simpl. eexists true, _. split; [done|]. split; [|done].
  split.
  - intros q. destruct (decide (p = q)) as [<-|Hne].
    + rewrite lookup_insert_eq, Hp. split; eauto.
    + by rewrite lookup_insert_ne.
  - intros q. unfold ng. destruct (decide (q = p)) as [->|Hne].
    + rewrite (from_file_after_write s p d b h _ Hp Ho Hb). simpl. done.
    + rewrite (from_file_ext s) by (by rewrite lookup_insert_ne).
      intros Hq. split; [done|]. left. by rewrite list_elem_of_singleton.
Qed.

(** A loop in [M] whose body always returns, returns; a file-system
    relation that composes along [++] is carried through the loop. *)
Lemma mfor_returns {A B : Type} (P : list path -> fs -> fs -> Prop)
    (key : A -> list path) (body : B -> A -> M B) :
  (forall s, P [] s s) ->
  (forall l1 l2 s s1 s2, P l1 s s1 -> P l2 s1 s2 -> P (l1 ++ l2) s s2) ->
  (forall acc x s, exists acc' s', body acc x s = (Ret acc', s') /\ P (key x) s s') ->
  forall l acc s,
    exists acc' s', mfor l acc body s = (Ret acc', s') /\ P (concat (map key l)) s s'.
Proof.
  intros Hnil Happ Hbody. induction l as [|x l IH]; intros acc s; simpl.
  - exists acc, s. split; [done|]. apply Hnil.
  - unfold mbind. destruct (Hbody acc x s) as (acc1 & s1 & -> & HP1).
    destruct (IH acc1 s1) as (acc2 & s2 & -> & HP2).
    exists acc2, s2. split; [done|]. by eapply Happ.
Qed.

Lemma concat_singletons {A : Type} (l : list A) : concat (map (fun x => [x]) l) = l.
Proof. induction l as [|x l IH]; simpl; [done|]. by rewrite IH. Qed.

Lemma downgrade_group_spec (files : list path) (success_count : Z) (s : fs) :
  exists r s', downgrade_group files success_count s = (Ret r, s') /\
               normalised files s s'.
Proof.
  unfold downgrade_group.
  match goal with |- context [mfor _ _ ?b] => set (body := b) end.
  assert (Hbody : forall acc x s0, exists acc' s1,
             body acc x s0 = (Ret acc', s1) /\ normalised [x] s0 s1).
  { intros [sc dfs] x s0. unfold body, mbind, mret.
    destruct (downgrade_ba2_file_spec x s0) as (ok & s1 & -> & Hn & _).
    eauto. }
  destruct (mfor_returns normalised (fun x => [x]) body
              normalised_nil normalised_app Hbody files (success_count, []) s)
    as (r & s' & Hr & Hn).
  rewrite concat_singletons in Hn. eauto.
Qed.

Lemma downgrade_dlc_ba2_files_spec (self : t) (s : fs) :
  exists r s', downgrade_dlc_ba2_files self s = (Ret r, s') /\
               normalised (worklist self s) s s'.
Proof.
  unfold downgrade_dlc_ba2_files, mbind, mget, worklist.
  destruct (get_dlc_needing_downgrade self s) as [|g gs] eqn:Hg.
  { exists (0, []), s. split; [done|]. apply normalised_nil. }
  match goal with |- context [mfor _ _ ?b] => set (body := b) end.
  assert (Hbody : forall acc x s0, exists acc' s1,
             body acc x s0 = (Ret acc', s1) /\ normalised (snd x) s0 s1).
  { intros [sc by_dlc] [name files] s0. unfold body, mbind, mret.
    destruct (downgrade_group_spec files sc s0) as ([sc' dfs] & s1 & -> & Hn).
    simpl. eauto. }
  destruct (mfor_returns normalised snd body
              normalised_nil normalised_app Hbody (g :: gs) (0, []) s)
    as (r & s' & Hr & Hn).
  eauto.
Qed.

(** The scan loop of one group, in closed form. *)
Lemma scan_group_spec (s : fs) (prefixes : list string) (l : list path) :
  scan_group s prefixes l
  = (List.filter (belongs_to prefixes) l,
     existsb (ng s) (List.filter (belongs_to prefixes) l)).
Proof.
  unfold scan_group.
  enough (H : forall acc_f acc_n,
             foldl (fun '(dlc_files, needs_downgrade) ba2_file =>
                      if belongs_to prefixes ba2_file then
                        (dlc_files ++ [ba2_file],
                         needs_downgrade
                         || BA2.header_is_next_gen (BA2.from_file s ba2_file))
                      else (dlc_files, needs_downgrade))
                   (acc_f, acc_n) l
             = (acc_f ++ List.filter (belongs_to prefixes) l,
                acc_n || existsb (ng s) (List.filter (belongs_to prefixes) l))).
  { by rewrite H. }
  induction l as [|x l IH]; intros acc_f acc_n; simpl.
  - by rewrite app_nil_r, orb_false_r.
  - destruct (belongs_to prefixes x); rewrite IH; [|done].
    simpl. by rewrite <- app_assoc, orb_assoc.
Qed.

Lemma glob_ba2_elem (s : fs) (dir q : path) :
  In q (glob_ba2 s dir) <-> is_Some (s !! q) /\ matches_ba2 dir q = true.
Proof.
  unfold glob_ba2. rewrite filter_In, in_map_iff. split.
  - intros [([q' n] & Hq & Hin) Hm]. simpl in Hq. subst q'. split; [|done].
    apply list_elem_of_In, elem_of_map_to_list in Hin. eauto.
  - intros [[n Hn] Hm]. split; [|done]. exists (q, n). split; [done|].
    by apply list_elem_of_In, elem_of_map_to_list.
Qed.

(** The scan is complete: a next-gen archive of a catalogued group is on
    the work list. *)
Lemma worklist_complete (self : t) (s : fs) (name : string)
    (prefixes : list string) (q : path) :
  In (name, prefixes) dlc_groups ->
  In q (glob_ba2 s (data_path self)) ->
  belongs_to prefixes q = true ->
  ng s q = true ->
  In q (worklist self s).
Proof.
  intros Hg Hq Hb Hn. unfold worklist. apply in_concat.
  set (files := List.filter (belongs_to prefixes) (glob_ba2 s (data_path self))).
  assert (Hqf : In q files) by (by apply filter_In).
  set (ngf := List.filter (ng s) files).
  assert (Hqn : In q ngf) by (by apply filter_In).
  exists ngf. split; [|done].
  apply in_map_iff. exists (name, ngf). split; [done|].
  apply list_elem_of_In, list_elem_of_omap.
  exists (name, (files, "Needs Downgrade"%string)). split.
  - apply list_elem_of_omap. exists (name, prefixes).
    split; [by apply list_elem_of_In|].
    rewrite scan_group_spec. fold files.
    replace (existsb (ng s) files) with true
      by (symmetry; apply existsb_exists; eauto).
    destruct files; [done|done].
  - simpl. fold (ng s). fold ngf. destruct ngf; [done|done].
Qed.

Lemma omap_all_None {A B : Type} (f : A -> option B) (l : list A) :
  (forall x, In x l -> f x = None) -> omap f l = [].
Proof.
  induction l as [|x l IH]; intros H; simpl; [done|].
  rewrite (H x) by (by left). apply IH. intros y Hy. apply H. by right.
Qed.

(** When no archive of a catalogued group is next-gen, no group needs a
    downgrade. *)
Lemma nothing_to_downgrade (self : t) (s : fs) :
  (forall name prefixes q,
      In (name, prefixes) dlc_groups ->
      In q (glob_ba2 s (data_path self)) ->
      belongs_to prefixes q = true -> ng s q = false) ->
  get_dlc_needing_downgrade self s = [].
Proof.
  intros H. unfold get_dlc_needing_downgrade. apply omap_all_None.
  intros [name [files status]] Hin.
  apply list_elem_of_In, list_elem_of_omap in Hin.
  destruct Hin as ([name' prefixes] & Hg & HF).
  apply list_elem_of_In in Hg.
  rewrite scan_group_spec in HF.
  set (fl := List.filter (belongs_to prefixes) (glob_ba2 s (data_path self))) in HF.
  assert (Hnd : existsb (ng s) fl = false).
  { destruct (existsb (ng s) fl) eqn:He; [|done].
    apply existsb_exists in He. destruct He as (q & Hq & Hn).
    apply filter_In in Hq. destruct Hq as [Hq Hb].
    rewrite (H name' prefixes q Hg Hq Hb) in Hn. done. }
  rewrite Hnd in HF. destruct fl; [done|]. by injection HF as <- <- <-.
Qed.

(** The groups [get_dlc_needing_downgrade] returns. *)
Lemma get_dlc_needing_downgrade_elem (self : t) (s : fs) (name : string)
    (files : list path) :
  In (name, files) (get_dlc_needing_downgrade self s) ->
  files <> [] /\
  exists prefixes, In (name, prefixes) dlc_groups /\
    files = List.filter (ng s)
              (List.filter (belongs_to prefixes) (glob_ba2 s (data_path self))).
Proof.
  unfold get_dlc_needing_downgrade. intros Hin.
  apply list_elem_of_In, list_elem_of_omap in Hin.
  destruct Hin as ([name' [fl status]] & Hst & Hsome).
  unfold find_dlc_ba2_status in Hst.
  apply list_elem_of_omap in Hst. destruct Hst as ([name0 prefixes] & Hg & Hscan).
  apply list_elem_of_In in Hg. rewrite scan_group_spec in Hscan.
  set (fl0 := List.filter (belongs_to prefixes) (glob_ba2 s (data_path self))) in *.
  destruct fl0 as [|f0 fl0'] eqn:Hfl0; [done|]. injection Hscan as <- <- <-.
  destruct (String.eqb _ _); [|done].
  fold (ng s) in Hsome.
  destruct (List.filter (ng s) (f0 :: fl0')) as [|n ns] eqn:Hf; [done|].
  injection Hsome as <- <-. split; [done|]. exists prefixes. split; [done|].
  rewrite <- Hf, <- Hfl0. done.
Qed.

(** The inner loop over next-gen archives that cannot be opened for
    update: nothing is counted and nothing changes. *)
Lemma downgrade_group_refused (files : list path) (success_count : Z) (s : fs) :
  (forall q, In q files -> ng s q = true /\ is_Some (open_rw_fault q)) ->
  downgrade_group files success_count s = (Ret (success_count, []), s).
Proof.
  unfold downgrade_group. induction files as [|x l IH]; intros Hall; [done|].
  cbn [mfor]. unfold mbind at 1. unfold mbind at 1.
  destruct (Hall x (or_introl eq_refl)) as [Hn Hf].
  rewrite (downgrade_ba2_file_refused x s Hn Hf). unfold mret at 1.
  apply IH. intros q Hq. apply Hall. by right.
Qed.

(** The outer loop over such groups. *)
Lemma downgrade_groups_refused (groups : list (string * list path))
    (acc : Z * list (string * list path)) (s : fs) :
  (forall name files q, In (name, files) groups -> In q files ->
     ng s q = true /\ is_Some (open_rw_fault q)) ->
  mfor groups acc
    (fun '(success_count, downgraded_by_dlc) '(dlc_name, files) =>
       (r <- downgrade_group files success_count ;;
        let '(success_count', downgraded_files) := r in
        mret (success_count',
              match downgraded_files with
              | [] => downgraded_by_dlc
              | _ => downgraded_by_dlc ++ [(dlc_name, downgraded_files)]
              end))%M) s
  = (Ret acc, s).
Proof.
  induction groups as [|[name files] gs IH]; intros Hall; [done|].
  destruct acc as [sc by_dlc].
  cbn [mfor]. unfold mbind at 1. unfold mbind at 1.
  rewrite downgrade_group_refused.
  2:{ intros q Hq. apply (Hall name files q); [by left|done]. }
  unfold mret at 1. apply IH.
  intros name' files' q Hin Hq. apply (Hall name' files' q); [by right|done].
Qed.

(** What the archives on the work list of a second run are: next-gen
    archives that the first run could not open for update. *)
Lemma second_worklist_refused (self : t) (s s1 : fs) (name : string)
    (files : list path) (q : path) :
  normalised (worklist self s) s s1 ->
  In (name, files) (get_dlc_needing_downgrade self s1) -> In q files ->
  ng s1 q = true /\ is_Some (open_rw_fault q).
Proof.
  intros [Hkeys Hng] Hin Hq.
  destruct (get_dlc_needing_downgrade_elem self s1 name files Hin)
    as (_ & prefixes & Hg & ->).
  apply filter_In in Hq as [Hq Hn]. apply filter_In in Hq as [Hq Hb].
  split; [done|].
  destruct (Hng q Hn) as [Hn0 [Hnw|Hf]]; [|done].
  exfalso. apply Hnw, list_elem_of_In.
  apply (worklist_complete self s name prefixes q); try done.
  apply glob_ba2_elem. apply glob_ba2_elem in Hq as [Hs Hm].
  split; [by apply Hkeys|done].
Qed.

Lemma downgrade_dlc_ba2_files_twice (self : t) (s : fs) :
  exists r1 s1,
    downgrade_dlc_ba2_files self s = (Ret r1, s1) /\
    downgrade_dlc_ba2_files self s1 = (Ret (0, []), s1).
Proof.
  destruct (downgrade_dlc_ba2_files_spec self s) as (r1 & s1 & Hr & Hnorm).
  exists r1, s1. split; [done|].
  unfold downgrade_dlc_ba2_files. unfold mbind at 1. unfold mget.
  destruct (get_dlc_needing_downgrade self s1) as [|g gs] eqn:Hg; [done|].
  apply downgrade_groups_refused.
  intros name files q Hin Hq. rewrite <- Hg in Hin.
  by apply (second_worklist_refused self s s1 name files q).
Qed.

End faults.

(** C5 — running [downgrade_dlc_ba2_files] a second time, on the file
    system the first run left, changes no file and reports zero patched
    archives with an empty per-group map; both runs return normally.  This
    holds whatever the operating system refuses, as long as it refuses the
    same files in both runs. *)
Theorem downgrade_dlc_ba2_files_idempotent {E : os_faults} (self : t) (s : fs) :
  exists r1 s1,
    downgrade_dlc_ba2_files self s = (Ret r1, s1) /\
    downgrade_dlc_ba2_files self s1 = (Ret (0, []), s1).
Proof. apply downgrade_dlc_ba2_files_twice. Qed.

(** On the example directory the first run patches the one next-gen
    archive of the catalogue and leaves the archive outside the catalogue
    alone; the second run has nothing to do. *)
Example downgrade_example_data_dir :
  let self := mk ["Data"]%string in
  let first := downgrade_dlc_ba2_files (E := no_os_faults) self example_data_dir in
  first.1 = Ret (1, [("Automatron DLC"%string, [["Data"; "DLCRobot - Main.ba2"]%string])]) /\
  BA2.from_file first.2 ["Data"; "DLCRobot - Main.ba2"]%string
  = Ret (Some (mkBA2Header BTDX 1 [x47; x4e; x52; x4c] 2)) /\
  first.2 !! ["Data"; "Fallout4 - Misc.ba2"]%string = Some (File example_ng_archive) /\
  (downgrade_dlc_ba2_files (E := no_os_faults) self first.2).1 = Ret (0, []).
Proof. vm_compute. repeat split; reflexivity. Qed.

End NormaliserFacts.
(** ** Rollback of the delta patcher *)

Module PatcherFacts.
Import ESMPatcher PatcherSpec.

Lemma path_exists_Some (s : fs) (p : path) (n : node) :
  s !! p = Some n -> path_exists s p = true.
Proof.
  intros H. unfold path_exists. apply bool_decide_eq_true_2. eauto.
Qed.

Lemma path_exists_None (s : fs) (p : path) :
  s !! p = None -> path_exists s p = false.
Proof.
  intros H. unfold path_exists. apply bool_decide_eq_false_2.
  rewrite H. by intros [? ?].
Qed.

Lemma path_add_join (dir : path) (name suffix : string) :
  path_add (path_join dir name) suffix = path_join dir (name +:+ suffix).
Proof.
  unfold path_join. induction dir as [|c dir IH]; simpl; [done|].
  rewrite IH. by destruct dir.
Qed.

Lemma path_join_inj (dir : path) (a b : string) :
  path_join dir a = path_join dir b -> a = b.
Proof.
  unfold path_join. intros H. apply app_inv_head in H. congruence.
Qed.

Lemma patcher_paths_distinct (dir : path) :
  let esm_path := path_join dir "Fallout4.esm" in
  let backup_path := path_add esm_path ".backup" in
  let temp_output := path_add esm_path ".patched" in
  esm_path <> backup_path /\ esm_path <> temp_output /\ backup_path <> temp_output.
Proof.
  cbv zeta. rewrite !path_add_join.
  repeat split; intros H; by apply path_join_inj in H.
Qed.

Section primitives.
Context {E : os_faults}.

Lemma remove_if_exists_spec (s : fs) (p : path) :
  s !! p <> Some Directory -> remove_fault p = None ->
  remove_if_exists p s = (Ret tt, delete p s).
Proof.
  intros Hd Hf. unfold remove_if_exists, mbind, mget, when, os_remove.
  destruct (s !! p) as [[d|]|] eqn:Hp; try done.
  - by rewrite (path_exists_Some _ _ _ Hp), Hp, Hf.
  - rewrite (path_exists_None _ _ Hp). unfold mret. by rewrite delete_id.
Qed.

Lemma os_rename_spec (s : fs) (src dst : path) (n : node) :
  s !! src = Some n -> s !! dst = None -> rename_fault src dst = None ->
  os_rename src dst s = (Ret tt, <[dst := n]> (delete src s)).
Proof.
  intros Hs Hd Hf. unfold os_rename. by rewrite Hs, (path_exists_None _ _ Hd), Hf.
Qed.

(** The four tests before the [try] block all pass: the run is the backup
    copy followed by the [try] block and its handlers. *)
Lemma patch_fallout4_esm_enters (self : t) (tool : tool_run) (dir : path)
    (s : fs) (d : bytes) (entry : patch_entry) :
  let esm_path := path_join dir "Fallout4.esm" in
  let backup_path := path_add esm_path ".backup" in
  let temp_output := path_add esm_path ".patched" in
  s !! esm_path = Some (File d) ->
  patch_mappings self !! Z.of_nat (length d) = Some entry ->
  is_Some (s !! path_join (assets_dir self) (patch entry)) ->
  is_Some (s !! xdelta_path self) ->
  patch_fallout4_esm self tool dir s
  = match copy2 esm_path backup_path s with
    | (Raise e, s1) => on_exception esm_path backup_path None e s1
    | (Ret _, s1) =>
        mtry (apply_patch tool esm_path backup_path temp_output)
             (on_exception esm_path backup_path (Some temp_output)) s1
    end.
Proof.
  intros esm_path backup_path temp_output Hesm Hkey [pn Hpatch] [xn Htool].
  unfold patch_fallout4_esm. fold esm_path.
  unfold mbind at 1. unfold mget.
  rewrite (path_exists_Some _ _ _ Hesm). simpl.
  unfold mbind at 1. unfold mread, getsize.
  rewrite Hesm, Hkey.
  unfold mbind at 1. unfold mget.
  rewrite (path_exists_Some _ _ _ Hpatch). simpl.
  unfold mbind at 1. unfold mget.
  rewrite (path_exists_Some _ _ _ Htool). simpl.
  done.
Qed.

(** The backup copy, when it is not refused. *)
Lemma copy2_backup (s : fs) (esm backup : path) (d : bytes) :
  s !! esm = Some (File d) -> s !! backup <> Some Directory ->
  copy_fault esm backup = CopyDone ->
  copy2 esm backup s = (Ret tt, <[backup := File d]> s).
Proof.
  intros He Hb Hc. unfold copy2, copy_target. rewrite He, Hc.
  by destruct (s !! backup) as [[b0|]|].
Qed.

End primitives.

(** The three paths the patcher works on, in a run where the operating
    system lets the handlers remove the target and the output and rename
    the backup. *)
Section staged.
Context {E : os_faults}.
Variables (esm backup temp : path) (d : bytes) (s : fs).
Hypothesis esm_backup : esm <> backup.
Hypothesis esm_temp : esm <> temp.
Hypothesis backup_temp : backup <> temp.
Hypothesis esm_file : s !! esm = Some (File d).
Hypothesis remove_esm : remove_fault esm = None.
Hypothesis remove_temp_ok : remove_fault temp = None.
Hypothesis rename_backup : rename_fault backup esm = None.

Abbreviation staged := (PatcherSpec.staged esm backup temp d s).
Abbreviation recoverable := (PatcherSpec.recoverable esm backup temp d s).
Abbreviation rolled_back := (PatcherSpec.rolled_back backup temp s).

Lemma staged_recoverable (s2 : fs) : staged s2 -> recoverable s2.
Proof.
  intros (He & Hb & Ht & Ho). repeat split; try done.
  - by rewrite He.
  - intros q _ Hqb Hqt. by apply Ho.
Qed.

Lemma restore_backup_recoverable (s2 : fs) :
  recoverable s2 ->
  exists s3, restore_backup esm backup s2 = (Ret tt, s3) /\
             s3 !! esm = Some (File d) /\ s3 !! backup = None /\
             s3 !! temp = s2 !! temp /\
             (forall q, q <> backup -> q <> temp -> s3 !! q = s !! q).
Proof.
  intros (Hb & He & Ht & Ho).
  unfold restore_backup, mbind, mget, when.
  rewrite (path_exists_Some _ _ _ Hb).
  rewrite remove_if_exists_spec by done.
  rewrite (os_rename_spec _ _ _ (File d)).
  - eexists. split; [done|]. split; [by rewrite lookup_insert_eq|].
    split; [|split].
    + rewrite lookup_insert_ne, lookup_delete_eq; done.
    + rewrite lookup_insert_ne, !lookup_delete_ne; done.
    + intros q Hqb Hqt. destruct (decide (q = esm)) as [->|Hqe].
      * by rewrite lookup_insert_eq.
      * rewrite lookup_insert_ne, !lookup_delete_ne by done. by apply Ho.
  - rewrite lookup_delete_ne; done.
  - apply lookup_delete_eq.
  - done.
Qed.

Lemma rolled_back_eq (s3 : fs) :
  s3 !! esm = Some (File d) -> s3 !! backup = None -> s3 !! temp = None ->
  (forall q, q <> backup -> q <> temp -> s3 !! q = s !! q) ->
  s3 = rolled_back.
Proof.
  intros He Hb Ht Ho. apply map_eq. intros q. unfold PatcherSpec.rolled_back.
  destruct (decide (q = temp)) as [->|Hqt]; [by rewrite lookup_delete_eq|].
  rewrite lookup_delete_ne by done.
  destruct (decide (q = backup)) as [->|Hqb]; [by rewrite lookup_delete_eq|].
  rewrite lookup_delete_ne by done. by apply Ho.
Qed.

(** Restore, then remove the partial output. *)
Lemma restore_and_clean (s2 : fs) :
  recoverable s2 ->
  (restore_backup esm backup ;;; remove_if_exists temp ;;; mret false)%M s2
  = (Ret false, rolled_back).
Proof.
  intros Hst.
  destruct (restore_backup_recoverable s2 Hst) as (s3 & Hr & He & Hb & Ht & Ho).
  unfold mbind at 1. rewrite Hr. unfold mbind.
  rewrite remove_if_exists_spec by (done || (rewrite Ht; apply Hst)). unfold mret.
  f_equal. apply rolled_back_eq.
  - rewrite lookup_delete_ne; done.
  - rewrite lookup_delete_ne; done.
  - apply lookup_delete_eq.
  - intros q Hqb Hqt. rewrite lookup_delete_ne by done. by apply Ho.
Qed.

(** Restore when the tool left no output. *)
Lemma restore_without_output (s2 : fs) :
  recoverable s2 -> s2 !! temp = None ->
  (restore_backup esm backup ;;; mret false)%M s2 = (Ret false, rolled_back).
Proof.
  intros Hst Hnone.
  destruct (restore_backup_recoverable s2 Hst) as (s3 & Hr & He & Hb & Ht & Ho).
  unfold mbind. rewrite Hr. unfold mret. f_equal.
  apply rolled_back_eq; try done. by rewrite Ht.
Qed.

(** Both [except] clauses roll back as well. *)
Lemma on_exception_recoverable (s2 : fs) (e : exn) :
  recoverable s2 ->
  on_exception esm backup (Some temp) e s2 = (Ret false, rolled_back).
Proof.
  intros Hst. unfold on_exception. destruct (is_TimeoutExpired e).
  - by apply restore_and_clean.
  - pose proof Hst as (Hb & He & Ht & Ho).
    destruct (restore_backup_recoverable s2 Hst) as (s3 & Hr & He3 & Hb3 & Ht3 & Ho3).
    unfold restore_backup, mbind, mget, when in Hr.
    rewrite (path_exists_Some _ _ _ Hb) in Hr.
    unfold mbind at 1. unfold mget. rewrite (path_exists_Some _ _ _ Hb).
    unfold mbind at 1. unfold when, mtry. unfold mbind at 1.
    destruct (remove_if_exists esm s2) as [[[]|e1] s2'] eqn:Hrm; [|done].
    rewrite Hr. unfold remove_temp, mbind.
    rewrite remove_if_exists_spec by (done || (rewrite Ht3; apply Hst)). unfold mret.
    f_equal. apply rolled_back_eq.
    + rewrite lookup_delete_ne; done.
    + rewrite lookup_delete_ne; done.
    + apply lookup_delete_eq.
    + intros q Hqb Hqt. rewrite lookup_delete_ne by done. by apply Ho3.
Qed.

(** The state in which the tool leaves a staged file system. *)
Lemma staged_after_tool (tool : tool_run) (s1 : fs) :
  staged s1 ->
  staged (match output tool with
          | Some b => <[temp := File b]> s1
          | None => s1
          end).
Proof.
  intros (He & Hb & Ht & Ho). destruct (output tool) as [b|]; [|done].
  repeat split.
  - rewrite lookup_insert_ne; done.
  - rewrite lookup_insert_ne; done.
  - by rewrite lookup_insert_eq.
  - intros q Hqb Hqt. rewrite lookup_insert_ne by done. by apply Ho.
Qed.


(** The [try] block and its handlers, from a staged state: the run
    reports success or ends rolled back, also when the replacement of the
    target or the removal of the backup is refused. *)
Lemma apply_patch_staged (tool : tool_run) (s1 : fs) (r : res bool) (s' : fs) :
  staged s1 ->
  mtry (apply_patch tool esm backup temp)
       (on_exception esm backup (Some temp)) s1 = (r, s') ->
  r = Ret true \/ (r = Ret false /\ s' = rolled_back).
Proof.
  intros Hst. pose proof (staged_after_tool tool s1 Hst) as Hst2.
  pose proof (staged_recoverable _ Hst2) as Hrec2.
  set (s2 := match output tool with
             | Some b => <[temp := File b]> s1
             | None => s1
             end) in *.
  unfold mtry, apply_patch. unfold mbind at 1. unfold subprocess_run. fold s2.
  destruct (run_end_of tool) as [rc|e].
  2:{ rewrite on_exception_recoverable by done. intros [= <- <-]. by right. }
  case_bool_decide as Hrc.
  2:{ rewrite restore_and_clean by done. intros [= <- <-]. by right. }
  unfold mbind at 1. unfold mget.
  destruct (s2 !! temp) as [n|] eqn:Hout.
  2:{ rewrite (path_exists_None _ _ Hout).
      rewrite restore_without_output by done. intros [= <- <-]. by right. }
  rewrite (path_exists_Some _ _ _ Hout).
  unfold mbind at 1. unfold mread, getsize. rewrite Hout.
  destruct n as [b|]; [|by destruct Hst2 as (_ & _ & Hnd & _)].
  case_bool_decide as Hsize.
  2:{ rewrite restore_and_clean by done. intros [= <- <-]. by right. }
  unfold mbind at 1. unfold os_remove. destruct Hst2 as (He2 & Hb2 & _ & Ho2).
  rewrite He2, remove_esm.
  unfold mbind at 1. unfold os_rename.
  rewrite lookup_delete_ne, Hout by done.
  rewrite (path_exists_None _ esm) by apply lookup_delete_eq.
  destruct (rename_fault temp esm) as [e|].
  { rewrite on_exception_recoverable.
    - intros [= <- <-]. by right.
    - repeat split.
      + rewrite lookup_delete_ne; done.
      + by rewrite lookup_delete_eq.
      + rewrite lookup_delete_ne, Hout; done.
      + intros q Hqe Hqb Hqt. rewrite lookup_delete_ne by done. by apply Ho2. }
  unfold mbind at 1. unfold remove_if_exists. unfold mbind at 1. unfold mget.
  rewrite (path_exists_Some _ backup (File d)).
  2:{ rewrite lookup_insert_ne, !lookup_delete_ne by done. done. }
  unfold when, os_remove.
  rewrite lookup_insert_ne, !lookup_delete_ne, Hb2 by done.
  destruct (remove_fault backup) as [e|].
  { rewrite on_exception_recoverable.
    - intros [= <- <-]. by right.
    - repeat split.
      + rewrite lookup_insert_ne, !lookup_delete_ne by done. done.
      + by rewrite lookup_insert_eq.
      + rewrite lookup_insert_ne, lookup_delete_eq; done.
      + intros q Hqe Hqb Hqt.
        rewrite lookup_insert_ne, !lookup_delete_ne by done. by apply Ho2. }
  unfold mret. intros [= <- <-]. by left.
Qed.

End staged.




End PatcherFacts.

(** ** Tie-break of the DLC resolver *)

Module ResolverFacts.
Import DlcResolver ResolverSpec.

(** The archives matched for a group carry a joint flag: it is set exactly
    when one of them has a next-gen header. *)
Lemma match_ba2_flag (s : fs) (ba2_map : gmap string (list path))
    (prefixes : list string) :
  (match_ba2 s ba2_map prefixes).2
  = existsb (fun p => BA2.header_is_next_gen (BA2.from_file s p))
            (match_ba2 s ba2_map prefixes).1.
Proof.
  unfold match_ba2.
  set (ngp := fun p => BA2.header_is_next_gen (BA2.from_file s p)).
  set (inner := fun '(ba2_paths, is_ng) (ba2_path : path) =>
                  (ba2_paths ++ [ba2_path], is_ng || ngp ba2_path)).
  assert (Hinner : forall found acc,
             acc.2 = existsb ngp acc.1 ->
             (foldl inner acc found).2 = existsb ngp (foldl inner acc found).1).
  { induction found as [|x found IH]; intros [ps b] Hacc; simpl in *; [done|].
    apply IH. simpl. rewrite existsb_app. simpl. by rewrite Hacc, orb_false_r. }
  set (outer := fun (acc : list path * bool) (prefix : string) =>
                  match ba2_map !! prefix with
                  | Some found => foldl inner acc found
                  | None => acc
                  end).
  assert (Houter : forall prefixes acc,
             acc.2 = existsb ngp acc.1 ->
             (foldl outer acc prefixes).2 = existsb ngp (foldl outer acc prefixes).1).
  { induction prefixes0 as [|x l IH]; intros acc Hacc; simpl; [done|].
    apply IH. unfold outer. destruct (ba2_map !! x); [by apply Hinner|done]. }
  by apply Houter.
Qed.

(** One group's entry after a scan. *)
Lemma scan_entry (s : fs) (directory : path) (source_name : string)
    (dlc_info : list (string * dlc_data)) (i : nat) (name : string) (d : dlc_data) :
  dlc_info !! i = Some (name, d) ->
  exists d',
    _scan_single_directory_for_dlc s directory dlc_info source_name !! i
    = Some (name, d') /\
    d' = match directory_candidate s directory d with
         | Some (esm_path, (ba2_paths, is_ng)) =>
             if bool_decide (found_in d = None)
                || (negb is_ng && truthy (is_next_gen d))
             then mk_dlc_data (esm d) (ba2_prefixes d) (Some source_name)
                              (Some esm_path) ba2_paths (Some is_ng)
             else d
         | None => d
         end.
Proof.
  intros Hi. unfold _scan_single_directory_for_dlc, directory_candidate.
  destruct (iterdir s directory) as [entries|e]; [|eauto].
  destruct (build_maps (List.filter (is_file s) entries)) as [esm_map ba2_map].
  rewrite list_lookup_fmap, Hi. simpl. eexists. split; [done|].
  unfold update_entry. destruct (candidate s esm_map ba2_map d) as [[e [ps b]]|]; done.
Qed.

(** C4 — once a group is resolved, scanning a further directory replaces
    the resolution if and only if the earlier one was next-gen and the
    directory offers the group without a next-gen archive; otherwise the
    entry stays as it was.  A superseding resolution points into the later
    directory and none of its archives needs normalisation. *)
Theorem later_directory_supersedes_iff (s : fs) (directory : path)
    (source_name : string) (dlc_info : list (string * dlc_data)) (i : nat)
    (name : string) (d : dlc_data) :
  dlc_info !! i = Some (name, d) ->
  is_Some (found_in d) ->
  exists d',
    _scan_single_directory_for_dlc s directory dlc_info source_name !! i
    = Some (name, d') /\
    (d' <> d <-> supersedes s directory d) /\
    (forall esm_path ba2_paths,
        directory_candidate s directory d = Some (esm_path, (ba2_paths, false)) ->
        is_next_gen d = Some true ->
        d' = mk_dlc_data (esm d) (ba2_prefixes d) (Some source_name)
                         (Some esm_path) ba2_paths (Some false) /\
        forall p, In p ba2_paths ->
                  BA2.header_is_next_gen (BA2.from_file s p) = false).
Proof.
  intros Hi [src Hsrc].
  destruct (scan_entry s directory source_name dlc_info i name d Hi) as (d' & Hl & Hd').
  exists d'. split; [done|].
  rewrite bool_decide_eq_false_2 in Hd' by (by rewrite Hsrc). simpl in Hd'.
  assert (Hflag : forall e ps b,
             directory_candidate s directory d = Some (e, (ps, b)) ->
             b = existsb (fun p => BA2.header_is_next_gen (BA2.from_file s p)) ps).
  { intros e ps b. unfold directory_candidate.
    destruct (iterdir s directory) as [entries|]; [|done].
    destruct (build_maps (List.filter (is_file s) entries)) as [esm_map ba2_map].
    unfold candidate. destruct (esm_map !! esm d); [|done].
    pose proof (match_ba2_flag s ba2_map (ba2_prefixes d)) as Hm.
    destruct (match_ba2 s ba2_map (ba2_prefixes d)) as [ps' b'].
    simpl in Hm. intros [= <- <- <-]. done. }
  split; [split|].
  - intros Hne. unfold supersedes.
    destruct (directory_candidate s directory d) as [[e [ps b]]|]; [|done].
    destruct b; simpl in Hd'; [done|].
    destruct (is_next_gen d) as [[|]|]; simpl in Hd'; try done. eauto.
  - intros (e & ps & Hc & Hng). rewrite Hc, Hng in Hd'. simpl in Hd'.
    subst d'. intros Heq. rewrite <- Heq in Hng. simpl in Hng. done.
  - intros e ps Hc Hng. pose proof (Hflag _ _ _ Hc) as Hf.
    rewrite Hc, Hng in Hd'. simpl in Hd'. split; [done|].
    intros p Hp. destruct (BA2.header_is_next_gen (BA2.from_file s p)) eqn:Hn; [|done].
    symmetry in Hf. rewrite <- not_true_iff_false in Hf.
    exfalso. apply Hf. apply existsb_exists. eauto.
Qed.

(** What a directory offers depends on the group's catalogue data only. *)
Lemma directory_candidate_catalogue (s : fs) (directory : path) (d d' : dlc_data) :
  esm d' = esm d -> ba2_prefixes d' = ba2_prefixes d ->
  directory_candidate s directory d' = directory_candidate s directory d.
Proof.
  intros He Hp. unfold directory_candidate.
  destruct (iterdir s directory) as [entries|]; [|done].
  destruct (build_maps (List.filter (is_file s) entries)) as [esm_map ba2_map].
  unfold candidate. by rewrite He, Hp.
Qed.

(** The scenario of the specification: a group found next-gen in the
    directory scanned first and compatible in the one scanned second
    resolves to the second. *)
Lemma incompatible_then_compatible (s : fs) (dir_a dir_b : path)
    (src_a src_b : string) (dlc_info : list (string * dlc_data)) (i : nat)
    (name : string) (d : dlc_data) (esm_a esm_b : path) (ba2_a ba2_b : list path) :
  dlc_info !! i = Some (name, d) ->
  found_in d = None ->
  directory_candidate s dir_a d = Some (esm_a, (ba2_a, true)) ->
  directory_candidate s dir_b d = Some (esm_b, (ba2_b, false)) ->
  _scan_single_directory_for_dlc s dir_b
    (_scan_single_directory_for_dlc s dir_a dlc_info src_a) src_b !! i
  = Some (name, mk_dlc_data (esm d) (ba2_prefixes d) (Some src_b)
                            (Some esm_b) ba2_b (Some false)).
Proof.
  intros Hi Hnone Ha Hb.
  destruct (scan_entry s dir_a src_a dlc_info i name d Hi) as (d1 & Hl1 & Hd1).
  rewrite Ha, Hnone in Hd1. simpl in Hd1.
  destruct (scan_entry s dir_b src_b _ i name d1 Hl1) as (d2 & Hl2 & Hd2).
  rewrite (directory_candidate_catalogue s dir_b d d1) in Hd2 by (by subst d1).
  rewrite Hb in Hd2. subst d1. simpl in Hd2. by subst d2.
Qed.

Example automatron_found_next_gen_in_a :
  after_directory_a !! 0%nat = Some ("Automatron"%string, automatron_in_a).
Proof. vm_compute. reflexivity. Qed.

Example automatron_resolves_to_b :
  _scan_single_directory_for_dlc two_directories ["B"]%string
    after_directory_a "Fallout 4 VR" !! 0%nat
  = Some ("Automatron"%string,
          mk_dlc_data "DLCRobot.esm" ["DLCRobot"]%string (Some "Fallout 4 VR"%string)
            (Some ["B"; "DLCRobot.esm"]%string)
            [["B"; "DLCRobot - Main.ba2"]%string] (Some false)).
Proof. vm_compute. reflexivity. Qed.

Lemma later_directory_supersedes_iff_witness :
  exists d',
    _scan_single_directory_for_dlc two_directories ["B"]%string
      after_directory_a "Fallout 4 VR" !! 0%nat
    = Some ("Automatron"%string, d') /\
    (d' <> automatron_in_a <-> supersedes two_directories ["B"]%string automatron_in_a).
Proof.
  destruct (later_directory_supersedes_iff two_directories ["B"]%string
              "Fallout 4 VR" after_directory_a 0 "Automatron" automatron_in_a)
    as (d' & Hl & Hiff & _).
  - vm_compute. reflexivity.
  - eexists; reflexivity.
  - exists d'. split; [exact Hl|exact Hiff].
Defined.

End ResolverFacts.

(** ** The parallel tree copier *)

Module CopierFacts.
Import Copier CopierSpec.

(** *** The chunked copy loop *)

Lemma read_chunk_app (n : N) (d : bytes) :
  (read_chunk n d).1 ++ (read_chunk n d).2 = d.
Proof.
  revert n. induction d as [|b d IH]; intros n; simpl; [done|].
  case_bool_decide; simpl; [done|].
  specialize (IH (N.pred n)). destruct (read_chunk (N.pred n) d) as [c r].
  simpl in *. by rewrite IH.
Qed.

Lemma read_chunk_nonempty (n : N) (d : bytes) :
  n <> 0%N -> d <> [] -> (read_chunk n d).1 <> [].
Proof.
  intros Hn Hd. destruct d as [|b d]; [done|]. simpl.
  rewrite bool_decide_eq_false_2 by done.
  by destruct (read_chunk (N.pred n) d).
Qed.

Lemma read_chunk_empty (n : N) (d : bytes) :
  n <> 0%N -> (read_chunk n d).1 = [] -> d = [].
Proof.
  intros Hn Hc. destruct d as [|b d]; [done|].
  by destruct (read_chunk_nonempty n (b :: d) Hn).
Qed.

Lemma chunk_size_nonzero : chunk_size <> 0%N.
Proof. done. Qed.

(** How the loop ends: a chunk fault always raises, otherwise the loop
    runs to the end of the file. *)
Lemma copy_chunks_end (fuel : nat) (f : fault) (index : nat)
    (fsrc fdest : bytes) (counter : Z) :
  (length fsrc < fuel)%nat ->
  (copy_chunks fuel f index fsrc fdest counter).1.1
  = match f with FailAtChunk _ e _ => Raise e | _ => Ret tt end.
Proof.
  revert index fsrc fdest counter.
  induction fuel as [|fuel IH]; intros index fsrc fdest counter Hfuel; [lia|].
  pose proof (read_chunk_app chunk_size fsrc) as Happ.
  assert (Hshort : forall b c r, read_chunk chunk_size fsrc = (b :: c, r) ->
                                 (length r < fuel)%nat).
  { intros b c r Hr. rewrite Hr in Happ. simpl in Happ. subst fsrc.
    simpl in Hfuel. rewrite length_app in Hfuel. lia. }
  destruct f; simpl;
    try (destruct (read_chunk chunk_size fsrc) as [[|b c] r] eqn:Hr; [done|];
         rewrite IH by eauto; done).
  case_bool_decide; [done|].
  destruct (read_chunk chunk_size fsrc) as [[|b c] r] eqn:Hr; [done|].
  rewrite IH by eauto. done.
Qed.

(** What the loop writes and counts: a prefix of the source is appended to
    the destination and its length is added to the counter. *)
Lemma copy_chunks_written (fuel : nat) (f : fault) (index : nat)
    (fsrc fdest : bytes) (counter : Z) :
  exists w rest,
    fsrc = w ++ rest /\
    (copy_chunks fuel f index fsrc fdest counter).1.2 = fdest ++ w /\
    (copy_chunks fuel f index fsrc fdest counter).2 = counter + Z.of_nat (length w).
Proof.
  revert index fsrc fdest counter.
  induction fuel as [|fuel IH]; intros index fsrc fdest counter.
  { exists [], fsrc. simpl. rewrite app_nil_r. split; [done|]. split; [done|lia]. }
  pose proof (read_chunk_app chunk_size fsrc) as Happ.
  assert (Hstop : exists w rest, fsrc = w ++ rest /\ fdest = fdest ++ w /\
                                 counter = counter + Z.of_nat (length w)).
  { exists [], fsrc. rewrite app_nil_r. split; [done|]. split; [done|simpl; lia]. }
  assert (Hgo : forall b c r, read_chunk chunk_size fsrc = (b :: c, r) ->
             exists w rest,
               fsrc = w ++ rest /\
               (copy_chunks fuel f (S index) r (fdest ++ b :: c)
                            (counter + Z.of_nat (length (b :: c)))).1.2 = fdest ++ w /\
               (copy_chunks fuel f (S index) r (fdest ++ b :: c)
                            (counter + Z.of_nat (length (b :: c)))).2
               = counter + Z.of_nat (length w)).
  { intros b c r Hr. rewrite Hr in Happ. simpl in Happ.
    destruct (IH (S index) r (fdest ++ b :: c)
                 (counter + Z.of_nat (length (b :: c)))) as (w & rest & Hw & H1 & H2).
    exists ((b :: c) ++ w), rest. split; [|split].
    - rewrite <- Happ, Hw. by rewrite <- app_assoc.
    - rewrite H1. by rewrite <- app_assoc.
    - rewrite H2, length_app. lia. }
  destruct f; simpl;
    try (destruct (read_chunk chunk_size fsrc) as [[|b c] r] eqn:Hr;
         [exact Hstop|by apply Hgo]).
  case_bool_decide; [exact Hstop|].
  destruct (read_chunk chunk_size fsrc) as [[|b c] r] eqn:Hr;
    [exact Hstop|by apply Hgo].
Qed.

(** Without a chunk fault the whole source is written. *)
Lemma copy_chunks_complete (fuel : nat) (f : fault) (index : nat)
    (fsrc fdest : bytes) (counter : Z) :
  (length fsrc < fuel)%nat ->
  (forall k e n, f <> FailAtChunk k e n) ->
  copy_chunks fuel f index fsrc fdest counter
  = (Ret tt, fdest ++ fsrc, counter + Z.of_nat (length fsrc)).
Proof.
  revert index fsrc fdest counter.
  induction fuel as [|fuel IH]; intros index fsrc fdest counter Hfuel Hf; [lia|].
  pose proof (read_chunk_app chunk_size fsrc) as Happ.
  assert (Hgo : forall b c r, read_chunk chunk_size fsrc = (b :: c, r) ->
             copy_chunks fuel f (S index) r (fdest ++ b :: c)
                         (counter + Z.of_nat (length (b :: c)))
             = (Ret tt, fdest ++ fsrc, counter + Z.of_nat (length fsrc))).
  { intros b c r Hr. rewrite Hr in Happ. simpl in Happ.
    assert (Hlen : length fsrc = (length (b :: c) + length r)%nat).
    { rewrite <- Happ. simpl. by rewrite length_app. }
    rewrite IH; [|simpl in Hlen; lia|done].
    rewrite <- app_assoc. change ((b :: c) ++ r) with (b :: c ++ r).
    rewrite Happ, Hlen. f_equal. lia. }
  assert (Hstop : forall r, read_chunk chunk_size fsrc = ([], r) ->
             (Ret tt, fdest, counter)
             = (@Ret unit tt, fdest ++ fsrc, counter + Z.of_nat (length fsrc))).
  { intros r Hr.
    rewrite (read_chunk_empty chunk_size fsrc) by (done || by rewrite Hr).
    rewrite app_nil_r. simpl. do 2 f_equal. lia. }
  destruct f; simpl;
    try (destruct (read_chunk chunk_size fsrc) as [[|b c] r] eqn:Hr;
         [by eapply Hstop|by apply Hgo]).
  by destruct (Hf k e n).
Qed.

(** The counter only accumulates: the loop behaves the same from any
    starting value. *)
Lemma copy_chunks_counter (fuel : nat) (f : fault) (index : nat)
    (fsrc fdest : bytes) (counter : Z) :
  copy_chunks fuel f index fsrc fdest counter
  = ((copy_chunks fuel f index fsrc fdest 0).1,
     counter + (copy_chunks fuel f index fsrc fdest 0).2).
Proof.
  revert index fsrc fdest counter.
  induction fuel as [|fuel IH]; intros index fsrc fdest counter.
  { simpl. f_equal. lia. }
  assert (Hstop : forall (r : res unit),
             (r, fdest, counter) = ((r, fdest, 0).1, counter + (r, fdest, 0).2)).
  { intros r. simpl. f_equal. lia. }
  assert (Hgo : forall n r w,
             copy_chunks fuel f (S index) r w (counter + n)
             = ((copy_chunks fuel f (S index) r w (0 + n)).1,
                counter + (copy_chunks fuel f (S index) r w (0 + n)).2)).
  { intros n r w. rewrite (IH _ _ _ (counter + n)), (IH _ _ _ (0 + n)). simpl.
    f_equal. lia. }
  destruct f; simpl;
    try (destruct (read_chunk chunk_size fsrc) as [[|b c] r] eqn:Hr;
         [apply Hstop|apply Hgo]).
  case_bool_decide; [apply Hstop|].
  destruct (read_chunk chunk_size fsrc) as [[|b c] r] eqn:Hr; [apply Hstop|apply Hgo].
Qed.

Lemma copy_chunks_from (fuel : nat) (f : fault) (fsrc : bytes) (counter : Z) :
  copy_chunks fuel f 0 fsrc [] counter
  = ((copy_chunks fuel f 0 fsrc [] 0).1,
     counter + Z.of_nat (length (copy_chunks fuel f 0 fsrc [] 0).1.2)).
Proof.
  rewrite copy_chunks_counter. f_equal. f_equal.
  destruct (copy_chunks_written fuel f 0 fsrc [] 0) as (w & rest & _ & H1 & H2).
  rewrite H1, H2. simpl. lia.
Qed.

(** *** One task *)

Section task.
Variables (src_tree : tree) (src_dir : path) (environment : env).

Abbreviation outcome := (outcome src_tree src_dir environment).
Abbreviation written := (written src_tree src_dir environment).
Abbreviation handed := (handed src_tree src_dir environment).
Abbreviation after_task := (after_task src_tree src_dir environment).
Abbreviation collect := (collect src_tree src_dir environment).

#[local] Arguments copy_chunks : simpl never.

(** Running a task and collecting its result, in closed form. *)
Lemma collect_after_task (files_copied : Z) (st : state) (info : file_info) :
  collect (files_copied, st) info
  = (match outcome info with
     | None => files_copied + 1
     | Some _ => files_copied
     end, after_task info st).
Proof.
  unfold Copier.collect, copy_single_file_safe, CopierSpec.after_task,
    CopierSpec.outcome, CopierSpec.written, CopierSpec.counted, CopierSpec.handed,
    CopierSpec.opened, trace, started.
  unfold copy_attempt, remove_readonly_and_overwrite, log_event.
  destruct (cancel_requested environment (src_file info)) eqn:Hc; simpl.
  { f_equal. destruct st; simpl. f_equal; [lia|by rewrite app_nil_r]. }
  unfold copy_attempt.
  destruct (fault_of environment (src_file info)) as [|e|e|k e n|e] eqn:Hf; simpl.
  - destruct (open_src src_tree src_dir (src_file info)) as [data|e] eqn:Ho; simpl.
    + rewrite copy_chunks_from.
      rewrite copy_chunks_complete by (lia || done). simpl.
      destruct (dest st !! dest_file info); simpl; do 2 f_equal;
        by rewrite ?app_nil_r, <- ?app_assoc.
    + destruct (dest st !! dest_file info); simpl; do 2 f_equal;
        (lia || by rewrite <- ?app_assoc).
  - f_equal. destruct st; simpl. f_equal; [lia|by rewrite app_nil_r].
  - destruct (dest st !! dest_file info); simpl; do 2 f_equal;
      (lia || by rewrite <- ?app_assoc).
  - destruct (open_src src_tree src_dir (src_file info)) as [data|e'] eqn:Ho; simpl.
    + rewrite copy_chunks_from.
      pose proof (copy_chunks_end (S (length data)) (FailAtChunk k e n) 0 data [] 0) as He.
      destruct (copy_chunks (S (length data)) (FailAtChunk k e n) 0 data [] 0)
        as [[r w] c] eqn:Hcc.
      simpl in He. rewrite He by lia. simpl.
      destruct (dest st !! dest_file info); simpl; do 2 f_equal;
        by rewrite <- ?app_assoc.
    + destruct (dest st !! dest_file info); simpl; do 2 f_equal;
        (lia || by rewrite <- ?app_assoc).
  - destruct (open_src src_tree src_dir (src_file info)) as [data|e'] eqn:Ho; simpl.
    + rewrite copy_chunks_from.
      rewrite copy_chunks_complete by (lia || done). simpl.
      destruct (dest st !! dest_file info); simpl; do 2 f_equal;
        by rewrite <- ?app_assoc.
    + destruct (dest st !! dest_file info); simpl; do 2 f_equal;
        (lia || by rewrite <- ?app_assoc).
Qed.

Abbreviation run_tasks := (run_tasks src_tree src_dir environment).
Abbreviation fails := (fails src_tree src_dir environment).
Abbreviation failure_record := (failure_record src_tree src_dir environment).

(** *** The pool *)

Lemma foldl_collect (l : list file_info) (files_copied : Z) (st : state) :
  (foldl collect (files_copied, st) l).2 = run_tasks l st.
Proof.
  revert files_copied st. induction l as [|info l IH]; intros fc st; [done|].
  cbn [foldl]. rewrite collect_after_task. apply IH.
Qed.

Lemma run_tasks_failed_files (l : list file_info) (st : state) :
  failed_files (run_tasks l st) = failed_files st ++ omap failure_record l.
Proof.
  revert st. induction l as [|info l IH]; intros st; simpl.
  { by rewrite app_nil_r. }
  unfold CopierSpec.run_tasks in *. simpl. rewrite IH. simpl.
  unfold CopierSpec.failure_record.
  destruct (outcome info); simpl; by rewrite <- ?app_assoc, ?app_nil_r.
Qed.

Lemma omap_failure_record_length (l : list file_info) :
  length (omap failure_record l) = length (filter fails l).
Proof.
  induction l as [|info l IH]; [done|].
  rewrite filter_cons. cbn [omap list_omap].
  destruct (decide (fails info)) as [[e He]|Hn].
  - unfold CopierSpec.failure_record at 1. rewrite He. simpl. by rewrite IH.
  - unfold CopierSpec.failure_record at 1.
    destruct (outcome info) as [e|] eqn:Ho; simpl; [|done].
    exfalso. apply Hn. unfold CopierSpec.fails. rewrite Ho. eauto.
Qed.

End task.

Lemma insert_by_size_perm (x : file_info) (l : list file_info) :
  insert_by_size x l ≡ₚ x :: l.
Proof.
  induction l as [|y l IH]; simpl; [done|].
  case_bool_decide; [done|]. rewrite IH. apply Permutation_swap.
Qed.

Lemma sort_by_size_perm (l : list file_info) : sort_by_size l ≡ₚ l.
Proof.
  induction l as [|x l IH]; simpl; [done|].
  rewrite insert_by_size_perm. by rewrite IH.
Qed.

Lemma too_many_failures_spec (failed total : nat) :
  too_many_failures failed total = true <-> (total < 10 * failed)%nat.
Proof.
  unfold too_many_failures, QArith_base.Qle_bool. simpl.
  rewrite negb_true_iff, Z.leb_gt. lia.
Qed.

(** C1 — with a non-empty manifest of M files of which N fail, the copy
    records exactly the N failures and raises the aggregate exception when
    N exceeds a tenth of M (10 N > M); otherwise it returns [True], also
    when N > 0. *)
Theorem failure_ratio_threshold (src_tree : tree) (src_dir dest_dir : path)
    (environment : env) (completion : list file_info -> list file_info)
    (exclude_dirs exclude_files : option (list string)) (dest0 : gmap path bytes) :
  (forall l, completion l ≡ₚ l) ->
  let manifest :=
    scan_tree src_dir dest_dir
      (map lower (default default_exclude_dirs exclude_dirs))
      (map lower (default [] exclude_files)) (getsize_fails environment)
      src_dir src_tree in
  manifest <> [] ->
  let M := length manifest in
  let N := length (filter (fails src_tree src_dir environment) manifest) in
  let result :=
    copy_directory_parallel src_tree src_dir environment completion dest_dir
      exclude_dirs exclude_files dest0 in
  length (failed_files result.2) = N /\
  ((M < 10 * N)%nat -> result.1 = Raise (Exception "Too many copy failures")) /\
  ((10 * N <= M)%nat -> result.1 = Ret true).
Proof.
  intros Hperm manifest Hne M N result.
  unfold result, copy_directory_parallel. fold manifest.
  destruct manifest as [|info0 rest] eqn:Hm; [done|]. rewrite <- Hm.
  pose proof (foldl_collect src_tree src_dir environment
                (completion (sort_by_size manifest)) 0 (mk_state dest0 0 [] []))
    as Hfold.
  destruct (foldl (collect src_tree src_dir environment) (0, mk_state dest0 0 [] [])
                  (completion (sort_by_size manifest))) as [fc st].
  simpl in Hfold. subst st.
  assert (Hlen : length (failed_files
                           (run_tasks src_tree src_dir environment
                              (completion (sort_by_size manifest))
                              (mk_state dest0 0 [] []))) = N).
  { rewrite run_tasks_failed_files. simpl. rewrite omap_failure_record_length.
    unfold N. apply Permutation_length. rewrite Hm.
    by rewrite Hperm, sort_by_size_perm. }
  assert (HM : length (sort_by_size manifest) = M).
  { unfold M. rewrite <- Hm. apply Permutation_length, sort_by_size_perm. }
  rewrite HM, Hlen.
  destruct (too_many_failures N M) eqn:Ht; simpl.
  - apply too_many_failures_spec in Ht. split; [done|]. split; [done|lia].
  - split; [done|]. split; [|done].
    intros Hlt. apply too_many_failures_spec in Hlt. congruence.
Qed.

Lemma failure_ratio_threshold_witness :
  (copy_directory_parallel ten_files ["src"]%string permission_error_at_f9
     (fun l => l) ["dst"]%string None None ∅).1 = Ret true.
Proof.
  destruct (failure_ratio_threshold ten_files ["src"]%string ["dst"]%string
              permission_error_at_f9 (fun l => l) None None ∅)
    as (_ & _ & Hret).
  - intros l. reflexivity.
  - vm_compute. discriminate.
  - apply Hret. vm_compute. lia.
Defined.

(** [len(failed_files) > len(files_to_copy) * 0.1] as the interpreter
    computes it, with the product rounded to binary64, decides as the exact
    product does on every manifest of up to 400 files. *)
Lemma too_many_failures_binary64_agrees :
  forallb (fun total =>
             forallb (fun failed =>
                        Bool.eqb (too_many_failures_binary64 failed total)
                                 (too_many_failures failed total))
                     (seq 0 (S total)))
          (seq 0 401) = true.
Proof. vm_compute. reflexivity. Qed.

(** *** Cancellation *)


End CopierFacts.

(** ** The manifest built by the walk *)

Module ManifestFacts.
Import Copier CopierSpec.

(** *** Strings *)

Lemma lower_ascii_idemp (c : Ascii.ascii) : lower_ascii (lower_ascii c) = lower_ascii c.
Proof.
  destruct c as [[] [] [] [] [] [] [] []]; reflexivity.
Qed.

Lemma lower_idemp (s : string) : lower (lower s) = lower s.
Proof.
  induction s as [|c s IH]; simpl; [done|]. by rewrite lower_ascii_idemp, IH.
Qed.

Lemma lower_app (a b : string) : lower (a +:+ b) = lower a +:+ lower b.
Proof.
  induction a as [|c a IH]; simpl; [done|]. by rewrite IH.
Qed.

Lemma prefix_app (s t : string) : String.prefix s (s +:+ t) = true.
Proof.
  induction s as [|c s IH]; [by destruct t|].
  change (String c s +:+ t) with (String c (s +:+ t)). cbn [String.prefix].
  destruct (Ascii.ascii_dec c c); [done|congruence].
Qed.

Lemma contains_prefix (s sub : string) :
  String.prefix sub s = true -> contains s sub = true.
Proof.
  intros H. destruct s; cbn [contains]; rewrite H; done.
Qed.

Lemma contains_app_r (a s sub : string) :
  contains s sub = true -> contains (a +:+ s) sub = true.
Proof.
  intros H. induction a as [|c a IH]; [done|].
  change (String c a +:+ s) with (String c (a +:+ s)).
  cbn [contains]. rewrite IH. apply orb_true_r.
Qed.

Lemma contains_middle (a sub b : string) : contains (a +:+ sub +:+ b) sub = true.
Proof.
  apply contains_app_r, contains_prefix, prefix_app.
Qed.

Lemma string_app_assoc (a b c : string) : (a +:+ b) +:+ c = a +:+ (b +:+ c).
Proof.
  induction a as [|x a IH]; [done|].
  change (String x ((a +:+ b) +:+ c) = String x (a +:+ (b +:+ c))).
  by rewrite IH.
Qed.

Lemma string_app_nil_r (s : string) : s +:+ "" = s.
Proof.
  induction s as [|x s IH]; [done|].
  change (String x (s +:+ "") = String x s). by rewrite IH.
Qed.

(** A component of a path occurs in its textual form. *)
Lemma path_str_component (p q : path) (d : string) :
  exists a b, path_str (p ++ d :: q) = a +:+ d +:+ b.
Proof.
  unfold path_str. induction p as [|c p IH].
  - exists ""%string. destruct q as [|c q].
    + exists ""%string. cbn [app String.concat]. by rewrite string_app_nil_r.
    + eexists. cbn [app String.concat]. reflexivity.
  - destruct IH as (a & b & IH).
    change ((c :: p) ++ d :: q) with (c :: (p ++ d :: q)).
    destruct (p ++ d :: q) as [|c' l] eqn:Hl.
    { by destruct p. }
    cbn [String.concat]. cbn [String.concat] in IH. rewrite IH.
    exists (c +:+ "\" +:+ a), b.
    by rewrite !string_app_assoc.
Qed.

Lemma in_list_true (x : string) (l : list string) :
  in_list x l = true <-> In x l.
Proof.
  unfold in_list. rewrite existsb_exists. split.
  - intros (y & Hy & He). apply String.eqb_eq in He. by subst.
  - intros H. exists x. split; [done|]. apply String.eqb_refl.
Qed.

(** A directory below a directory that the walk prunes is skipped by the
    substring test as well. *)
Lemma pruned_is_excluded (exclude_dirs_lower : list string) (root dirs : path)
    (d : string) :
  In d dirs ->
  in_list (lower d) exclude_dirs_lower = true ->
  in_excluded_directory exclude_dirs_lower (root ++ dirs) = true.
Proof.
  intros Hd Hin. apply in_list_true in Hin.
  unfold in_excluded_directory. apply existsb_exists.
  exists (lower d). split; [done|]. rewrite lower_idemp.
  apply in_split in Hd. destruct Hd as (l1 & l2 & ->).
  rewrite app_assoc.
  destruct (path_str_component (root ++ l1) l2 d) as (a & b & ->).
  rewrite !lower_app. apply contains_middle.
Qed.

(** *** Trees *)

Lemma tree_ind' (P : tree -> Prop) :
  (forall files dirs, Forall (fun d => P d.2) dirs -> P (Tree files dirs)) ->
  forall t, P t.
Proof.
  intros H. fix IH 1. intros [files dirs]. apply H.
  induction dirs as [|[d sub] dirs IHd]; constructor; [apply IH|apply IHd].
Qed.

Lemma assoc_NoDup {A : Type} (name : string) (v : A) (l : list (string * A)) :
  NoDup (map fst l) -> In (name, v) l -> assoc name l = Some v.
Proof.
  induction l as [|[k w] l IH]; simpl; [done|].
  intros Hnd [Heq|Hin].
  - injection Heq as -> ->. by rewrite bool_decide_eq_true_2.
  - apply NoDup_cons in Hnd as [Hk Hnd].
    rewrite bool_decide_eq_false_2; [by apply IH|].
    intros ->. apply Hk. apply list_elem_of_In, in_map_iff. by exists (name, v).
Qed.

Lemma tree_wf_inv (files : list (string * bytes)) (dirs : list (string * tree)) :
  tree_wf (Tree files dirs) = true ->
  NoDup (map fst files) /\ NoDup (map fst dirs) /\
  (forall d sub, In (d, sub) dirs -> tree_wf sub = true).
Proof.
  simpl. rewrite !andb_true_iff, !bool_decide_eq_true, forallb_forall.
  intros [[Hf Hd] Hs]. repeat split; try done.
  intros d sub Hin. by apply (Hs (d, sub)).
Qed.

Lemma tree_lookup_cons (t : tree) (d : string) (rel : path) :
  rel <> [] ->
  tree_lookup t (d :: rel)
  = match assoc d (tree_dirs t) with
    | Some sub => tree_lookup sub rel
    | None => None
    end.
Proof. by destruct rel. Qed.

(** In a well-formed tree a file that is there is the one a lookup of its
    path finds. *)
Lemma tree_has_lookup (t : tree) (dirs : list string) (name : string) (data : bytes) :
  tree_wf t = true ->
  tree_has t dirs name data ->
  tree_lookup t (dirs ++ [name]) = Some data.
Proof.
  revert t. induction dirs as [|d dirs IH]; intros [files subs] Hwf Hhas.
  - simpl in *. apply tree_wf_inv in Hwf as (Hf & _ & _). by apply assoc_NoDup.
  - destruct Hhas as (sub & Hin & Hhas). simpl in Hin.
    apply tree_wf_inv in Hwf as (_ & Hd & Hs).
    change ((d :: dirs) ++ [name]) with (d :: (dirs ++ [name])).
    rewrite tree_lookup_cons by (by destruct dirs).
    cbn [tree_dirs]. rewrite (assoc_NoDup d sub subs Hd Hin).
    apply IH; [by eapply Hs|done].
Qed.

(** *** Membership in the manifest *)

Section manifest.
Variables (src_dir dest_dir : path).
Variables (exclude_dirs_lower exclude_files_lower : list string).
Variable getsize_fails : path -> bool.

Abbreviation scan_files :=
  (scan_files src_dir dest_dir exclude_files_lower getsize_fails).
Abbreviation scan_tree :=
  (scan_tree src_dir dest_dir exclude_dirs_lower exclude_files_lower getsize_fails).
Abbreviation entry_of := (fun (src : path) (data : bytes) =>
  mk_info src (dest_of src_dir dest_dir src) (Z.of_nat (length data))).

Lemma scan_files_In (root : path) (files : list (string * bytes)) (info : file_info) :
  In info (scan_files root files) <->
  exists name data,
    In (name, data) files /\
    in_list (lower name) exclude_files_lower = false /\
    getsize_fails (path_join root name) = false /\
    info = entry_of (path_join root name) data.
Proof.
  unfold Copier.scan_files. rewrite in_flat_map. split.
  - intros ([name data] & Hin & Hinfo).
    destruct (in_list (lower name) exclude_files_lower) eqn:He; [done|].
    destruct (getsize_fails (path_join root name)) eqn:Hg; [done|].
    destruct Hinfo as [<-|[]]. exists name, data. eauto.
  - intros (name & data & Hin & He & Hg & ->).
    exists (name, data). split; [done|]. rewrite He, Hg. by left.
Qed.

(** The manifest holds exactly the files of the tree that are reached
    without crossing a pruned directory, lie in a directory whose path
    contains no excluded name, do not bear an excluded file name, and
    whose size can be read. *)
Lemma scan_tree_In (t : tree) (root : path) (info : file_info) :
  In info (scan_tree root t) <->
  exists dirs name data,
    tree_has t dirs name data /\
    (forall d, In d dirs -> in_list (lower d) exclude_dirs_lower = false) /\
    in_excluded_directory exclude_dirs_lower (root ++ dirs) = false /\
    in_list (lower name) exclude_files_lower = false /\
    getsize_fails (root ++ dirs ++ [name]) = false /\
    info = entry_of (root ++ dirs ++ [name]) data.
Proof.
  revert root info. induction t as [files subs IH] using tree_ind'.
  intros root info. rewrite Forall_forall in IH.
  cbn [Copier.scan_tree]. rewrite in_app_iff, in_flat_map. split.
  - intros [Hhere|([d sub] & Hin & Hsub)].
    + destruct (in_excluded_directory exclude_dirs_lower root) eqn:Hex; [done|].
      apply scan_files_In in Hhere as (name & data & Hf & He & Hg & ->).
      exists [], name, data. rewrite app_nil_r. by repeat split.
    + destruct (in_list (lower d) exclude_dirs_lower) eqn:Hd; [done|].
      apply (IH (d, sub)) in Hsub; [|by apply list_elem_of_In].
      destruct Hsub as (dirs & name & data & Hhas & Hpr & Hex & He & Hg & ->).
      exists (d :: dirs), name, data. unfold path_join in *.
      rewrite <- !app_assoc in *. simpl in *. repeat split; try done.
      * by exists sub.
      * intros d' [<-|Hd']; [done|by apply Hpr].
  - intros (dirs & name & data & Hhas & Hpr & Hex & He & Hg & ->).
    destruct dirs as [|d dirs].
    + left. rewrite app_nil_r in Hex. rewrite Hex. simpl in Hhas.
      apply scan_files_In. by exists name, data.
    + right. destruct Hhas as (sub & Hin & Hhas). simpl in Hin.
      exists (d, sub). split; [done|].
      rewrite (Hpr d) by (by left).
      apply (IH (d, sub)); [by apply list_elem_of_In|].
      exists dirs, name, data. unfold path_join.
      rewrite <- !app_assoc. simpl. repeat split; try done.
      intros d' Hd'. apply Hpr. by right.
Qed.

(** Completeness of the walk: the substring test on the directory path is
    the only directory condition; a file whose size cannot be read is
    left out. *)
Lemma scan_tree_complete (t : tree) (root : path) (dirs : list string)
    (name : string) (data : bytes) :
  tree_has t dirs name data ->
  in_excluded_directory exclude_dirs_lower (root ++ dirs) = false ->
  in_list (lower name) exclude_files_lower = false ->
  getsize_fails (root ++ dirs ++ [name]) = false ->
  In (entry_of (root ++ dirs ++ [name]) data) (scan_tree root t).
Proof.
  intros Hhas Hex He Hg. apply scan_tree_In. exists dirs, name, data.
  repeat split; try done.
  intros d Hd. destruct (in_list (lower d) exclude_dirs_lower) eqn:Hin; [|done].
  by rewrite (pruned_is_excluded _ root dirs d Hd Hin) in Hex.
Qed.

(** *** No entry twice *)

Lemma scan_files_NoDup (root : path) (files : list (string * bytes)) :
  NoDup (map fst files) -> NoDup (map src_file (scan_files root files)).
Proof.
  induction files as [|[name data] files IH]; intros Hnd; [constructor|].
  cbn [map fst] in Hnd. apply NoDup_cons in Hnd as [Hname Hnd].
  change (scan_files root ((name, data) :: files))
    with ((if in_list (lower name) exclude_files_lower then []
           else if getsize_fails (path_join root name) then []
                else [entry_of (path_join root name) data])
          ++ scan_files root files).
  destruct (in_list (lower name) exclude_files_lower); [by apply IH|].
  destruct (getsize_fails (path_join root name)); [by apply IH|].
  cbn [app map src_file]. apply NoDup_cons. split; [|by apply IH].
  intros Hin. apply list_elem_of_In, in_map_iff in Hin as (info & Hsrc & Hin).
  apply scan_files_In in Hin as (name' & data' & Hf & _ & _ & ->).
  cbn [src_file] in Hsrc. unfold path_join in Hsrc.
  apply app_inv_head in Hsrc. injection Hsrc as ->.
  apply Hname, list_elem_of_In, in_map_iff. by exists (name, data').
Qed.

Lemma scan_tree_src (t : tree) (root : path) (info : file_info) :
  In info (scan_tree root t) ->
  exists dirs name, src_file info = root ++ dirs ++ [name].
Proof.
  intros Hin. apply scan_tree_In in Hin as (dirs & name & data & _ & _ & _ & _ & _ & ->).
  by exists dirs, name.
Qed.

Lemma scan_tree_NoDup (t : tree) (root : path) :
  tree_wf t = true -> NoDup (map src_file (scan_tree root t)).
Proof.
  revert root. induction t as [files subs IH] using tree_ind'.
  intros root Hwf. rewrite Forall_forall in IH.
  apply tree_wf_inv in Hwf as (Hf & Hd & Hs).
  cbn [Copier.scan_tree]. rewrite map_app. apply NoDup_app. split; [|split].
  - destruct (in_excluded_directory exclude_dirs_lower root); [constructor|].
    by apply scan_files_NoDup.
  - intros p Hp1 Hp2.
    apply list_elem_of_In, in_map_iff in Hp1 as (i1 & <- & Hi1).
    apply list_elem_of_In, in_map_iff in Hp2 as (i2 & Heq & Hi2).
    destruct (in_excluded_directory exclude_dirs_lower root); [done|].
    apply scan_files_In in Hi1 as (name & data & _ & _ & _ & ->).
    apply in_flat_map in Hi2 as ([d sub] & _ & Hi2).
    destruct (in_list (lower d) exclude_dirs_lower); [done|].
    apply scan_tree_src in Hi2 as (dirs & name' & Hsrc).
    rewrite Hsrc in Heq. cbn [src_file] in Heq. unfold path_join in Heq.
    rewrite <- app_assoc in Heq. apply app_inv_head in Heq.
    cbn [app] in Heq. injection Heq as _ Heq. by destruct dirs.
  - clear Hf. induction subs as [|[d sub] subs IHs]; [constructor|].
    cbn [map fst] in Hd. apply NoDup_cons in Hd as [Hdn Hd].
    cbn [flat_map]. rewrite map_app. apply NoDup_app. split; [|split].
    + destruct (in_list (lower d) exclude_dirs_lower); [constructor|].
      apply (IH (d, sub)); [by left|]. apply (Hs d sub). by left.
    + intros p Hp1 Hp2.
      apply list_elem_of_In, in_map_iff in Hp1 as (i1 & <- & Hi1).
      apply list_elem_of_In, in_map_iff in Hp2 as (i2 & Heq & Hi2).
      destruct (in_list (lower d) exclude_dirs_lower); [done|].
      apply scan_tree_src in Hi1 as (dirs1 & name1 & Hsrc1).
      apply in_flat_map in Hi2 as ([d' sub'] & Hin' & Hi2).
      destruct (in_list (lower d') exclude_dirs_lower); [done|].
      apply scan_tree_src in Hi2 as (dirs2 & name2 & Hsrc2).
      rewrite Hsrc1, Hsrc2 in Heq. unfold path_join in Heq.
      rewrite <- !app_assoc in Heq. apply app_inv_head in Heq.
      cbn [app] in Heq. injection Heq as -> _.
      apply Hdn, list_elem_of_In, in_map_iff. by exists (d, sub').
    + apply IHs; try done.
      * intros x Hx. apply IH. by right.
      * intros d' sub' Hin'. apply (Hs d' sub'). by right.
Qed.

Lemma dest_of_app (rel : path) :
  dest_of src_dir dest_dir (src_dir ++ rel) = dest_dir ++ rel.
Proof.
  unfold dest_of. by rewrite drop_app_length.
Qed.

End manifest.

End ManifestFacts.
(** ** Completeness of the copy, and what happens to failing files *)

Module CompletenessFacts.
Import Copier CopierSpec CopierFacts ManifestFacts.

Section run.
Variables (src_tree : tree) (src_dir : path) (environment : env).

Abbreviation outcome := (outcome src_tree src_dir environment).
Abbreviation written := (written src_tree src_dir environment).
Abbreviation handed := (handed src_tree src_dir environment).
Abbreviation counted := (counted src_tree src_dir environment).
Abbreviation started := (started environment).
Abbreviation trace := (trace environment).
Abbreviation after_task := (after_task src_tree src_dir environment).
Abbreviation run_tasks := (run_tasks src_tree src_dir environment).
Abbreviation failure_record := (failure_record src_tree src_dir environment).

#[local] Arguments copy_chunks : simpl never.

Lemma run_tasks_cons (info : file_info) (l : list file_info) (st : state) :
  run_tasks (info :: l) st = run_tasks l (after_task info st).
Proof. done. Qed.

(** The counter grows by what each task has counted. *)
Lemma run_tasks_counter (l : list file_info) (st : state) :
  copied_counter (run_tasks l st)
  = copied_counter st + foldr (fun info acc => counted info + acc) 0 l.
Proof.
  revert st. induction l as [|info l IH]; intros st.
  { simpl. lia. }
  rewrite run_tasks_cons, IH. simpl. lia.
Qed.

(** A destination path holds what the tasks aiming at it agree to write. *)
Lemma run_tasks_dest (l : list file_info) (st : state) (p : path) (w : bytes) :
  (forall info, In info l -> dest_file info = p -> written info = Some w) ->
  dest (run_tasks l st) !! p
  = if existsb (fun info => bool_decide (dest_file info = p)) l
    then Some w else dest st !! p.
Proof.
  revert st. induction l as [|info l IH]; intros st Hagree; [done|].
  rewrite run_tasks_cons, IH by (intros i Hi; apply Hagree; by right).
  cbn [existsb]. destruct (existsb _ l); [by rewrite orb_true_r|].
  rewrite orb_false_r. case_bool_decide as Hp.
  - simpl. rewrite (Hagree info) by (done || by left).
    subst p. apply lookup_insert_eq.
  - simpl. destruct (written info); [|done]. by rewrite lookup_insert_ne.
Qed.

(** A task leaves every destination but its own as it is. *)
Lemma after_task_dest_other (info : file_info) (st : state) (p : path) :
  dest_file info <> p -> dest (after_task info st) !! p = dest st !! p.
Proof.
  intros Hp. simpl. destruct (written info); [|done]. by rewrite lookup_insert_ne.
Qed.

Lemma copy_starts_app (a b : list event) :
  copy_starts (a ++ b) = copy_starts a ++ copy_starts b.
Proof. apply omap_app. Qed.

(** Each started task contributes one copy attempt to the trace. *)
Lemma run_tasks_copy_starts (l : list file_info) (st : state) :
  copy_starts (events (run_tasks l st))
  = copy_starts (events st) ++ map src_file (List.filter started l).
Proof.
  revert st. induction l as [|info l IH]; intros st.
  { simpl. by rewrite app_nil_r. }
  rewrite run_tasks_cons, IH. simpl. rewrite copy_starts_app, <- app_assoc.
  f_equal. unfold CopierSpec.trace. destruct (started info); simpl; [|done].
  rewrite copy_starts_app. by destruct (dest st !! dest_file info).
Qed.

Lemma flat_map_ext_In {A B : Type} (f g : A -> list B) (l : list A) :
  (forall x, In x l -> f x = g x) -> flat_map f l = flat_map g l.
Proof.
  induction l as [|a l IH]; intros H; [done|].
  cbn [flat_map]. rewrite (H a) by (by left). rewrite IH; [done|].
  intros x Hx. apply H. by right.
Qed.

(** When no two tasks aim at the same destination, each task finds its
    destination as the operation found it: the trace is that of the tasks
    run one by one from the first state. *)
Lemma run_tasks_events (l : list file_info) (st : state) :
  NoDup (map dest_file l) ->
  events (run_tasks l st) = events st ++ flat_map (fun info => trace info st) l.
Proof.
  revert st. induction l as [|info l IH]; intros st Hnd.
  { simpl. by rewrite app_nil_r. }
  cbn [map] in Hnd. apply NoDup_cons in Hnd as [Hnew Hnd].
  rewrite run_tasks_cons, IH by done. cbn [flat_map].
  change (events (after_task info st)) with (events st ++ trace info st).
  rewrite <- app_assoc. do 2 f_equal.
  apply flat_map_ext_In. intros info' Hin.
  unfold CopierSpec.trace. rewrite after_task_dest_other; [done|].
  intros Heq. apply Hnew. rewrite Heq. apply list_elem_of_In, in_map. done.
Qed.

Lemma omap_nil_inv {A B : Type} (f : A -> option B) (l : list A) :
  omap f l = [] -> forall x, In x l -> f x = None.
Proof.
  induction l as [|a l IH]; intros Hnil x Hin; [done|].
  cbn [omap list_omap] in Hnil. destruct (f a) eqn:Hfa; [done|].
  destruct Hin as [<-|Hin]; [done|]. by apply IH.
Qed.

(** A task that ends without exception has written and counted its whole
    source. *)
Lemma succeeded_written (info : file_info) (data : bytes) :
  outcome info = None ->
  open_src src_tree src_dir (src_file info) = Ret data ->
  written info = Some data /\ counted info = Z.of_nat (length data).
Proof.
  unfold CopierSpec.outcome, CopierSpec.written, CopierSpec.counted,
    CopierSpec.handed, CopierSpec.opened.
  intros Ho Hopen.
  destruct (cancel_requested environment (src_file info)); [done|].
  rewrite Hopen in *.
  destruct (fault_of environment (src_file info)) as [|e|e|k e n|e]; try done.
  cbn [fmap option_fmap option_map default on_disk].
  by rewrite copy_chunks_complete by (lia || done).
Qed.

(** What a task counts never passes the length of its source. *)
Lemma counted_bounds (info : file_info) (data : bytes) :
  open_src src_tree src_dir (src_file info) = Ret data ->
  0 <= counted info <= Z.of_nat (length data).
Proof.
  unfold CopierSpec.counted, CopierSpec.handed, CopierSpec.opened. intros Ho.
  destruct (cancel_requested environment (src_file info)); [simpl; lia|].
  rewrite Ho.
  assert (Hw : forall f,
             0 <= Z.of_nat (length (copy_chunks (S (length data)) f 0 data [] 0).1.2)
               <= Z.of_nat (length data)).
  { intros f.
    destruct (copy_chunks_written (S (length data)) f 0 data [] 0)
      as (w' & rest & Hd & Hw' & _).
    rewrite Hw'. cbn [app]. apply (f_equal length) in Hd.
    rewrite length_app in Hd. lia. }
  destruct (fault_of environment (src_file info)) as [|e|e|k e n|e];
    cbn [fmap option_fmap option_map default]; try apply Hw; simpl; lia.
Qed.

Lemma written_same_source (a b : file_info) :
  src_file a = src_file b -> written a = written b.
Proof.
  intros H. unfold CopierSpec.written, CopierSpec.opened. by rewrite H.
Qed.

End run.

Lemma foldr_sum_perm {A : Type} (f : A -> Z) (l k : list A) :
  l ≡ₚ k ->
  foldr (fun x acc => f x + acc) 0 l = foldr (fun x acc => f x + acc) 0 k.
Proof. induction 1; simpl; lia. Qed.

Lemma total_size_perm (l k : list file_info) :
  l ≡ₚ k -> total_size l = total_size k.
Proof. apply foldr_sum_perm. Qed.

Lemma foldr_sum_ext {A : Type} (f g : A -> Z) (l : list A) :
  (forall x, In x l -> f x = g x) ->
  foldr (fun x acc => f x + acc) 0 l = foldr (fun x acc => g x + acc) 0 l.
Proof.
  induction l as [|a l IH]; intros H; simpl; [done|].
  rewrite (H a) by (by left). rewrite IH; [done|].
  intros x Hx. apply H. by right.
Qed.

Lemma processed_In (processed manifest : list file_info) (info : file_info) :
  processed ≡ₚ manifest -> In info processed <-> In info manifest.
Proof. intros H. rewrite <- !list_elem_of_In. by rewrite H. Qed.

(** Where a manifest entry comes from. *)
Lemma manifest_source (environment : env) (src_tree : tree) (src_dir dest_dir : path)
    (exclude_dirs exclude_files : option (list string)) (info : file_info) :
  In info (manifest_of environment src_tree src_dir dest_dir exclude_dirs exclude_files) ->
  exists dirs name data,
    tree_has src_tree dirs name data /\
    (forall d, In d dirs ->
       in_list (lower d) (map lower (default default_exclude_dirs exclude_dirs))
       = false) /\
    in_list (lower name) (map lower (default [] exclude_files)) = false /\
    src_file info = src_dir ++ dirs ++ [name] /\
    dest_file info = dest_dir ++ dirs ++ [name] /\
    size info = Z.of_nat (length data).
Proof.
  unfold manifest_of. intros Hin.
  apply scan_tree_In in Hin as (dirs & name & data & Hhas & Hd & _ & Hn & _ & ->).
  exists dirs, name, data. simpl. by rewrite dest_of_app.
Qed.

(** What the manifest says about one of its entries, in a well-formed
    tree: where the entry comes from and what a task that succeeds on it
    writes. *)
Lemma manifest_entry (environment : env) (src_tree : tree) (src_dir dest_dir : path)
    (exclude_dirs exclude_files : option (list string)) (info : file_info) :
  tree_wf src_tree = true ->
  In info (manifest_of environment src_tree src_dir dest_dir exclude_dirs exclude_files) ->
  exists rel data,
    src_file info = src_dir ++ rel /\
    dest_file info = dest_dir ++ rel /\
    size info = Z.of_nat (length data) /\
    open_src src_tree src_dir (src_file info) = Ret data.
Proof.
  intros Hwf Hin. unfold manifest_of in Hin.
  apply scan_tree_In in Hin as (dirs & name & data & Hhas & _ & _ & _ & _ & ->).
  exists (dirs ++ [name]), data. simpl. rewrite dest_of_app.
  repeat split; try done.
  unfold open_src. rewrite drop_app_length.
  by rewrite (tree_has_lookup _ _ _ _ Hwf Hhas).
Qed.

(** In a well-formed tree no two manifest entries have the same
    destination. *)
Lemma manifest_NoDup_dest (environment : env) (src_tree : tree)
    (src_dir dest_dir : path) (exclude_dirs exclude_files : option (list string)) :
  tree_wf src_tree = true ->
  NoDup (map dest_file
           (manifest_of environment src_tree src_dir dest_dir exclude_dirs exclude_files)).
Proof.
  intros Hwf.
  pose proof (scan_tree_NoDup src_dir dest_dir
                (map lower (default default_exclude_dirs exclude_dirs))
                (map lower (default [] exclude_files)) (getsize_fails environment)
                src_tree src_dir Hwf) as Hsrc.
  fold (manifest_of environment src_tree src_dir dest_dir exclude_dirs exclude_files)
    in Hsrc.
  set (manifest := manifest_of environment src_tree src_dir dest_dir exclude_dirs
                     exclude_files) in *.
  change (NoDup (dest_file <$> manifest)).
  change (NoDup (src_file <$> manifest)) in Hsrc.
  apply NoDup_fmap_2_strong; [|by apply NoDup_fmap_1 in Hsrc].
  intros a b Ha Hb Hd.
  apply list_elem_of_In in Ha, Hb.
  destruct (manifest_entry _ _ _ _ _ _ a Hwf Ha) as (ra & da & Hsa & Hda & _ & _).
  destruct (manifest_entry _ _ _ _ _ _ b Hwf Hb) as (rb & db & Hsb & Hdb & _ & _).
  rewrite Hda, Hdb in Hd. apply app_inv_head in Hd. subst rb.
  assert (Hs : src_file a = src_file b) by congruence.
  clear -Hsrc Ha Hb Hs.
  induction manifest as [|x l IH]; [done|].
  cbn [fmap list_fmap] in Hsrc. apply NoDup_cons in Hsrc as [Hx Hl].
  destruct Ha as [<-|Ha], Hb as [<-|Hb]; try done.
  - exfalso. apply Hx. rewrite Hs. apply list_elem_of_In, in_map. done.
  - exfalso. apply Hx. rewrite <- Hs. apply list_elem_of_In, in_map. done.
  - by apply IH.
Qed.

(** The state a copy operation ends in. *)
Lemma copy_directory_parallel_state (src_tree : tree) (src_dir dest_dir : path)
    (environment : env) (completion : list file_info -> list file_info)
    (exclude_dirs exclude_files : option (list string)) (dest0 : gmap path bytes) :
  (forall l, completion l ≡ₚ l) ->
  exists processed,
    processed
    ≡ₚ manifest_of environment src_tree src_dir dest_dir exclude_dirs exclude_files /\
    (copy_directory_parallel src_tree src_dir environment completion dest_dir
       exclude_dirs exclude_files dest0).2
    = CopierSpec.run_tasks src_tree src_dir environment processed
        (mk_state dest0 0 [] []).
Proof.
  intros Hperm. unfold copy_directory_parallel.
  fold (manifest_of environment src_tree src_dir dest_dir exclude_dirs exclude_files).
  destruct (manifest_of environment src_tree src_dir dest_dir exclude_dirs exclude_files)
    as [|info0 rest] eqn:Hm.
  { by exists []. }
  exists (completion (sort_by_size (info0 :: rest))). split.
  { by rewrite Hperm, sort_by_size_perm. }
  pose proof (foldl_collect src_tree src_dir environment
                (completion (sort_by_size (info0 :: rest))) 0
                (mk_state dest0 0 [] [])) as Hfold.
  destruct (foldl _ _ _) as [fc st]. simpl in Hfold. subst st.
  by destruct (too_many_failures _ _).
Qed.

Section operation.
Variables (src_tree : tree) (src_dir dest_dir : path) (environment : env).
Variable completion : list file_info -> list file_info.
Variables (exclude_dirs exclude_files : option (list string)).
Variable dest0 : gmap path bytes.
Hypothesis completion_perm : forall l, completion l ≡ₚ l.

Abbreviation manifest :=
  (manifest_of environment src_tree src_dir dest_dir exclude_dirs exclude_files).
Abbreviation result :=
  (copy_directory_parallel src_tree src_dir environment completion dest_dir
     exclude_dirs exclude_files dest0).

(** Every exception of a task is filed. *)
Lemma failure_recorded (info : file_info) (e : exn) :
  In info manifest ->
  outcome src_tree src_dir environment info = Some e ->
  In (src_file info, str_exn e) (failed_files result.2).
Proof.
  intros Hin Ho.
  destruct (copy_directory_parallel_state src_tree src_dir dest_dir environment
              completion exclude_dirs exclude_files dest0 completion_perm)
    as (processed & Hproc & ->).
  rewrite run_tasks_failed_files. simpl.
  apply list_elem_of_In, list_elem_of_omap. exists info. split.
  - rewrite Hproc. by apply list_elem_of_In.
  - unfold CopierSpec.failure_record. by rewrite Ho.
Qed.

(** An entry that is not on the failure list ended without exception. *)
Lemma not_listed_succeeded (info : file_info) :
  In info manifest ->
  ~ In (src_file info) (map fst (failed_files result.2)) ->
  outcome src_tree src_dir environment info = None.
Proof.
  intros Hin Hnot.
  destruct (outcome src_tree src_dir environment info) as [e|] eqn:Ho; [|done].
  exfalso. apply Hnot. apply in_map_iff.
  exists (src_file info, str_exn e). split; [done|]. by apply failure_recorded.
Qed.

(** What a manifest entry leaves at its destination stays there. *)
Lemma dest_holds_written (info : file_info) (w : bytes) :
  In info manifest ->
  written src_tree src_dir environment info = Some w ->
  dest result.2 !! dest_file info = Some w.
Proof.
  intros Hin Hw.
  destruct (copy_directory_parallel_state src_tree src_dir dest_dir environment
              completion exclude_dirs exclude_files dest0 completion_perm)
    as (processed & Hproc & ->).
  rewrite (run_tasks_dest src_tree src_dir environment processed _ _ w).
  - replace (existsb _ processed) with true; [done|].
    symmetry. apply existsb_exists. exists info.
    split; [by apply (processed_In _ _ _ Hproc)|]. by apply bool_decide_eq_true_2.
  - intros info' Hin' Hd. apply (processed_In _ _ _ Hproc) in Hin'.
    rewrite <- Hw. apply written_same_source.
    apply manifest_source in Hin as (dirs & name & data & _ & _ & _ & Hs & Hdest & _).
    apply manifest_source in Hin'
      as (dirs' & name' & data' & _ & _ & _ & Hs' & Hdest' & _).
    rewrite Hdest, Hdest' in Hd. apply app_inv_head in Hd. congruence.
Qed.

(** The copy attempts of the trace. *)
Lemma copy_starts_of_result :
  copy_starts (events result.2)
  ≡ₚ map src_file (filter (fun info => started environment info = true) manifest).
Proof.
  destruct (copy_directory_parallel_state src_tree src_dir dest_dir environment
              completion exclude_dirs exclude_files dest0 completion_perm)
    as (processed & Hproc & ->).
  rewrite run_tasks_copy_starts. simpl.
  assert (Hf : forall l : list file_info,
             List.filter (started environment) l
             = filter (fun info => started environment info = true) l).
  { induction l as [|a l IH]; [done|]. simpl. rewrite filter_cons, IH.
    destruct (started environment a); by simplify_option_eq. }
  rewrite Hf. by rewrite Hproc.
Qed.

(** The whole trace, in a well-formed tree. *)
Lemma events_of_result :
  tree_wf src_tree = true ->
  exists processed,
    processed ≡ₚ manifest /\
    events result.2
    = flat_map (fun info => trace environment info (mk_state dest0 0 [] []))
               processed.
Proof.
  intros Hwf.
  destruct (copy_directory_parallel_state src_tree src_dir dest_dir environment
              completion exclude_dirs exclude_files dest0 completion_perm)
    as (processed & Hproc & ->).
  exists processed. split; [done|].
  rewrite run_tasks_events; [done|].
  assert (Hp : map dest_file processed ≡ₚ map dest_file manifest)
    by (by apply Permutation_map).
  rewrite Hp. by apply manifest_NoDup_dest.
Qed.

(** The counter at the end. *)
Lemma counter_of_result :
  copied_counter result.2
  = foldr (fun info acc => counted src_tree src_dir environment info + acc) 0 manifest.
Proof.
  destruct (copy_directory_parallel_state src_tree src_dir dest_dir environment
              completion exclude_dirs exclude_files dest0 completion_perm)
    as (processed & Hproc & ->).
  rewrite run_tasks_counter. cbn [copied_counter]. rewrite Z.add_0_l.
  by apply foldr_sum_perm.
Qed.

End operation.

(** C6 (as the code has it) — in a tree that lists no name twice, after a
    copy, whether it returns success or not, every file whose name is not
    excluded, whose directory path contains no excluded directory name
    (names and exclusion entries being ASCII), whose size could be read
    when the manifest was built and whose path is not on the failure list
    has a copy with the same bytes at the same relative path under the
    destination.  The counter is the sum of what
    the tasks counted: the full size for every entry that is not on the
    failure list, at most the size for the others; with an empty failure
    list it equals the total size of the manifest. *)
Theorem copy_completeness (src_tree : tree) (src_dir dest_dir : path)
    (environment : env) (completion : list file_info -> list file_info)
    (exclude_dirs exclude_files : option (list string)) (dest0 : gmap path bytes) :
  tree_wf src_tree = true ->
  (forall l, completion l ≡ₚ l) ->
  let manifest :=
    manifest_of environment src_tree src_dir dest_dir exclude_dirs exclude_files in
  let result :=
    copy_directory_parallel src_tree src_dir environment completion dest_dir
      exclude_dirs exclude_files dest0 in
  let listed := map fst (failed_files result.2) in
  (forall dirs name data,
      tree_has src_tree dirs name data ->
      ascii_names (name :: dirs ++ src_dir) = true ->
      ascii_names (default default_exclude_dirs exclude_dirs
                   ++ default [] exclude_files) = true ->
      in_list (lower name) (map lower (default [] exclude_files)) = false ->
      in_excluded_directory (map lower (default default_exclude_dirs exclude_dirs))
                            (src_dir ++ dirs) = false ->
      getsize_fails environment (src_dir ++ dirs ++ [name]) = false ->
      ~ In (src_dir ++ dirs ++ [name]) listed ->
      dest result.2 !! (dest_dir ++ dirs ++ [name]) = Some data) /\
  copied_counter result.2
  = foldr (fun info acc => counted src_tree src_dir environment info + acc) 0 manifest /\
  (forall info, In info manifest ->
      0 <= counted src_tree src_dir environment info <= size info /\
      (~ In (src_file info) listed ->
       counted src_tree src_dir environment info = size info)) /\
  (failed_files result.2 = [] -> copied_counter result.2 = total_size manifest).
Proof.
  intros Hwf Hperm manifest result listed.
  assert (Hentry : forall info, In info manifest ->
             0 <= counted src_tree src_dir environment info <= size info /\
             (~ In (src_file info) listed ->
              counted src_tree src_dir environment info = size info)).
  { intros info Hin.
    destruct (manifest_entry _ _ _ _ _ _ info Hwf Hin) as (rel & data & _ & _ & Hz & Ho).
    rewrite Hz. split; [by apply counted_bounds|].
    intros Hnot. apply succeeded_written; [|done].
    by apply (not_listed_succeeded src_tree src_dir dest_dir environment completion
                exclude_dirs exclude_files dest0 Hperm). }
  split; [|split; [|split]].
  - intros dirs name data Hhas _ _ Hname Hdir Hsize Hnot.
    pose proof (scan_tree_complete src_dir dest_dir _ _ _ src_tree src_dir dirs name
                  data Hhas Hdir Hname Hsize) as Hin.
    set (info0 := mk_info (src_dir ++ dirs ++ [name])
                    (dest_of src_dir dest_dir (src_dir ++ dirs ++ [name]))
                    (Z.of_nat (length data))) in *.
    change (In info0 manifest) in Hin.
    assert (Hopen : open_src src_tree src_dir (src_file info0) = Ret data).
    { unfold open_src. simpl. rewrite drop_app_length.
      by rewrite (tree_has_lookup _ _ _ _ Hwf Hhas). }
    assert (Hout : outcome src_tree src_dir environment info0 = None).
    { by apply (not_listed_succeeded src_tree src_dir dest_dir environment completion
                  exclude_dirs exclude_files dest0 Hperm). }
    destruct (succeeded_written src_tree src_dir environment info0 data Hout Hopen)
      as [Hw _].
    pose proof (dest_holds_written src_tree src_dir dest_dir environment completion
                  exclude_dirs exclude_files dest0 Hperm info0 data Hin Hw) as Hd.
    simpl in Hd. by rewrite dest_of_app in Hd.
  - by apply counter_of_result.
  - exact Hentry.
  - intros Hnil. unfold result.
    rewrite counter_of_result by done. unfold total_size.
    apply foldr_sum_ext. intros info Hin.
    apply (Hentry info Hin). unfold listed. rewrite Hnil. by intros [].
Qed.

Lemma copy_completeness_witness :
  dest (copy_directory_parallel ten_files ["src"]%string quiet (fun l => l)
          ["dst"]%string None None ∅).2 !! ["dst"; "f3"]%string = Some [x03].
Proof.
  destruct (copy_completeness ten_files ["src"]%string ["dst"]%string quiet
              (fun l => l) None None ∅) as [Hfiles _].
  - reflexivity.
  - intros l. reflexivity.
  - apply (Hfiles [] "f3"%string [x03]).
    + simpl. tauto.
    + reflexivity.
    + reflexivity.
    + reflexivity.
    + reflexivity.
    + reflexivity.
    + vm_compute. tauto.
Defined.

(** The claim as the specification words it fails on the code: a copy that
    returns success may have left a file out (one failure in ten is
    tolerated), with the counter short of the manifest size; a file
    under a directory that merely contains an excluded name ("Resources"
    contains "source") is left out although no ancestor is excluded by
    name; and a file whose size cannot be read is left out of the
    manifest without being filed as a failure. *)
Lemma success_does_not_imply_completeness :
  let tolerated := copy_directory_parallel ten_files ["src"]%string
                     permission_error_at_f9 (fun l => l) ["dst"]%string None None ∅ in
  let substring := copy_directory_parallel with_resources ["src"]%string
                     quiet (fun l => l) ["dst"]%string None None ∅ in
  let unreadable := copy_directory_parallel ten_files ["src"]%string
                      size_unreadable_at_f9 (fun l => l) ["dst"]%string None None ∅ in
  (tolerated.1 = Ret true /\
   tree_has ten_files [] "f9" [x09] /\
   excluded_by_name default_exclude_dirs [] [] "f9" = false /\
   dest tolerated.2 !! ["dst"; "f9"]%string = None /\
   copied_counter tolerated.2 = 9 /\
   total_size (manifest_of permission_error_at_f9 ten_files ["src"]%string
                 ["dst"]%string None None) = 10) /\
  (substring.1 = Ret true /\
   failed_files substring.2 = [] /\
   tree_has with_resources ["Resources"]%string "r.bin" [x04; x05; x06] /\
   excluded_by_name default_exclude_dirs [] ["Resources"]%string "r.bin" = false /\
   dest substring.2 !! ["dst"; "Resources"; "r.bin"]%string = None) /\
  (unreadable.1 = Ret true /\
   failed_files unreadable.2 = [] /\
   tree_has ten_files [] "f9" [x09] /\
   excluded_by_name default_exclude_dirs [] [] "f9" = false /\
   dest unreadable.2 !! ["dst"; "f9"]%string = None).
Proof.
  split; [|split].
  - repeat split; try reflexivity. simpl. tauto.
  - repeat split; try reflexivity. simpl. eexists. split; [by left|]. simpl. tauto.
  - repeat split; try reflexivity. simpl. tauto.
Qed.

(** C7 (as the code has it) — in the parallel copier every exception of a
    task, a permission error like any other, is filed in [failed_files],
    and the trace holds one copy attempt for each task that got as far as
    copying: no file is attempted a second time, and the files after a
    failing one are attempted all the same.  In a tree that lists no name
    twice the whole trace is, task by task in the order of completion,
    the clearing of the read-only attribute of the destination when the
    destination was there before the operation, followed by the one copy
    attempt. *)
Theorem every_exception_recorded_without_retry (src_tree : tree)
    (src_dir dest_dir : path) (environment : env)
    (completion : list file_info -> list file_info)
    (exclude_dirs exclude_files : option (list string)) (dest0 : gmap path bytes) :
  (forall l, completion l ≡ₚ l) ->
  let manifest :=
    manifest_of environment src_tree src_dir dest_dir exclude_dirs exclude_files in
  let result :=
    copy_directory_parallel src_tree src_dir environment completion dest_dir
      exclude_dirs exclude_files dest0 in
  (forall info e,
      In info manifest ->
      outcome src_tree src_dir environment info = Some e ->
      In (src_file info, str_exn e) (failed_files result.2)) /\
  copy_starts (events result.2)
  ≡ₚ map src_file (filter (fun info => started environment info = true) manifest) /\
  (tree_wf src_tree = true ->
   exists processed,
     processed ≡ₚ manifest /\
     events result.2
     = flat_map (fun info =>
                   if started environment info then
                     match dest0 !! dest_file info with
                     | Some _ => [ReadonlyCleared (dest_file info)]
                     | None => []
                     end ++ [CopyStarted (src_file info)]
                   else [])
                processed).
Proof.
  intros Hperm manifest result. split; [|split].
  - intros info e Hin Ho. by apply failure_recorded.
  - by apply copy_starts_of_result.
  - intros Hwf. by apply events_of_result.
Qed.

Lemma every_exception_recorded_without_retry_witness :
  In (["src"; "f9"]%string, "Permission denied"%string)
     (failed_files (copy_directory_parallel ten_files ["src"]%string
                      permission_error_at_f9 (fun l => l) ["dst"]%string
                      None None ∅).2).
Proof.
  destruct (every_exception_recorded_without_retry ten_files ["src"]%string
              ["dst"]%string permission_error_at_f9 (fun l => l) None None ∅)
    as [Hrec _].
  - intros l. reflexivity.
  - apply (Hrec (mk_info ["src"; "f9"]%string ["dst"; "f9"]%string 1)
                (PermissionError "Permission denied")).
    + vm_compute. tauto.
    + reflexivity.
Defined.

(** The claim as the specification words it fails on the code: the task of
    [f9] hits a permission error when it opens its destination, its copy
    is attempted once and not retried, and the file is filed as failed. *)
Lemma permission_error_is_not_retried :
  let result := copy_directory_parallel ten_files ["src"]%string
                  permission_error_at_f9 (fun l => l) ["dst"]%string None None ∅ in
  outcome ten_files ["src"]%string permission_error_at_f9
          (mk_info ["src"; "f9"]%string ["dst"; "f9"]%string 1)
  = Some (PermissionError "Permission denied") /\
  ~ retried_once result.2 ["src"; "f9"]%string /\
  copy_starts (events result.2)
  = [ ["src"; "f0"]; ["src"; "f1"]; ["src"; "f2"]; ["src"; "f3"]; ["src"; "f4"];
      ["src"; "f5"]; ["src"; "f6"]; ["src"; "f7"]; ["src"; "f8"];
      ["src"; "f9"] ]%string /\
  failed_files result.2 = [(["src"; "f9"]%string, "Permission denied"%string)].
Proof.
  repeat split; try reflexivity.
  unfold retried_once. vm_compute. discriminate.
Qed.

(** *** Cancellation *)




(** *** The sequential copier, for comparison *)

(** [copy_directory_with_progress] is where the retry lives: the same
    permission error at [f9] leads to a second attempt there, and the file
    is copied. *)
Example sequential_copier_retries_once :
  let result := copy_loop_sequential ten_files ["src"]%string permission_error_at_f9
                  retry_succeeds (total_size ten_manifest) ten_manifest
                  initial_state in
  result.1 = Ret tt /\
  retried_once result.2 ["src"; "f9"]%string /\
  dest result.2 !! ["dst"; "f9"]%string = Some [x09].
Proof. repeat split; reflexivity. Qed.

(** There an exception that is not a permission error ends the whole
    copy, and so does the cancellation signal. *)
Example sequential_copier_propagates :
  (copy_loop_sequential ten_files ["src"]%string
     (mk_env (fun _ => false) (fun _ => FailOpen (OSError "No space left on device"))
             sizes_readable)
     retry_succeeds (total_size ten_manifest) ten_manifest initial_state).1
  = Raise (OSError "No space left on device") /\
  (copy_loop_sequential ten_files ["src"]%string cancel_at_f9
     retry_succeeds (total_size ten_manifest) ten_manifest initial_state).1
  = Raise (InterruptedError "Installation cancelled by user").
Proof. split; reflexivity. Qed.

End CompletenessFacts.

(** ** Further properties: header codec and normaliser *)

Module DowngraderMoreFacts.
Import FalloutVRDowngrader NormaliserSpec NormaliserFacts DowngraderMore.

Lemma lor_range (a b n : Z) :
  0 <= n -> 0 <= a < 2 ^ n -> 0 <= b < 2 ^ n -> 0 <= Z.lor a b < 2 ^ n.
Proof.
  intros Hn Ha Hb. split; [apply Z.lor_nonneg; lia|].
  destruct (decide (Z.lor a b = 0)) as [->|Hz]; [lia|].
  assert (0 <= Z.lor a b) by (apply Z.lor_nonneg; lia).
  apply Z.log2_lt_pow2; [lia|].
  rewrite Z.log2_lor by lia.
  assert (Hlog : forall x, 0 <= x < 2 ^ n -> 0 < n -> Z.log2 x < n).
  { intros x Hx Hpos. destruct (decide (x = 0)) as [->|Hx0]; [by simpl|].
    apply Z.log2_lt_pow2; lia. }
  assert (0 < n).
  { destruct (decide (n = 0)) as [->|]; [|lia].
    assert (a = 0) by lia. assert (b = 0) by lia. subst. done. }
  apply Z.max_lub_lt; apply Hlog; lia.
Qed.

Lemma shiftl_byte_range (b k : Z) :
  0 <= k -> 0 <= b < 256 -> 0 <= Z.shiftl b k < 2 ^ (k + 8).
Proof.
  intros Hk Hb. rewrite Z.shiftl_mul_pow2 by lia.
  rewrite Z.pow_add_r by lia. change (2 ^ 8) with 256.
  assert (0 < 2 ^ k) by (apply Z.pow_pos_nonneg; lia). nia.
Qed.

Lemma unpack_I_range (b : bytes) (v : Z) :
  struct.unpack_I b = Ret v -> 0 <= v < 2 ^ 32.
Proof.
  destruct b as [|b0 [|b1 [|b2 [|b3 [|b4 b]]]]]; try done.
  intros [= <-].
  pose proof (byte_val_range b0). pose proof (byte_val_range b1).
  pose proof (byte_val_range b2). pose proof (byte_val_range b3).
  pose proof (shiftl_byte_range (byte_val b1) 8).
  pose proof (shiftl_byte_range (byte_val b2) 16).
  pose proof (shiftl_byte_range (byte_val b3) 24).
  assert (Hmono : forall x k, 0 <= k <= 32 -> 0 <= x < 2 ^ k -> 0 <= x < 2 ^ 32).
  { intros x k Hk Hx. split; [lia|].
    apply Z.lt_le_trans with (2 ^ k); [lia|]. apply Z.pow_le_mono_r; lia. }
  assert (0 <= Z.shiftl (byte_val b1) 8 < 2 ^ 32) by (apply (Hmono _ 16); lia).
  assert (0 <= Z.shiftl (byte_val b2) 16 < 2 ^ 32) by (apply (Hmono _ 24); lia).
  assert (0 <= Z.shiftl (byte_val b3) 24 < 2 ^ 32) by (apply (Hmono _ 32); lia).
  assert (0 <= byte_val b0 < 2 ^ 32) by (apply (Hmono _ 8); lia).
  repeat apply lor_range; lia.
Qed.

(** X1 — a header returned by [from_file] comes from a file of at least
    sixteen bytes, carries the magic tag, a four-byte format tag, and a
    version and a file count within the range of an unsigned 32-bit
    integer. *)
Theorem from_file_header_valid (s : fs) (p : path) (h : BA2Header) :
  BA2.from_file s p = Ret (Some h) ->
  magic h = BTDX /\
  0 <= version h < 2 ^ 32 /\
  0 <= file_count h < 2 ^ 32 /\
  length (format h) = 4%nat /\
  exists d, s !! p = Some (File d) /\ (16 <= length d)%nat.
Proof.
  intros Hh.
  destruct (from_file_Some _ _ _ Hh) as (d & v & c & Hp & Hlen & Hm & Hv & Hc & ->).
  simpl. split; [done|].
  split; [by eapply unpack_I_range|]. split; [by eapply unpack_I_range|].
  split; [rewrite slice_length; lia|]. eauto.
Qed.

Lemma from_file_header_valid_witness :
  magic (mkBA2Header BTDX 8 [x47; x4e; x52; x4c] 2) = BTDX /\
  0 <= version (mkBA2Header BTDX 8 [x47; x4e; x52; x4c] 2) < 2 ^ 32.
Proof.
  destruct (from_file_header_valid example_data_dir
              ["Data"; "DLCRobot - Main.ba2"]%string
              (mkBA2Header BTDX 8 [x47; x4e; x52; x4c] 2)) as (Hm & Hv & _).
  - vm_compute. reflexivity.
  - exact (conj Hm Hv).
Defined.

Section refusals.
Context {E : os_faults}.

Lemma can_update_true (q : path) : can_update q = true <-> open_rw_fault q = None.
Proof. unfold can_update. destruct (open_rw_fault q); split; done. Qed.

Lemma can_update_false (q : path) :
  can_update q = false <-> is_Some (open_rw_fault q).
Proof.
  unfold can_update. destruct (open_rw_fault q); split; done.
Qed.

(** The outcomes of [downgrade_ba2_file]. *)
Lemma downgrade_ba2_file_cases (p : path) (s : fs) :
  exists (ok : bool) (s' : fs),
    downgrade_ba2_file p s = (Ret ok, s') /\
    (ok = true <->
     exists h, BA2.from_file s p = Ret (Some h) /\
               (version h = 1 \/
                ((version h = 7 \/ version h = 8) /\ open_rw_fault p = None))) /\
    (forall q, q <> p -> s' !! q = s !! q) /\
    (forall h, BA2.from_file s p = Ret (Some h) ->
               is_next_gen_version (version h) = true ->
               open_rw_fault p = None ->
               BA2.from_file s' p
               = Ret (Some (mkBA2Header (magic h) 1 (format h) (file_count h)))) /\
    (ng s p = false \/ is_Some (open_rw_fault p) -> s' = s).
Proof.
  unfold downgrade_ba2_file, mtry, mbind, mread, ng.
  destruct (from_file_never_raises s p) as [o Ho]. rewrite Ho.
  destruct o as [h|].
  2:{ simpl. exists false, s. repeat split; try done. intros (h & Hh & _). done. }
  assert (Hver : is_next_gen_version (version h) = true <->
                 version h = 8 \/ version h = 7).
  { unfold is_next_gen_version. rewrite orb_true_iff, !bool_decide_eq_true. done. }
  cbn [BA2.header_is_next_gen].
  remember (is_next_gen_version (version h)) as nextgen eqn:Hng. symmetry in Hng.
  simpl.
  case_bool_decide as H1.
  { exists true, s. repeat split; try done.
    - intros _. exists h. split; [done|]. by left.
    - intros h' [= <-] Hng'. rewrite Hng in Hng'. apply Hver in Hng'.
      unfold ArchiveVersionEnum.FALLOUT_4 in H1. lia. }
  destruct nextgen; simpl.
  2:{ exists false, s. repeat split; try done.
      - intros (h' & [= <-] & Hv). assert (Hn : ~ (version h = 8 \/ version h = 7)).
        { by rewrite <- Hver. }
        unfold ArchiveVersionEnum.FALLOUT_4 in H1. lia.
      - intros h' [= <-] Hng'. congruence. }
  destruct (from_file_Some _ _ _ Ho) as (d & v & c & Hp & Hlen & _).
  destruct (open_rw_fault p) as [e|] eqn:Hopen.
  { destruct (write_version_code_refused s p ArchiveVersionEnum.FALLOUT_4 e Hopen)
      as [e' Hw].
    rewrite Hw. simpl. exists false, s. repeat split; try done.
    intros (h' & [= <-] & [Hv|[_ Hnone]]); [|done].
    unfold ArchiveVersionEnum.FALLOUT_4 in H1. lia. }
  destruct (write_version_code_file s p d ArchiveVersionEnum.FALLOUT_4 Hp Hopen)
    as (b & Hb & Hw); [done|].
  rewrite Hw. simpl. eexists true, _. split; [done|]. repeat split; try done.
  - intros _. exists h. split; [done|]. destruct Hver as [Hver _].
    specialize (Hver eq_refl). right. split; [lia|done].
  - intros q Hq. by rewrite lookup_insert_ne.
  - intros h' [= <-] _ _. by apply (from_file_after_write s p d b h _ Hp Ho Hb).
  - intros [?|[? ?]]; done.
Qed.

Lemma known_version_cases (v : Z) : known_version v <-> v = 1 \/ v = 7 \/ v = 8.
Proof.
  unfold known_version, is_next_gen_version, ArchiveVersionEnum.FALLOUT_4,
    ArchiveVersionEnum.FALLOUT_4_NG, ArchiveVersionEnum.FALLOUT_4_NG2.
  rewrite orb_true_iff, !bool_decide_eq_true. lia.
Qed.

Lemma downgraded_compatible (h : BA2Header) :
  version h = ArchiveVersionEnum.FALLOUT_4 -> downgraded h = h.
Proof. destruct h as [m v f c]. unfold downgraded. simpl. by intros ->. Qed.

Lemma known_version_downgraded (h : BA2Header) : known_version (version (downgraded h)).
Proof. by left. Qed.

Lemma downgrades_nil (s : fs) : downgrades [] s s.
Proof.
  split; [done|]. intros q h Hh Hk. split; [done|]. by left.
Qed.

Lemma downgrades_app (l1 l2 : list path) (s s1 s2 : fs) :
  downgrades l1 s s1 -> downgrades l2 s1 s2 -> downgrades (l1 ++ l2) s s2.
Proof.
  intros [Hu1 Hd1] [Hu2 Hd2]. split.
  - intros q Hq. rewrite List.filter_app, in_app_iff in Hq.
    rewrite Hu2, Hu1; tauto.
  - intros q h Hh Hk. destruct (Hd1 q h Hh Hk) as [Hin1 Hor1].
    assert (Hd : forall h', BA2.from_file s1 q = Ret (Some (downgraded h')) ->
                 BA2.from_file s2 q = Ret (Some (downgraded h'))).
    { intros h' H1.
      destruct (Hd2 q _ H1 (known_version_downgraded h')) as [_ [H2|[_ H2]]]; done. }
    split.
    + rewrite in_app_iff. intros [Hq|Hq] Hcan; [by apply Hd, Hin1|].
      destruct Hor1 as [H1|[_ H1]]; [|by apply Hd].
      by apply (Hd2 q h H1 Hk).
    + destruct Hor1 as [H1|[Hcan H1]]; [|right; split; [done|by apply Hd]].
      by apply (Hd2 q h H1 Hk).
Qed.

(** One call, in the terms of [downgrades]; on an archive of a known
    version it reports success when the version is the compatible one or
    the file can be opened for update. *)
Lemma downgrade_ba2_file_downgrades (p : path) (s : fs) :
  exists (ok : bool) (s' : fs),
    downgrade_ba2_file p s = (Ret ok, s') /\ downgrades [p] s s' /\
    (forall h, BA2.from_file s p = Ret (Some h) -> known_version (version h) ->
       ok = bool_decide (version h = 1) || can_update p).
Proof.
  destruct (downgrade_ba2_file_cases p s) as (ok & s' & Hrun & Hok & Hout & Hng & Hsame).
  exists ok, s'. split; [done|]. split; [split|].
  - intros q Hq. destruct (decide (q = p)) as [->|Hne]; [|by apply Hout].
    rewrite Hsame; [done|]. right. apply can_update_false.
    destruct (can_update p) eqn:Hcan; [|done].
    exfalso. apply Hq. cbn [List.filter]. rewrite Hcan. by left.
  - intros q h Hh Hk.
    destruct (decide (q = p)) as [->|Hne].
    + destruct Hk as [Hv|Hv].
      * assert (s' = s) as ->.
        { apply Hsame. left. unfold ng. rewrite Hh. simpl.
          unfold is_next_gen_version. rewrite Hv. done. }
        rewrite downgraded_compatible by done. split; [done|by left].
      * destruct (can_update p) eqn:Hcan.
        -- apply can_update_true in Hcan. specialize (Hng h Hh Hv Hcan).
           split; [done|]. right. done.
        -- apply can_update_false in Hcan. rewrite Hsame by (by right).
           split; [done|by left].
    + assert (BA2.from_file s' q = Ret (Some h)) as Hq.
      { rewrite <- Hh. apply from_file_ext. by apply Hout. }
      split; [|by left]. intros [->|[]]. done.
  - intros h Hh Hk. apply known_version_cases in Hk.
    destruct ok.
    + destruct Hok as [Hok _]. destruct (Hok eq_refl) as (h' & Hh' & Hv).
      assert (h' = h) as -> by congruence.
      destruct Hv as [->|[_ Hnone]]; [done|].
      apply can_update_true in Hnone. rewrite Hnone. by rewrite orb_true_r.
    + symmetry. apply orb_false_iff. split.
      * apply bool_decide_eq_false. intros Hv.
        destruct Hok as [_ Hok]. discriminate Hok. eauto.
      * destruct (can_update p) eqn:Hcan; [|done].
        apply can_update_true in Hcan.
        destruct Hok as [_ Hok]. discriminate Hok.
        exists h. split; [done|].
        destruct Hk as [?|Hk]; [by left|right]. done.
Qed.

(** The inner loop over files that hold a next-gen archive, or one that
    an earlier call has downgraded: a call reports success exactly on the
    files that can be opened for update. *)
Lemma downgrade_group_all (files : list path) :
  forall (success_count : Z) (done_files : list path) (s : fs),
    (forall p, In p files ->
       exists h, BA2.from_file s p = Ret (Some h) /\
         (is_next_gen_version (version h) = true \/
          (version h = 1 /\ can_update p = true))) ->
    exists s',
      mfor files (success_count, done_files)
        (fun '(success_count, downgraded_files) file_path =>
           (ok <- downgrade_ba2_file file_path ;;
            mret (if ok : bool
                  then (success_count + 1, downgraded_files ++ [file_path])
                  else (success_count, downgraded_files)))%M) s
      = (Ret (success_count + Z.of_nat (length (List.filter can_update files)),
              done_files ++ List.filter can_update files), s') /\
      downgrades files s s'.
Proof.
  induction files as [|x l IH]; intros sc dfs s Hall.
  - exists s. simpl. unfold mret. rewrite Z.add_0_r, app_nil_r.
    split; [done|]. apply downgrades_nil.
  - cbn [mfor]. unfold mbind at 1. unfold mbind at 1.
    destruct (downgrade_ba2_file_downgrades x s) as (ok & s1 & -> & Hd1 & Hok).
    destruct (Hall x (or_introl eq_refl)) as (hx & Hhx & Hvx).
    assert (Hokx : ok = can_update x).
    { rewrite (Hok hx Hhx).
      - destruct Hvx as [Hv|[Hv Hcan]].
        + rewrite bool_decide_eq_false_2; [done|].
          intros H1. rewrite H1 in Hv. by vm_compute in Hv.
        + by rewrite Hcan, orb_true_r.
      - destruct Hvx as [Hv|[Hv _]]; [by right|by left]. }
    unfold mret at 1.
    assert (Hrest : forall p, In p l ->
              exists h, BA2.from_file s1 p = Ret (Some h) /\
                (is_next_gen_version (version h) = true \/
                 (version h = 1 /\ can_update p = true))).
    { intros p Hp. destruct (Hall p (or_intror Hp)) as (h & Hh & Hv).
      assert (Hk : known_version (version h)).
      { destruct Hv as [Hv|[Hv _]]; [by right|by left]. }
      destruct Hd1 as [_ Hd1]. destruct (Hd1 p h Hh Hk) as [_ [H1|[Hcan H1]]].
      - eauto.
      - exists (downgraded h). split; [done|]. right. done. }
    cbn [List.filter]. rewrite <- Hokx. destruct ok.
    + destruct (IH (sc + 1) (dfs ++ [x]) s1 Hrest) as (s2 & -> & Hd2).
      exists s2. split.
      * rewrite <- app_assoc. cbn [app]. do 3 f_equal.
        rewrite length_cons, Nat2Z.inj_succ. lia.
      * by apply (downgrades_app [x] l s s1 s2).
    + destruct (IH sc dfs s1 Hrest) as (s2 & -> & Hd2).
      exists s2. split; [done|].
      by apply (downgrades_app [x] l s s1 s2).
Qed.

Lemma downgrade_group_known (files : list path) (success_count : Z) (s : fs) :
  (forall p, In p files ->
     exists h, BA2.from_file s p = Ret (Some h) /\
       (is_next_gen_version (version h) = true \/
        (version h = 1 /\ can_update p = true))) ->
  exists s',
    downgrade_group files success_count s
    = (Ret (success_count + Z.of_nat (length (List.filter can_update files)),
            List.filter can_update files), s') /\
    downgrades files s s'.
Proof. intros H. apply (downgrade_group_all files success_count [] s H). Qed.

End refusals.

Lemma ng_known (s : fs) (q : path) :
  ng s q = true <->
  exists h, BA2.from_file s q = Ret (Some h) /\ is_next_gen_version (version h) = true.
Proof.
  unfold ng, BA2.header_is_next_gen.
  destruct (BA2.from_file s q) as [[h|]|e]; split; try done.
  - eauto.
  - by intros (h' & [= <-] & H).
  - by intros (h' & ? & _).
  - by intros (h' & ? & _).
Qed.

Lemma in_catalogue_spec (q : path) :
  in_catalogue q = true <->
  exists name prefixes, In (name, prefixes) dlc_groups /\ belongs_to prefixes q = true.
Proof.
  unfold in_catalogue. rewrite existsb_exists. split.
  - intros ([name prefixes] & Hin & Hb). eauto.
  - intros (name & prefixes & Hin & Hb). exists (name, prefixes). eauto.
Qed.

(** Membership in the work list. *)
Lemma worklist_iff (self : t) (s : fs) (q : path) :
  In q (worklist self s) <->
  In q (glob_ba2 s (data_path self)) /\ in_catalogue q = true /\ ng s q = true.
Proof.
  split.
  - unfold worklist. rewrite in_concat. intros (files & Hfiles & Hq).
    apply in_map_iff in Hfiles. destruct Hfiles as ([name files'] & <- & Hin).
    destruct (get_dlc_needing_downgrade_elem self s name files' Hin)
      as (_ & prefixes & Hg & ->).
    simpl in Hq. apply filter_In in Hq as [Hq Hn]. apply filter_In in Hq as [Hq Hb].
    split; [done|]. split; [|done]. apply in_catalogue_spec. eauto.
  - intros (Hq & Hc & Hn). apply in_catalogue_spec in Hc as (name & prefixes & Hg & Hb).
    by apply (worklist_complete self s name prefixes q).
Qed.

(** X3 — the work list of [downgrade_dlc_ba2_files]: a path is handed to
    [downgrade_ba2_file] exactly when it is a [*.ba2] entry of the data
    directory, its name starts with a prefix of the catalogue, and its
    header carries a next-gen version. *)
Theorem worklist_characterised (self : t) (s : fs) (q : path) :
  In q (worklist self s) <->
  In q (glob_ba2 s (data_path self)) /\ in_catalogue q = true /\ ng s q = true.
Proof. apply worklist_iff. Qed.

Section runs.
Context {E : os_faults}.

(** The outer loop over groups of such files. *)
Lemma downgrade_groups_all (groups : list (string * list path)) :
  forall (success_count : Z) (by_dlc : list (string * list path)) (s : fs),
    (forall name files p, In (name, files) groups -> In p files ->
       exists h, BA2.from_file s p = Ret (Some h) /\
         (is_next_gen_version (version h) = true \/
          (version h = 1 /\ can_update p = true))) ->
    exists s',
      mfor groups (success_count, by_dlc)
        (fun '(success_count, downgraded_by_dlc) '(dlc_name, files) =>
           (r <- downgrade_group files success_count ;;
            let '(success_count', downgraded_files) := r in
            mret (success_count',
                  match downgraded_files with
                  | [] => downgraded_by_dlc
                  | _ => downgraded_by_dlc ++ [(dlc_name, downgraded_files)]
                  end))%M) s
      = (Ret (success_count
              + Z.of_nat (length (List.filter can_update (concat (map snd groups)))),
              by_dlc ++ updated_groups groups), s') /\
      downgrades (concat (map snd groups)) s s'.
Proof.
  induction groups as [|[name files] gs IH]; intros sc by_dlc s Hall.
  - exists s. simpl. unfold mret. rewrite Z.add_0_r, app_nil_r.
    split; [done|]. apply downgrades_nil.
  - cbn [mfor]. unfold mbind at 1. unfold mbind at 1.
    destruct (downgrade_group_known files sc s) as (s1 & -> & Hd1).
    { intros p Hp. apply (Hall name files p); [by left|done]. }
    unfold mret at 1.
    assert (Hrest : forall name' files' p, In (name', files') gs -> In p files' ->
              exists h, BA2.from_file s1 p = Ret (Some h) /\
                (is_next_gen_version (version h) = true \/
                 (version h = 1 /\ can_update p = true))).
    { intros name' files' p Hin Hp.
      destruct (Hall name' files' p (or_intror Hin) Hp) as (h & Hh & Hv).
      assert (Hk : known_version (version h)).
      { destruct Hv as [Hv|[Hv _]]; [by right|by left]. }
      destruct Hd1 as [_ Hd1]. destruct (Hd1 p h Hh Hk) as [_ [H1|[Hcan H1]]].
      - eauto.
      - exists (downgraded h). split; [done|]. right. done. }
    cbn [map concat snd]. rewrite List.filter_app, length_app, Nat2Z.inj_add, Z.add_assoc.
    unfold updated_groups. cbn [omap list_omap]. fold (updated_groups gs).
    destruct (List.filter can_update files) as [|f fs'] eqn:Hfilter.
    + destruct (IH (sc + Z.of_nat (length (@nil path))) by_dlc s1 Hrest)
        as (s2 & -> & Hd2).
      exists s2. split; [done|]. by eapply downgrades_app.
    + destruct (IH (sc + Z.of_nat (length (f :: fs'))) (by_dlc ++ [(name, f :: fs')])
                  s1 Hrest) as (s2 & -> & Hd2).
      exists s2. split.
      * by rewrite <- app_assoc.
      * by eapply downgrades_app.
Qed.

(** The whole run, in closed form. *)
Lemma downgrade_dlc_ba2_files_run (self : t) (s : fs) :
  exists s',
    downgrade_dlc_ba2_files self s
    = (Ret (Z.of_nat (length (List.filter can_update (worklist self s))),
            updated_groups (get_dlc_needing_downgrade self s)), s') /\
    downgrades (worklist self s) s s'.
Proof.
  unfold downgrade_dlc_ba2_files. unfold mbind at 1. unfold mget, worklist.
  destruct (get_dlc_needing_downgrade self s) as [|g gs] eqn:Hg.
  { exists s. split; [done|]. apply downgrades_nil. }
  destruct (downgrade_groups_all (g :: gs) 0 [] s) as (s' & Hrun & Hd).
  { intros name files p Hin Hp. rewrite <- Hg in Hin.
    destruct (get_dlc_needing_downgrade_elem self s name files Hin)
      as (Hne & prefixes & _ & Hfiles).
    rewrite Hfiles in Hp.
    apply filter_In in Hp as [_ Hn]. apply ng_known in Hn as (h & Hh & Hv).
    exists h. split; [done|]. by left. }
  exists s'. split; [|done]. rewrite Hrun. by rewrite Z.add_0_l, app_nil_l.
Qed.

End runs.

(** X2 — [downgrade_ba2_file] always returns; it returns [True] exactly
    when the path holds an archive whose version is the compatible one,
    or one of the two next-gen ones and the file can be opened for
    update; it never touches another path; a next-gen header that could
    be rewritten reads back with the compatible version and its other
    fields unchanged; and a path that is not a next-gen archive, or that
    cannot be opened for update, is left as it is. *)
Theorem downgrade_ba2_file_outcome {E : os_faults} (p : path) (s : fs) :
  exists (ok : bool) (s' : fs),
    downgrade_ba2_file p s = (Ret ok, s') /\
    (ok = true <->
     exists h, BA2.from_file s p = Ret (Some h) /\
               (version h = 1 \/
                ((version h = 7 \/ version h = 8) /\ open_rw_fault p = None))) /\
    (forall q, q <> p -> s' !! q = s !! q) /\
    (forall h, BA2.from_file s p = Ret (Some h) ->
               is_next_gen_version (version h) = true ->
               open_rw_fault p = None ->
               BA2.from_file s' p
               = Ret (Some (mkBA2Header (magic h) 1 (format h) (file_count h)))) /\
    (ng s p = false \/ is_Some (open_rw_fault p) -> s' = s).
Proof. apply downgrade_ba2_file_cases. Qed.

(** X4 — [downgrade_dlc_ba2_files] reports the archives of its work list
    that could be opened for update: the count it returns is their
    number and the map it returns lists them group by group; each of
    them reads back with the compatible version and its other header
    fields unchanged; an archive of the work list that could not be
    opened, and every other path, keeps its content. *)
Theorem downgrade_dlc_ba2_files_result {E : os_faults} (self : t) (s : fs) :
  exists s',
    downgrade_dlc_ba2_files self s
    = (Ret (Z.of_nat (length (List.filter can_update (worklist self s))),
            updated_groups (get_dlc_needing_downgrade self s)), s') /\
    unchanged_outside (List.filter can_update (worklist self s)) s s' /\
    forall q, In q (worklist self s) ->
      exists h, BA2.from_file s q = Ret (Some h) /\
                is_next_gen_version (version h) = true /\
                BA2.from_file s' q
                = Ret (Some (if can_update q then downgraded h else h)).
Proof.
  destruct (downgrade_dlc_ba2_files_run self s) as (s' & Hrun & Hu & Hd).
  exists s'. split; [done|]. split; [done|].
  intros q Hq. pose proof Hq as Hq'.
  apply worklist_iff in Hq' as (_ & _ & Hn).
  apply ng_known in Hn as (h & Hh & Hv). exists h. split; [done|]. split; [done|].
  destruct (can_update q) eqn:Hcan.
  - apply (Hd q h Hh); [by right|done|done].
  - rewrite <- Hh. apply from_file_ext, Hu.
    rewrite filter_In. intros [_ Hc]. congruence.
Qed.

Lemma glob_ba2_same_keys (s s' : fs) (dir q : path) :
  (forall q, is_Some (s' !! q) <-> is_Some (s !! q)) ->
  In q (glob_ba2 s' dir) <-> In q (glob_ba2 s dir).
Proof. intros Hk. rewrite !glob_ba2_elem, Hk. done. Qed.

(** X5 — after [downgrade_dlc_ba2_files], the archives that
    [find_ba2_needing_downgrade] still reports in the data directory are
    those it reported before that lie outside the catalogue or could not
    be opened for update. *)
Theorem find_ba2_needing_downgrade_after_run {E : os_faults} (self : t) (s : fs)
    (q : path) :
  In q (find_ba2_needing_downgrade (downgrade_dlc_ba2_files self s).2 (data_path self)) <->
  In q (find_ba2_needing_downgrade s (data_path self)) /\
  (in_catalogue q = false \/ can_update q = false).
Proof.
  destruct (downgrade_dlc_ba2_files_run self s) as (s' & Hrun & Hu & Hd).
  destruct (downgrade_dlc_ba2_files_spec self s) as (r0 & s0 & Hrun0 & Hkeys & Hng).
  rewrite Hrun in Hrun0. injection Hrun0 as _ <-.
  rewrite Hrun. cbn [snd].
  unfold find_ba2_needing_downgrade. fold (ng s) (ng s').
  rewrite !filter_In, (glob_ba2_same_keys s s') by done.
  split.
  - intros [Hq Hn]. destruct (Hng q Hn) as [Hn0 Hnw].
    split; [done|]. destruct (in_catalogue q) eqn:Hc; [|by left]. right.
    destruct Hnw as [Hnw|Hf]; [|by apply can_update_false].
    exfalso. apply Hnw, list_elem_of_In. by apply worklist_iff.
  - intros [[Hq Hn] Hc]. split; [done|].
    assert (Hnw : ~ In q (List.filter can_update (worklist self s))).
    { rewrite filter_In. intros [Hw Hcan].
      apply worklist_iff in Hw as (_ & Hc' & _).
      destruct Hc; congruence. }
    unfold ng. rewrite (from_file_ext s s') by (by apply Hu). done.
Qed.

(** X6 — on a next-gen archive that can be opened for update,
    [downgrade_ba2_file] rewrites the four bytes of the version field and
    nothing else: the file keeps its length, bytes 4 to 7 become the
    little-endian code of version 1, and every other byte is as it
    was. *)
Theorem downgrade_ba2_file_payload_untouched {E : os_faults} (p : path) (s : fs)
    (d : bytes) (h : BA2Header) :
  s !! p = Some (File d) ->
  BA2.from_file s p = Ret (Some h) ->
  is_next_gen_version (version h) = true ->
  open_rw_fault p = None ->
  exists d',
    (downgrade_ba2_file p s).2 !! p = Some (File d') /\
    length d' = length d /\
    slice d' 4 8 = [x01; x00; x00; x00] /\
    forall k, (k < 4 \/ 8 <= k)%nat -> d' !! k = d !! k.
Proof.
  intros Hp Hh Hng Hopen.
  destruct (from_file_Some _ _ _ Hh) as (d0 & v & c & Hp0 & Hlen & _).
  assert (d0 = d) as -> by congruence.
  destruct (write_version_code_file s p d ArchiveVersionEnum.FALLOUT_4 Hp Hopen)
    as (b & Hb & Hw); [done|].
  assert (b = [x01; x00; x00; x00]) as ->.
  { vm_compute in Hb. by injection Hb as <-. }
  unfold downgrade_ba2_file, mtry, mbind, mread. rewrite Hh.
  rewrite bool_decide_eq_false_2.
  2:{ intros Hv. rewrite Hv in Hng. by vm_compute in Hng. }
  rewrite Hng. cbn [negb]. rewrite Hw. cbn [snd].
  assert (Hfit : (4 + length [x01; x00; x00; x00] <= length d)%nat)
    by (cbn [length]; lia).
  exists (seek_write d 4 [x01; x00; x00; x00]).
  split; [apply lookup_insert_eq|]. split; [by apply seek_write_length|].
  split.
  - apply (seek_write_slice_written d [x01; x00; x00; x00] 4 Hfit).
  - intros k Hk. apply seek_write_lookup_outside; [done|]. cbn [length]. lia.
Qed.

Lemma downgrade_ba2_file_payload_untouched_witness :
  exists d',
    (downgrade_ba2_file (E := no_os_faults)
       ["Data"; "DLCRobot - Main.ba2"]%string example_data_dir).2
      !! ["Data"; "DLCRobot - Main.ba2"]%string = Some (File d') /\
    length d' = length example_ng_archive.
Proof.
  destruct (downgrade_ba2_file_payload_untouched (E := no_os_faults)
              ["Data"; "DLCRobot - Main.ba2"]%string example_data_dir
              example_ng_archive (mkBA2Header BTDX 8 [x47; x4e; x52; x4c] 2))
    as (d' & Hd & Hl & _).
  - reflexivity.
  - vm_compute. reflexivity.
  - reflexivity.
  - reflexivity.
  - exists d'. exact (conj Hd Hl).
Defined.

End DowngraderMoreFacts.

(** ** Further properties: the delta patcher and the size check *)

Module PatcherMoreFacts.
Import ESMPatcher PatcherSpec PatcherFacts PatcherMore.

Lemma staged_after_backup (esm backup temp : path) (d : bytes) (s : fs) :
  esm <> backup -> backup <> temp ->
  s !! esm = Some (File d) -> s !! temp <> Some Directory ->
  PatcherSpec.staged esm backup temp d s (<[backup := File d]> s).
Proof.
  intros Heb Hbt He Ht. repeat split.
  - rewrite lookup_insert_ne; done.
  - by rewrite lookup_insert_eq.
  - rewrite lookup_insert_ne; done.
  - intros q Hqb _. rewrite lookup_insert_ne; done.
Qed.

(** X7 — when the backup copy, the removal of the target and of the
    backup and the renaming of the output are not refused, and the tool
    exits with status zero and leaves an output larger than 300,000,000
    bytes, [patch_fallout4_esm] returns [True]: the target holds the
    tool's output, nothing stands at the backup and [.patched] paths, and
    every other path is as it was. *)
Theorem patch_success_replaces_target {E : os_faults} (self : t) (tool : tool_run)
    (dir : path) (s : fs) (d b : bytes) (entry : patch_entry) :
  let esm_path := path_join dir "Fallout4.esm" in
  let backup_path := path_add esm_path ".backup" in
  let temp_output := path_add esm_path ".patched" in
  s !! esm_path = Some (File d) ->
  patch_mappings self !! Z.of_nat (length d) = Some entry ->
  is_Some (s !! path_join (assets_dir self) (patch entry)) ->
  is_Some (s !! xdelta_path self) ->
  s !! backup_path <> Some Directory ->
  copy_fault esm_path backup_path = CopyDone ->
  remove_fault esm_path = None ->
  rename_fault temp_output esm_path = None ->
  remove_fault backup_path = None ->
  run_end_of tool = Completed 0 ->
  output tool = Some b ->
  Z.of_nat (length b) > 300000000 ->
  exists s',
    patch_fallout4_esm self tool dir s = (Ret true, s') /\
    s' !! esm_path = Some (File b) /\
    s' !! backup_path = None /\
    s' !! temp_output = None /\
    (forall q, q <> esm_path -> q <> backup_path -> q <> temp_output ->
               s' !! q = s !! q).
Proof.
  intros esm_path backup_path temp_output Hesm Hkey Hpatch Htool Hbdir
    Hcopy Hrme Hren Hrmb Hend Hout Hsize.
  destruct (patcher_paths_distinct dir) as (Heb & Het & Hbt).
  fold esm_path backup_path temp_output in Heb, Het, Hbt.
  unfold esm_path, backup_path, temp_output.
  rewrite (patch_fallout4_esm_enters self tool dir s d entry) by done.
  fold esm_path backup_path temp_output.
  rewrite (copy2_backup s esm_path backup_path d) by done.
  set (s1 := <[backup_path := File d]> s).
  assert (Hst : PatcherSpec.staged esm_path backup_path temp_output d
                  (delete temp_output s) (<[temp_output := File b]> s1)).
  { unfold s1. repeat split.
    - rewrite !lookup_insert_ne; done.
    - rewrite lookup_insert_ne, lookup_insert_eq; done.
    - by rewrite lookup_insert_eq.
    - intros q Hqb Hqt. rewrite !lookup_insert_ne, lookup_delete_ne; done. }
  unfold mtry, apply_patch. unfold mbind at 1. unfold subprocess_run.
  rewrite Hout, Hend. rewrite bool_decide_eq_true_2 by done.
  unfold mbind at 1. unfold mget.
  rewrite (path_exists_Some _ temp_output (File b)) by apply lookup_insert_eq.
  unfold mbind at 1. unfold mread, getsize. rewrite lookup_insert_eq.
  rewrite bool_decide_eq_true_2 by done.
  unfold mbind at 1. unfold os_remove.
  destruct Hst as (He & Hb & _ & Ho). rewrite He, Hrme.
  unfold mbind at 1.
  rewrite (os_rename_spec _ _ _ (File b)).
  2:{ rewrite lookup_delete_ne by done. apply lookup_insert_eq. }
  2:{ apply lookup_delete_eq. }
  2:{ done. }
  unfold mbind at 1.
  rewrite remove_if_exists_spec.
  2:{ rewrite lookup_insert_ne, !lookup_delete_ne by done. by rewrite Hb. }
  2:{ done. }
  unfold mret. eexists. split; [done|].
  split; [|split; [|split]].
  - rewrite lookup_delete_ne, lookup_insert_eq; done.
  - apply lookup_delete_eq.
  - rewrite lookup_delete_ne, lookup_insert_ne, lookup_delete_eq; done.
  - intros q Hqe Hqb Hqt.
    rewrite lookup_delete_ne, lookup_insert_ne, !lookup_delete_ne by done.
    rewrite Ho by done. by rewrite lookup_delete_ne.
Qed.

Lemma patch_success_replaces_target_witness :
  let run := patch_fallout4_esm (E := no_os_faults) toy_patcher succeeding_tool
               ["mod"]%string toy_fs in
  run.1 = Ret true /\
  run.2 !! ["mod"; "Fallout4.esm"]%string
  = Some (File (repeat Byte.x00 (Z.to_nat 300000001))) /\
  run.2 !! ["mod"; "Fallout4.esm.backup"]%string = None /\
  run.2 !! ["mod"; "Fallout4.esm.patched"]%string = None.
Proof.
  intros run.
  destruct (patch_success_replaces_target (E := no_os_faults) toy_patcher
              succeeding_tool ["mod"]%string toy_fs [x01; x02; x03]
              (repeat Byte.x00 (Z.to_nat 300000001))
              (mk_patch "toy.xdelta" "three-byte variant"))
    as (s' & Hrun & He & Hb & Ht & _).
  - reflexivity.
  - reflexivity.
  - eexists; reflexivity.
  - eexists; reflexivity.
  - vm_compute; discriminate.
  - reflexivity.
  - reflexivity.
  - reflexivity.
  - reflexivity.
  - reflexivity.
  - reflexivity.
  - rewrite repeat_length. lia.
  - unfold run. rewrite Hrun. exact (conj eq_refl (conj He (conj Hb Ht))).
Defined.

(** The early returns of [patch_fallout4_esm]. *)
Lemma patch_skipped {E : os_faults} (self : t) (tool : tool_run) (dir : path)
    (s : fs) :
  let esm_path := path_join dir "Fallout4.esm" in
  (path_exists s esm_path = false \/
   exists esm_size, getsize s esm_path = Ret esm_size /\
     (patch_mappings self !! esm_size = None \/
      exists entry, patch_mappings self !! esm_size = Some entry /\
        (path_exists s (path_join (assets_dir self) (patch entry)) = false \/
         path_exists s (xdelta_path self) = false))) ->
  patch_fallout4_esm self tool dir s = (Ret false, s).
Proof.
  intros esm_path H. unfold patch_fallout4_esm. fold esm_path.
  unfold mbind at 1. unfold mget.
  destruct (path_exists s esm_path) eqn:Hex; [|done].
  destruct H as [H|(n & Hn & H)]; [done|]. cbn [negb].
  unfold mbind at 1. unfold mread. rewrite Hn.
  destruct H as [->|(entry & -> & H)]; [done|].
  unfold mbind at 1. unfold mget.
  destruct (path_exists s (path_join (assets_dir self) (patch entry))) eqn:Hp;
    [|done].
  cbn [negb]. unfold mbind at 1. unfold mget.
  destruct H as [H | ->]; [done|]. done.
Qed.

(** X8 — [patch_fallout4_esm] returns [False] and leaves the file system
    exactly as it was when the target is missing, when its size is not a
    key of the patch table, or when the selected patch file or the tool is
    missing. *)
Theorem patch_skipped_without_effect {E : os_faults} (self : t) (tool : tool_run)
    (dir : path) (s : fs) :
  let esm_path := path_join dir "Fallout4.esm" in
  (path_exists s esm_path = false \/
   exists esm_size, getsize s esm_path = Ret esm_size /\
     (patch_mappings self !! esm_size = None \/
      exists entry, patch_mappings self !! esm_size = Some entry /\
        (path_exists s (path_join (assets_dir self) (patch entry)) = false \/
         path_exists s (xdelta_path self) = false))) ->
  patch_fallout4_esm self tool dir s = (Ret false, s).
Proof. apply patch_skipped. Qed.

Lemma patch_skipped_without_effect_witness :
  patch_fallout4_esm (E := no_os_faults) toy_patcher failing_tool
    ["elsewhere"]%string toy_fs
  = (Ret false, toy_fs).
Proof.
  apply (patch_skipped_without_effect (E := no_os_faults) toy_patcher failing_tool
           ["elsewhere"]%string toy_fs).
  left. reflexivity.
Defined.

(** X9 — [patch_fallout4_esm] returns [True] or [False] and raises
    nothing, whatever the tool does, when no directory stands at the
    target, the backup or the [.patched] path, the backup copy is not
    refused, and the operating system lets the handlers remove the target
    and the [.patched] file and rename the backup. *)
Theorem patch_fallout4_esm_returns {E : os_faults} (self : t) (tool : tool_run)
    (dir : path) (s : fs) :
  let esm_path := path_join dir "Fallout4.esm" in
  let backup_path := path_add esm_path ".backup" in
  let temp_output := path_add esm_path ".patched" in
  s !! esm_path <> Some Directory ->
  s !! backup_path <> Some Directory ->
  s !! temp_output <> Some Directory ->
  copy_fault esm_path backup_path = CopyDone ->
  remove_fault esm_path = None ->
  remove_fault temp_output = None ->
  rename_fault backup_path esm_path = None ->
  exists (ok : bool) (s' : fs), patch_fallout4_esm self tool dir s = (Ret ok, s').
Proof.
  intros esm_path backup_path temp_output Hedir Hbdir Htdir Hcopy Hrme Hrmt Hren.
  destruct (patcher_paths_distinct dir) as (Heb & Het & Hbt).
  fold esm_path backup_path temp_output in Heb, Het, Hbt.
  destruct (s !! esm_path) as [[d|]|] eqn:Hesm; try done.
  2:{ exists false, s. apply patch_skipped. left.
      by apply path_exists_None. }
  destruct (patch_mappings self !! Z.of_nat (length d)) as [entry|] eqn:Hkey.
  2:{ exists false, s. apply patch_skipped. right.
      exists (Z.of_nat (length d)). unfold getsize. fold esm_path.
      rewrite Hesm. split; [done|]. by left. }
  destruct (s !! path_join (assets_dir self) (patch entry)) as [pn|] eqn:Hpatch.
  2:{ exists false, s. apply patch_skipped. right.
      exists (Z.of_nat (length d)). unfold getsize. fold esm_path.
      rewrite Hesm. split; [done|]. right. exists entry. split; [done|].
      left. by apply path_exists_None. }
  destruct (s !! xdelta_path self) as [xn|] eqn:Htool.
  2:{ exists false, s. apply patch_skipped. right.
      exists (Z.of_nat (length d)). unfold getsize. fold esm_path.
      rewrite Hesm. split; [done|]. right. exists entry. split; [done|].
      right. by apply path_exists_None. }
  rewrite (patch_fallout4_esm_enters self tool dir s d entry); eauto.
  fold esm_path backup_path temp_output.
  rewrite (copy2_backup s esm_path backup_path d) by done.
  destruct (mtry (apply_patch tool esm_path backup_path temp_output)
              (on_exception esm_path backup_path (Some temp_output))
              (<[backup_path := File d]> s)) as [r s'] eqn:Hrun.
  eapply (apply_patch_staged esm_path backup_path temp_output d s) in Hrun;
    try done.
  - destruct Hrun as [->|[-> _]]; eauto.
  - by apply staged_after_backup.
Qed.

Lemma patch_fallout4_esm_returns_witness :
  exists (ok : bool) (s' : fs),
    patch_fallout4_esm (E := no_os_faults) toy_patcher failing_tool
      ["mod"]%string toy_fs = (Ret ok, s').
Proof.
  apply (patch_fallout4_esm_returns (E := no_os_faults) toy_patcher failing_tool
           ["mod"]%string toy_fs).
  - vm_compute; discriminate.
  - vm_compute; discriminate.
  - vm_compute; discriminate.
  - reflexivity.
  - reflexivity.
  - reflexivity.
  - reflexivity.
Defined.

(** X23 — when the backup copy itself is refused, [patch_fallout4_esm]
    does not return: its handler restores what it can and then reads
    [temp_output], which is assigned only after the copy, so the call
    ends with an unbound-variable error.  If the refused copy has left
    the first [n] bytes of the target at the backup path, the handler has
    by then renamed this truncated backup over the target. *)
Theorem patch_backup_failure_raises {E : os_faults} (self : t) (tool : tool_run)
    (dir : path) (s : fs) (d : bytes) (entry : patch_entry) (e : exn)
    (partial : option nat) :
  let esm_path := path_join dir "Fallout4.esm" in
  let backup_path := path_add esm_path ".backup" in
  s !! esm_path = Some (File d) ->
  patch_mappings self !! Z.of_nat (length d) = Some entry ->
  is_Some (s !! path_join (assets_dir self) (patch entry)) ->
  is_Some (s !! xdelta_path self) ->
  copy_fault esm_path backup_path = CopyFails e partial ->
  is_TimeoutExpired e = false ->
  let run := patch_fallout4_esm self tool dir s in
  run.1 = Raise (UnboundLocalError "temp_output") /\
  (forall n, partial = Some n ->
     s !! backup_path <> Some Directory ->
     remove_fault esm_path = None ->
     rename_fault backup_path esm_path = None ->
     run.2 !! esm_path = Some (File (take n d)) /\ run.2 !! backup_path = None).
Proof.
  intros esm_path backup_path Hesm Hkey Hpatch Htool Hcopy Htime run.
  destruct (patcher_paths_distinct dir) as (Heb & _ & _).
  fold esm_path backup_path in Heb.
  assert (Hraise : forall s1,
             (on_exception esm_path backup_path None e s1).1
             = Raise (UnboundLocalError "temp_output")).
  { intros s1. unfold on_exception. rewrite Htime.
    unfold mbind at 1. unfold mget. unfold mbind at 1.
    destruct (path_exists s1 backup_path); unfold when, mtry, mret; [|done].
    by destruct ((remove_if_exists esm_path ;;; os_rename backup_path esm_path)%M s1)
      as [[[]|e'] s2]. }
  unfold run. rewrite (patch_fallout4_esm_enters self tool dir s d entry) by done.
  fold esm_path backup_path.
  unfold copy2. rewrite Hesm, Hcopy. split.
  - destruct partial as [n|]; apply Hraise.
  - intros n -> Hbdir Hrme Hren.
    assert (Htarget : copy_target s esm_path backup_path = backup_path).
    { unfold copy_target. by destruct (s !! backup_path) as [[b0|]|]. }
    rewrite Htarget. set (s1 := <[backup_path := File (take n d)]> s).
    assert (Hrun : on_exception esm_path backup_path None e s1
                   = (Raise (UnboundLocalError "temp_output"),
                      <[esm_path := File (take n d)]>
                        (delete backup_path (delete esm_path s1)))).
    { unfold on_exception. rewrite Htime.
      unfold mbind at 1. unfold mget.
      rewrite (path_exists_Some s1 backup_path (File (take n d)))
        by apply lookup_insert_eq.
      unfold mbind at 1. unfold when, mtry. unfold mbind at 1.
      rewrite remove_if_exists_spec.
      2:{ unfold s1. rewrite lookup_insert_ne by done. by rewrite Hesm. }
      2:{ done. }
      rewrite (os_rename_spec _ _ _ (File (take n d))).
      2:{ rewrite lookup_delete_ne by done. apply lookup_insert_eq. }
      2:{ apply lookup_delete_eq. }
      2:{ done. }
      done. }
    rewrite Hrun. cbn [snd]. split.
    + apply lookup_insert_eq.
    + rewrite lookup_insert_ne by done. apply lookup_delete_eq.
Qed.

Lemma patch_backup_failure_raises_witness :
  let run := patch_fallout4_esm (E := backup_cut_short) toy_patcher failing_tool
               ["mod"]%string toy_fs in
  run.1 = Raise (UnboundLocalError "temp_output") /\
  run.2 !! ["mod"; "Fallout4.esm"]%string = Some (File [x01]).
Proof.
  intros run.
  destruct (patch_backup_failure_raises (E := backup_cut_short) toy_patcher
              failing_tool ["mod"]%string toy_fs [x01; x02; x03]
              (mk_patch "toy.xdelta" "three-byte variant")
              (OSError "No space left on device") (Some 1%nat))
    as [Hraise Hstate].
  - reflexivity.
  - reflexivity.
  - eexists; reflexivity.
  - eexists; reflexivity.
  - reflexivity.
  - reflexivity.
  - split; [exact Hraise|].
    destruct (Hstate 1%nat) as [He _].
    + reflexivity.
    + vm_compute; discriminate.
    + reflexivity.
    + reflexivity.
    + exact He.
Defined.

Lemma init_table_keys (a : path) (n : Z) :
  is_Some (patch_mappings (init a) !! n) <-> n = 330777465 \/ n = 330553163.
Proof.
  unfold init. cbn [patch_mappings].
  destruct (decide (n = 330777465)) as [->|H1].
  { rewrite lookup_insert_eq. split; eauto. }
  rewrite lookup_insert_ne by done.
  destruct (decide (n = 330553163)) as [->|H2].
  { rewrite lookup_insert_eq. split; eauto. }
  rewrite lookup_insert_ne, lookup_empty by done.
  split; [by intros [? ?]|lia].
Qed.

Lemma path_exists_getsize (s : fs) (p : path) :
  path_exists s p = true -> exists n, getsize s p = Ret n.
Proof.
  unfold path_exists, getsize. intros H. apply bool_decide_eq_true in H.
  destruct H as [[d|] ->]; eauto.
Qed.

(** X10 — [check_fallout4_esm_size] never raises; it reports [None] exactly
    when neither the root nor the [Data] directory holds [Fallout4.esm];
    the size it reports is that of the root file when there is one and of
    the [Data] file otherwise; and it reports that patching is needed
    exactly when that size is a key of the patch table [ESMPatcher]
    builds. *)
Theorem check_fallout4_esm_size_spec (assets : path) (s : fs) (f4_path : path) :
  let root_esm := path_join f4_path "Fallout4.esm" in
  let data_esm := path_join (path_join f4_path "Data") "Fallout4.esm" in
  exists (needs_patching : option bool) (esm_size : Z),
    check_fallout4_esm_size s f4_path = Ret (needs_patching, esm_size) /\
    (needs_patching = None <->
     path_exists s root_esm = false /\ path_exists s data_esm = false) /\
    (path_exists s root_esm = true -> getsize s root_esm = Ret esm_size) /\
    (path_exists s root_esm = false -> path_exists s data_esm = true ->
     getsize s data_esm = Ret esm_size) /\
    (needs_patching = Some true <->
     needs_patching <> None /\
     is_Some (patch_mappings (init assets) !! esm_size)).
Proof.
  intros root_esm data_esm.
  assert (Hfound : forall n : Z,
    exists needs : option bool,
      (if bool_decide (n = 330777465) || bool_decide (n = 330553163)
       then Ret (Some true, n) else Ret (Some false, n))
      = (Ret (needs, n) : res (option bool * Z)) /\
      needs <> None /\
      (needs = Some true <->
       needs <> None /\ is_Some (patch_mappings (init assets) !! n))).
  { intros n. pose proof (init_table_keys assets n) as Hkeys.
    destruct (bool_decide (n = 330777465) || bool_decide (n = 330553163)) eqn:Hk.
    - exists (Some true). split; [done|]. split; [done|]. rewrite Hkeys.
      apply orb_true_iff in Hk. rewrite !bool_decide_eq_true in Hk. done.
    - exists (Some false). split; [done|]. split; [done|]. rewrite Hkeys.
      apply orb_false_iff in Hk. rewrite !bool_decide_eq_false in Hk.
      split; [done|]. intros [_ [?|?]]; tauto. }
  unfold check_fallout4_esm_size, check_paths. fold root_esm data_esm.
  destruct (path_exists s root_esm) eqn:Hroot.
  { destruct (path_exists_getsize _ _ Hroot) as [n Hn]. rewrite Hn. cbn [res_bind].
    destruct (Hfound n) as (needs & -> & Hsome & Hiff).
    exists needs, n. split; [done|]. split; [|done].
    split; [done|]. by intros [? _]. }
  destruct (path_exists s data_esm) eqn:Hdata.
  { destruct (path_exists_getsize _ _ Hdata) as [n Hn]. rewrite Hn. cbn [res_bind].
    destruct (Hfound n) as (needs & -> & Hsome & Hiff).
    exists needs, n. split; [done|]. split; [|done].
    split; [done|]. by intros [_ ?]. }
  exists None, 0. split; [done|]. split; [done|]. split; [done|]. split; [done|].
  split; [done|]. by intros [? _].
Qed.

End PatcherMoreFacts.

(** ** Further properties: the DLC resolver *)

Module ResolverMoreFacts.
Import DlcResolver ResolverSpec ResolverFacts ResolverMore.

Lemma scan_directories_app (s : fs) (l1 l2 : list (path * string))
    (info : list (string * dlc_data)) :
  scan_directories s (l1 ++ l2) info
  = scan_directories s l2 (scan_directories s l1 info).
Proof. unfold scan_directories. by rewrite foldl_app. Qed.

(** [detect_dlc_in_both_games] is the sequence of scans over
    [scanned_directories]. *)
Lemma detect_as_sequence (s : fs) (f4_path : path)
    (f4vr_path london_data_path : option path) :
  detect_dlc_in_both_games s f4_path f4vr_path london_data_path
  = scan_directories s (scanned_directories s f4_path f4vr_path london_data_path)
      initial_dlc_info.
Proof.
  unfold detect_dlc_in_both_games, scanned_directories, scan_if_exists.
  rewrite !scan_directories_app.
  destruct (path_exists s f4_path);
    [destruct (path_exists s (path_join f4_path "Data"))|];
    (destruct f4vr_path as [vr|];
       [destruct (path_exists s (path_join vr "Data"))|]);
    (destruct london_data_path as [london|];
       [destruct (path_exists s london);
          [destruct (path_exists s (path_join london "Data"))|]|]);
    reflexivity.
Qed.

Lemma offers_cons (s : fs) (d : dlc_data) (dir : path) (src : string)
    (dirs : list (path * string)) :
  offers s d ((dir, src) :: dirs)
  = match directory_candidate s dir d with
    | Some c => (src, c) :: offers s d dirs
    | None => offers s d dirs
    end.
Proof. unfold offers. by destruct (directory_candidate s dir d) eqn:Hc; simpl; rewrite Hc. Qed.

Lemma offers_catalogue (s : fs) (d d' : dlc_data) (dirs : list (path * string)) :
  esm d' = esm d -> ba2_prefixes d' = ba2_prefixes d ->
  offers s d' dirs = offers s d dirs.
Proof.
  intros He Hp. induction dirs as [|[dir src] dirs IH]; [done|].
  rewrite !offers_cons, (directory_candidate_catalogue s dir d d') by done.
  by rewrite IH.
Qed.

Lemma resolve_catalogue (d d' : dlc_data) (o : offer) :
  esm d' = esm d -> ba2_prefixes d' = ba2_prefixes d ->
  resolve d' (Some o) = resolve d (Some o).
Proof.
  intros He Hp. destruct o as [src [e [ps b]]]. simpl. by rewrite He, Hp.
Qed.

(** One group's entry after a sequence of scans. *)
Lemma scan_directories_entry (s : fs) (dirs : list (path * string)) :
  forall (info : list (string * dlc_data)) (i : nat) (name : string) (d : dlc_data),
    info !! i = Some (name, d) ->
    exists d',
      scan_directories s dirs info !! i = Some (name, d') /\
      (found_in d = None -> d' = resolve d (best (offers s d dirs))) /\
      (found_in d <> None -> truthy (is_next_gen d) = true ->
       d' = match List.find compatible (offers s d dirs) with
            | Some o => resolve d (Some o)
            | None => d
            end) /\
      (found_in d <> None -> truthy (is_next_gen d) = false -> d' = d).
Proof.
  induction dirs as [|[dir src] dirs IH]; intros info i name d Hi.
  { exists d. split; [done|]. split; [done|]. split; done. }
  destruct (scan_entry s dir src info i name d Hi) as (d1 & Hl1 & Hd1).
  destruct (IH _ i name d1 Hl1) as (d' & Hl' & Hnone & Hng & Hok).
  exists d'. split; [done|].
  rewrite offers_cons.
  destruct (directory_candidate s dir d) as [[e [ps b]]|] eqn:Hc.
  2:{ subst d1. done. }
  assert (Hcat : esm d1 = esm d /\ ba2_prefixes d1 = ba2_prefixes d).
  { subst d1. by destruct (_ || _). }
  destruct Hcat as [He Hp].
  rewrite (offers_catalogue s d d1) in Hnone, Hng by done.
  unfold best. cbn [List.find head].
  unfold compatible at 1 3. cbn [snd].
  split; [|split].
  - intros Hf. rewrite Hf in Hd1. cbn [bool_decide orb] in Hd1.
    rewrite bool_decide_eq_true_2 in Hd1 by done. cbn [orb] in Hd1.
    destruct b; cbn [negb].
    + rewrite Hng by (by subst d1).
      destruct (List.find compatible (offers s d dirs)) as [o|].
      * by apply resolve_catalogue.
      * by subst d1.
    + rewrite Hok by (by subst d1). by subst d1.
  - intros Hf Ht. rewrite bool_decide_eq_false_2, Ht in Hd1 by done.
    cbn [orb] in Hd1. rewrite andb_true_r in Hd1.
    destruct b; cbn [negb] in *.
    + subst d1. by apply Hng.
    + rewrite Hok by (by subst d1). by subst d1.
  - intros Hf Ht. rewrite bool_decide_eq_false_2, Ht in Hd1 by done.
    cbn [orb] in Hd1. rewrite andb_false_r in Hd1.
    subst d1. by apply Hok.
Qed.

Lemma initial_dlc_info_unresolved (i : nat) (name : string) (d : dlc_data) :
  initial_dlc_info !! i = Some (name, d) -> found_in d = None.
Proof.
  unfold initial_dlc_info.
  do 7 (destruct i as [|i]; [by intros [= <- <-]|]); done.
Qed.

(** One group's entry in the result of [detect_dlc_in_both_games]. *)
Lemma detect_entry (s : fs) (f4_path : path)
    (f4vr_path london_data_path : option path) (i : nat) (name : string)
    (d : dlc_data) :
  initial_dlc_info !! i = Some (name, d) ->
  detect_dlc_in_both_games s f4_path f4vr_path london_data_path !! i
  = Some (name,
          resolve d (best (offers s d
            (scanned_directories s f4_path f4vr_path london_data_path)))).
Proof.
  intros Hi. rewrite detect_as_sequence.
  destruct (scan_directories_entry s
              (scanned_directories s f4_path f4vr_path london_data_path)
              initial_dlc_info i name d Hi) as (d' & -> & Hnone & _).
  by rewrite Hnone by (by eapply initial_dlc_info_unresolved).
Qed.

(** X11 — [detect_dlc_in_both_games] keeps the catalogue's six groups in
    place and resolves each to the first directory, in scan order, that
    offers it without a next-gen archive, or, when no directory does, to
    the first directory that offers it at all; a group no directory offers
    stays unresolved. *)
Theorem detect_dlc_resolution (s : fs) (f4_path : path)
    (f4vr_path london_data_path : option path) (i : nat) (name : string)
    (d : dlc_data) :
  initial_dlc_info !! i = Some (name, d) ->
  detect_dlc_in_both_games s f4_path f4vr_path london_data_path !! i
  = Some (name,
          resolve d (best (offers s d
            (scanned_directories s f4_path f4vr_path london_data_path)))).
Proof. apply detect_entry. Qed.

Lemma detect_dlc_resolution_witness :
  detect_dlc_in_both_games two_directories ["A"]%string None (Some ["B"]%string)
    !! 0%nat
  = Some ("Automatron"%string,
          resolve (unresolved "DLCRobot.esm" ["DLCRobot"]%string)
            (best (offers two_directories
                     (unresolved "DLCRobot.esm" ["DLCRobot"]%string)
                     (scanned_directories two_directories ["A"]%string None
                        (Some ["B"]%string))))).
Proof.
  apply (detect_dlc_resolution two_directories ["A"]%string None
           (Some ["B"]%string) 0 "Automatron"
           (unresolved "DLCRobot.esm" ["DLCRobot"]%string)).
  reflexivity.
Defined.

(** *** What a directory offers *)

(** The two maps after the loop over a directory's files, from any
    initial maps: where an entry comes from, and that no file is lost. *)
Lemma build_maps_fold (files : list path) :
  forall (em : gmap string path) (bm : gmap string (list path)),
    let r := foldl (fun '(esm_map, ba2_map) file_path =>
                      let file_name := path_name file_path in
                      let file_lower := lower file_name in
                      if endswith file_lower ".esm" then
                        (<[file_name := file_path]> esm_map, ba2_map)
                      else if endswith file_lower ".ba2" then
                        let prefix := ba2_prefix file_name in
                        (esm_map,
                         <[prefix := default [] (ba2_map !! prefix) ++ [file_path]]>
                           ba2_map)
                      else (esm_map, ba2_map))
                   (em, bm) files in
    (forall k p, r.1 !! k = Some p ->
       em !! k = Some p \/
       (In p files /\ path_name p = k /\ endswith (lower k) ".esm" = true)) /\
    (forall k, is_Some (em !! k) -> is_Some (r.1 !! k)) /\
    (forall p, In p files -> endswith (lower (path_name p)) ".esm" = true ->
       is_Some (r.1 !! path_name p)) /\
    (forall k p, In p (default [] (r.2 !! k)) ->
       In p (default [] (bm !! k)) \/
       (In p files /\ endswith (lower (path_name p)) ".esm" = false /\
        endswith (lower (path_name p)) ".ba2" = true /\
        ba2_prefix (path_name p) = k)) /\
    (forall k p, In p (default [] (bm !! k)) -> In p (default [] (r.2 !! k))) /\
    (forall p, In p files -> endswith (lower (path_name p)) ".esm" = false ->
       endswith (lower (path_name p)) ".ba2" = true ->
       In p (default [] (r.2 !! ba2_prefix (path_name p)))).
Proof.
  induction files as [|x files IH]; intros em bm.
  { cbn [foldl fst snd]. repeat split; try done; eauto. }
  cbn [foldl]. cbv zeta.
  destruct (endswith (lower (path_name x)) ".esm") eqn:Hesm.
  - destruct (IH (<[path_name x := x]> em) bm) as (H1 & H2 & H3 & H4 & H5 & H6).
    split; [|split; [|split; [|split; [|split]]]].
    + intros k p Hk. destruct (H1 k p Hk) as [Hin|(Hin & Hn & He)].
      * destruct (decide (k = path_name x)) as [->|Hne].
        -- rewrite lookup_insert_eq in Hin. injection Hin as <-.
           right. split; [by left|done].
        -- rewrite lookup_insert_ne in Hin by done. by left.
      * right. split; [by right|done].
    + intros k Hk. apply H2. destruct (decide (k = path_name x)) as [->|Hne].
      * rewrite lookup_insert_eq. eauto.
      * by rewrite lookup_insert_ne.
    + intros p [->|Hp] He.
      * apply H2. rewrite lookup_insert_eq. eauto.
      * by apply H3.
    + intros k p Hk. destruct (H4 k p Hk) as [Hin|(Hin & Hrest)]; [by left|].
      right. split; [by right|done].
    + done.
    + intros p [->|Hp] He Hb; [congruence|]. by apply H6.
  - destruct (endswith (lower (path_name x)) ".ba2") eqn:Hba2.
    + set (k0 := ba2_prefix (path_name x)).
      destruct (IH em (<[k0 := default [] (bm !! k0) ++ [x]]> bm))
        as (H1 & H2 & H3 & H4 & H5 & H6).
      split; [|split; [|split; [|split; [|split]]]].
      * intros k p Hk. destruct (H1 k p Hk) as [Hin|(Hin & Hrest)]; [by left|].
        right. split; [by right|done].
      * done.
      * intros p [->|Hp] He; [congruence|]. by apply H3.
      * intros k p Hk. destruct (H4 k p Hk) as [Hin|(Hin & Hrest)].
        -- destruct (decide (k = k0)) as [->|Hne].
           ++ rewrite lookup_insert_eq in Hin. cbn [default] in Hin.
              apply in_app_iff in Hin as [Hin|[<-|[]]]; [by left|].
              right. split; [by left|done].
           ++ rewrite lookup_insert_ne in Hin by done. by left.
        -- right. split; [by right|done].
      * intros k p Hk. apply H5. destruct (decide (k = k0)) as [->|Hne].
        -- rewrite lookup_insert_eq. cbn [default]. apply in_app_iff. by left.
        -- by rewrite lookup_insert_ne.
      * intros p [->|Hp] He Hb; [|by apply H6].
        apply H5. fold k0. rewrite lookup_insert_eq. cbn [default].
        apply in_app_iff. right. by left.
    + destruct (IH em bm) as (H1 & H2 & H3 & H4 & H5 & H6).
      split; [|split; [|split; [|split; [|split]]]].
      * intros k p Hk. destruct (H1 k p Hk) as [Hin|(Hin & Hrest)]; [by left|].
        right. split; [by right|done].
      * done.
      * intros p [->|Hp] He; [congruence|]. by apply H3.
      * intros k p Hk. destruct (H4 k p Hk) as [Hin|(Hin & Hrest)]; [by left|].
        right. split; [by right|done].
      * done.
      * intros p [->|Hp] He Hb; [congruence|]. by apply H6.
Qed.

Lemma build_maps_spec (files : list path) :
  (forall k p, (build_maps files).1 !! k = Some p ->
     In p files /\ path_name p = k /\ endswith (lower k) ".esm" = true) /\
  (forall p, In p files -> endswith (lower (path_name p)) ".esm" = true ->
     is_Some ((build_maps files).1 !! path_name p)) /\
  (forall k p, In p (default [] ((build_maps files).2 !! k)) <->
     In p files /\ endswith (lower (path_name p)) ".esm" = false /\
     endswith (lower (path_name p)) ".ba2" = true /\
     ba2_prefix (path_name p) = k).
Proof.
  destruct (build_maps_fold files ∅ ∅) as (H1 & _ & H3 & H4 & _ & H6).
  change (foldl _ (∅, ∅) files) with (build_maps files) in H1, H3, H4, H6.
  split; [|split].
  - intros k p Hk. destruct (H1 k p Hk) as [Hem|H]; [|done].
    by rewrite lookup_empty in Hem.
  - done.
  - intros k p. split.
    + intros Hp. destruct (H4 k p Hp) as [Hem|H]; [|done].
      by rewrite lookup_empty in Hem.
    + intros (Hin & He & Hb & <-). by apply H6.
Qed.

(** The archives matched for a group, in closed form. *)
Lemma match_ba2_paths (s : fs) (ba2_map : gmap string (list path))
    (prefixes : list string) :
  (match_ba2 s ba2_map prefixes).1
  = concat (map (fun prefix => default [] (ba2_map !! prefix)) prefixes).
Proof.
  unfold match_ba2.
  set (ngp := fun p => BA2.header_is_next_gen (BA2.from_file s p)).
  set (inner := fun '(ba2_paths, is_ng) (ba2_path : path) =>
                  (ba2_paths ++ [ba2_path], is_ng || ngp ba2_path)).
  assert (Hinner : forall found (acc : list path * bool),
             (foldl inner acc found).1 = acc.1 ++ found).
  { induction found as [|x found IH]; intros [ps b]; cbn [foldl fst].
    - by rewrite app_nil_r.
    - rewrite IH. cbn [inner fst]. by rewrite <- app_assoc. }
  set (outer := fun (acc : list path * bool) (prefix : string) =>
                  match ba2_map !! prefix with
                  | Some found => foldl inner acc found
                  | None => acc
                  end).
  enough (Houter : forall l (acc : list path * bool),
             (foldl outer acc l).1
             = acc.1 ++ concat (map (fun prefix => default [] (ba2_map !! prefix)) l)).
  { by rewrite Houter. }
  induction l as [|x l IH]; intros acc; cbn [foldl map concat].
  - by rewrite app_nil_r.
  - rewrite IH. unfold outer. destruct (ba2_map !! x) as [found|]; cbn [default].
    + by rewrite Hinner, <- app_assoc.
    + done.
Qed.

Lemma is_child_join (directory p : path) :
  is_child directory p = true <-> p = path_join directory (path_name p) /\ p <> [].
Proof.
  unfold is_child, path_join, path_parent, path_name.
  rewrite bool_decide_eq_true. split.
  - intros [Hne <-]. split; [|done]. by apply app_removelast_last.
  - intros [Hp Hne]. split; [done|]. rewrite Hp at 1. by rewrite removelast_last.
Qed.

Lemma path_name_join (directory : path) (name : string) :
  path_name (path_join directory name) = name.
Proof. unfold path_name, path_join. apply last_last. Qed.

Lemma iterdir_files (s : fs) (directory : path) (entries : list path) (p : path) :
  iterdir s directory = Ret entries ->
  In p (List.filter (is_file s) entries) <->
  is_file s p = true /\ is_child directory p = true.
Proof.
  unfold iterdir. destruct (s !! directory) as [[d|]|]; try done.
  intros [= <-]. rewrite !filter_In, in_map_iff. split.
  - intros [[_ Hc] Hf]. done.
  - intros [Hf Hc]. split; [|done]. split; [|done].
    unfold is_file in Hf. destruct (s !! p) as [n|] eqn:Hp; [|done].
    exists (p, n). split; [done|]. by apply list_elem_of_In, elem_of_map_to_list.
Qed.

(** When a directory offers a group. *)
Lemma directory_offers_spec (s : fs) (directory : path) (d : dlc_data) :
  is_Some (directory_candidate s directory d) <->
  s !! directory = Some Directory /\
  is_file s (path_join directory (esm d)) = true /\
  endswith (lower (esm d)) ".esm" = true.
Proof.
  unfold directory_candidate.
  destruct (iterdir s directory) as [entries|e] eqn:Hit.
  2:{ split; [by intros [? ?]|]. intros (Hd & _). unfold iterdir in Hit.
      by rewrite Hd in Hit. }
  assert (Hdir : s !! directory = Some Directory).
  { unfold iterdir in Hit. by destruct (s !! directory) as [[?|]|]. }
  pose proof (build_maps_spec (List.filter (is_file s) entries)) as (H1 & H3 & _).
  destruct (build_maps (List.filter (is_file s) entries)) as [esm_map ba2_map].
  cbn [fst snd] in H1, H3. unfold candidate. split.
  - intros Hsome. destruct (esm_map !! esm d) as [p|] eqn:Hp; [|by destruct Hsome].
    destruct (H1 _ _ Hp) as (Hin & Hn & He).
    apply (iterdir_files s directory entries p Hit) in Hin as [Hf Hc].
    apply is_child_join in Hc as [Hc _]. rewrite Hn in Hc. by rewrite <- Hc.
  - intros (_ & Hf & He).
    destruct (H3 (path_join directory (esm d))) as [p Hp].
    + apply (iterdir_files s directory entries _ Hit). split; [done|].
      apply is_child_join. rewrite path_name_join. split; [done|].
      unfold path_join. by destruct directory.
    + by rewrite path_name_join.
    + rewrite path_name_join in Hp. rewrite Hp. eauto.
Qed.

(** X12 — a directory offers a group exactly when it can be listed and
    holds a regular file under the group's [.esm] name; the scan does not
    look into subdirectories. *)
Theorem directory_offers_iff (s : fs) (directory : path) (d : dlc_data) :
  is_Some (directory_candidate s directory d) <->
  s !! directory = Some Directory /\
  is_file s (path_join directory (esm d)) = true /\
  endswith (lower (esm d)) ".esm" = true.
Proof. apply directory_offers_spec. Qed.

(** What a directory offers for a group. *)
Lemma directory_candidate_spec (s : fs) (directory : path) (d : dlc_data)
    (esm_path : path) (ba2_paths : list path) (is_ng : bool) :
  directory_candidate s directory d = Some (esm_path, (ba2_paths, is_ng)) ->
  esm_path = path_join directory (esm d) /\
  (forall p, In p ba2_paths <->
     is_file s p = true /\ is_child directory p = true /\
     endswith (lower (path_name p)) ".esm" = false /\
     endswith (lower (path_name p)) ".ba2" = true /\
     In (ba2_prefix (path_name p)) (ba2_prefixes d)) /\
  is_ng = existsb (fun p => BA2.header_is_next_gen (BA2.from_file s p)) ba2_paths.
Proof.
  unfold directory_candidate.
  destruct (iterdir s directory) as [entries|e] eqn:Hit; [|done].
  pose proof (build_maps_spec (List.filter (is_file s) entries)) as (H1 & _ & H4).
  destruct (build_maps (List.filter (is_file s) entries)) as [esm_map ba2_map].
  cbn [fst snd] in H1, H4. unfold candidate.
  destruct (esm_map !! esm d) as [p0|] eqn:Hp0; [|done].
  pose proof (match_ba2_flag s ba2_map (ba2_prefixes d)) as Hflag.
  pose proof (match_ba2_paths s ba2_map (ba2_prefixes d)) as Hpaths.
  destruct (match_ba2 s ba2_map (ba2_prefixes d)) as [ps b].
  cbn [fst snd] in Hflag, Hpaths. intros [= <- <- <-].
  split; [|split; [|done]].
  - destruct (H1 _ _ Hp0) as (Hin & Hn & He).
    apply (iterdir_files s directory entries p0 Hit) in Hin as [Hf Hc].
    apply is_child_join in Hc as [Hc _]. by rewrite Hn in Hc.
  - intros p. rewrite Hpaths, in_concat. split.
    + intros (l & Hl & Hp). apply in_map_iff in Hl as (k & <- & Hk).
      apply H4 in Hp as (Hin & He & Hb & Hpre).
      apply (iterdir_files s directory entries p Hit) in Hin as [Hf Hc].
      rewrite Hpre. done.
    + intros (Hf & Hc & He & Hb & Hpre).
      exists (default [] (ba2_map !! ba2_prefix (path_name p))). split.
      * apply in_map_iff. eauto.
      * apply H4. split; [|done]. by apply (iterdir_files s directory entries p Hit).
Qed.

(** X13 — what a directory offers for a group: the metadata file is the
    directory's entry under the group's [.esm] name; the archives are
    exactly the regular files of the directory whose name ends in [.ba2]
    (in any letter case) and whose prefix, the part before the first
    [ - ] or else before the first dot, is one of the group's prefixes;
    and the flag is set exactly when one of these archives has a next-gen
    header. *)
Theorem directory_candidate_contents (s : fs) (directory : path) (d : dlc_data)
    (esm_path : path) (ba2_paths : list path) (is_ng : bool) :
  directory_candidate s directory d = Some (esm_path, (ba2_paths, is_ng)) ->
  esm_path = path_join directory (esm d) /\
  (forall p, In p ba2_paths <->
     is_file s p = true /\ is_child directory p = true /\
     endswith (lower (path_name p)) ".esm" = false /\
     endswith (lower (path_name p)) ".ba2" = true /\
     In (ba2_prefix (path_name p)) (ba2_prefixes d)) /\
  is_ng = existsb (fun p => BA2.header_is_next_gen (BA2.from_file s p)) ba2_paths.
Proof. apply directory_candidate_spec. Qed.

Lemma directory_candidate_contents_witness :
  ["B"; "DLCRobot.esm"]%string = path_join ["B"]%string "DLCRobot.esm" /\
  false = existsb (fun p => BA2.header_is_next_gen (BA2.from_file two_directories p))
            [["B"; "DLCRobot - Main.ba2"]%string].
Proof.
  destruct (directory_candidate_contents two_directories ["B"]%string
              (unresolved "DLCRobot.esm" ["DLCRobot"]%string)
              ["B"; "DLCRobot.esm"]%string
              [["B"; "DLCRobot - Main.ba2"]%string] false) as (He & _ & Hf).
  - vm_compute. reflexivity.
  - exact (conj He Hf).
Defined.

End ResolverMoreFacts.

(** ** Further properties: the parallel tree copier *)

Module CopierMoreFacts.
Import Copier CopierSpec CopierFacts ManifestFacts CompletenessFacts CopierMore.

#[local] Arguments copy_chunks : simpl never.

(** A path that is the destination of no manifest entry keeps what it
    held. *)
Lemma copy_frame (src_tree : tree) (src_dir dest_dir : path)
    (environment : env) (completion : list file_info -> list file_info)
    (exclude_dirs exclude_files : option (list string)) (dest0 : gmap path bytes)
    (p : path) :
  (forall l, completion l ≡ₚ l) ->
  (forall info,
      In info (manifest_of environment src_tree src_dir dest_dir exclude_dirs
                 exclude_files) ->
      dest_file info <> p) ->
  dest (copy_directory_parallel src_tree src_dir environment completion dest_dir
          exclude_dirs exclude_files dest0).2 !! p = dest0 !! p.
Proof.
  intros Hperm Hnone.
  destruct (copy_directory_parallel_state src_tree src_dir dest_dir environment
              completion exclude_dirs exclude_files dest0 Hperm)
    as (processed & Hproc & ->).
  rewrite (run_tasks_dest src_tree src_dir environment processed _ p []).
  - destruct (existsb _ processed) eqn:Hex; [|done].
    apply existsb_exists in Hex as (info & Hin & Hp).
    apply bool_decide_eq_true in Hp.
    apply (processed_In _ _ _ Hproc) in Hin. by apply Hnone in Hin.
  - intros info Hin Hp. apply (processed_In _ _ _ Hproc) in Hin.
    by apply Hnone in Hin.
Qed.

(** X14 — [copy_directory_parallel] writes only below the destination
    directory, at the relative paths of files of the source tree; every
    other path of the destination file system keeps what it held. *)
Theorem copy_writes_only_source_paths (src_tree : tree) (src_dir dest_dir : path)
    (environment : env) (completion : list file_info -> list file_info)
    (exclude_dirs exclude_files : option (list string)) (dest0 : gmap path bytes)
    (p : path) :
  (forall l, completion l ≡ₚ l) ->
  (forall dirs name data,
      tree_has src_tree dirs name data -> p <> dest_dir ++ dirs ++ [name]) ->
  dest (copy_directory_parallel src_tree src_dir environment completion dest_dir
          exclude_dirs exclude_files dest0).2 !! p = dest0 !! p.
Proof.
  intros Hperm Hp. apply copy_frame; [done|].
  intros info Hin Hd.
  apply manifest_source in Hin as (dirs & name & data & Hhas & _ & _ & _ & Hdest & _).
  apply (Hp dirs name data Hhas). congruence.
Qed.

Lemma copy_writes_only_source_paths_witness :
  dest (copy_directory_parallel ten_files ["src"]%string quiet (fun l => l)
          ["dst"]%string None None ∅).2 !! ["src"; "f3"]%string = None.
Proof.
  rewrite (copy_writes_only_source_paths ten_files ["src"]%string ["dst"]%string
             quiet (fun l => l) None None ∅ ["src"; "f3"]%string).
  - reflexivity.
  - intros l. reflexivity.
  - intros dirs name data _ H. simpl in H. discriminate.
Defined.

(** X15 — a file whose name is in the excluded-file list, or that lies
    below a directory whose name is in the excluded-directory list, in any
    letter case, is never copied: its destination path keeps what it
    held. *)
Theorem excluded_never_copied (src_tree : tree) (src_dir dest_dir : path)
    (environment : env) (completion : list file_info -> list file_info)
    (exclude_dirs exclude_files : option (list string)) (dest0 : gmap path bytes)
    (dirs : list string) (name : string) :
  (forall l, completion l ≡ₚ l) ->
  excluded_by_name (default default_exclude_dirs exclude_dirs)
                   (default [] exclude_files) dirs name = true ->
  dest (copy_directory_parallel src_tree src_dir environment completion dest_dir
          exclude_dirs exclude_files dest0).2 !! (dest_dir ++ dirs ++ [name])
  = dest0 !! (dest_dir ++ dirs ++ [name]).
Proof.
  intros Hperm Hex. apply copy_frame; [done|].
  intros info Hin Hd.
  apply manifest_source in Hin
    as (dirs' & name' & data & _ & Hdirs & Hname & _ & Hdest & _).
  rewrite Hdest in Hd. apply app_inv_head in Hd.
  apply app_inj_tail in Hd as [-> ->].
  unfold excluded_by_name in Hex. apply orb_true_iff in Hex as [Hex|Hex].
  - congruence.
  - apply existsb_exists in Hex as (d & Hd & Hx). rewrite (Hdirs d Hd) in Hx. done.
Qed.

Lemma excluded_never_copied_witness :
  dest (copy_directory_parallel ten_files ["src"]%string quiet (fun l => l)
          ["dst"]%string None (Some ["F3"]%string) ∅).2 !! ["dst"; "f3"]%string
  = None.
Proof.
  rewrite (excluded_never_copied ten_files ["src"]%string ["dst"]%string
             quiet (fun l => l) None (Some ["F3"]%string) ∅ [] "f3"%string).
  - reflexivity.
  - intros l. reflexivity.
  - reflexivity.
Defined.

Lemma foldr_sum_bounds {A : Type} (f g : A -> Z) (l : list A) :
  (forall x, In x l -> 0 <= f x <= g x) ->
  0 <= foldr (fun x acc => f x + acc) 0 l <= foldr (fun x acc => g x + acc) 0 l.
Proof.
  induction l as [|a l IH]; intros H; simpl; [lia|].
  pose proof (H a (or_introl eq_refl)).
  assert (forall x, In x l -> 0 <= f x <= g x) as Hl by (intros x Hx; apply H; by right).
  specialize (IH Hl). lia.
Qed.

(** X16 — the byte counter never passes the total size of the manifest:
    in a tree that lists no name twice it ends between zero and the sum of
    the manifest's sizes, whatever fails. *)
Theorem copied_counter_bounded (src_tree : tree) (src_dir dest_dir : path)
    (environment : env) (completion : list file_info -> list file_info)
    (exclude_dirs exclude_files : option (list string)) (dest0 : gmap path bytes) :
  tree_wf src_tree = true ->
  (forall l, completion l ≡ₚ l) ->
  0 <= copied_counter
         (copy_directory_parallel src_tree src_dir environment completion dest_dir
            exclude_dirs exclude_files dest0).2
    <= total_size (manifest_of environment src_tree src_dir dest_dir exclude_dirs
                     exclude_files).
Proof.
  intros Hwf Hperm. rewrite counter_of_result by done.
  unfold total_size. apply foldr_sum_bounds.
  intros info Hin.
  destruct (manifest_entry _ _ _ _ _ _ info Hwf Hin)
    as (rel & data & _ & _ & Hsize & Ho).
  rewrite Hsize. by apply counted_bounds.
Qed.

Lemma copied_counter_bounded_witness :
  0 <= copied_counter
         (copy_directory_parallel ten_files ["src"]%string disk_full_at_f9
            (fun l => l) ["dst"]%string None None ∅).2
    <= total_size (manifest_of disk_full_at_f9 ten_files ["src"]%string
                     ["dst"]%string None None).
Proof.
  apply (copied_counter_bounded ten_files ["src"]%string ["dst"]%string
           disk_full_at_f9 (fun l => l) None None ∅).
  - reflexivity.
  - intros l. reflexivity.
Defined.

Lemma read_chunk_take_drop (n : N) (d : bytes) :
  read_chunk n d = (take (N.to_nat n) d, drop (N.to_nat n) d).
Proof.
  revert n. induction d as [|b d IH]; intros n; cbn [read_chunk].
  { by rewrite take_nil, drop_nil. }
  case_bool_decide as Hn.
  { subst n. done. }
  rewrite IH. replace (N.to_nat n) with (S (N.to_nat (N.pred n))) by lia. done.
Qed.

(** A fault at chunk [k] comes after the first [k] chunks of the source
    have been handed over. *)
Lemma copy_chunks_fault (k : nat) (e : exn) (n : nat) (fuel : nat) :
  forall (index : nat) (fsrc fdest : bytes) (counter : Z),
    (index <= k)%nat -> (length fsrc < fuel)%nat ->
    (copy_chunks fuel (FailAtChunk k e n) index fsrc fdest counter).1.2
    = fdest ++ take ((k - index) * N.to_nat chunk_size) fsrc.
Proof.
  induction fuel as [|fuel IH]; intros index fsrc fdest counter Hk Hfuel; [lia|].
  unfold copy_chunks; fold copy_chunks. case_bool_decide as Hki.
  { subst. rewrite Nat.sub_diag. cbn [fst snd]. by rewrite take_0, app_nil_r. }
  rewrite read_chunk_take_drop.
  set (c := N.to_nat chunk_size).
  assert (Hc : (0 < c)%nat) by (unfold c; pose proof chunk_size_nonzero; lia).
  destruct (take c fsrc) as [|b chunk] eqn:Htake.
  { cbn [fst snd].
    assert (fsrc = []) as ->.
    { destruct fsrc; [done|]. destruct c; [lia|done]. }
    by rewrite take_nil, app_nil_r. }
  rewrite IH.
  - rewrite <- app_assoc. f_equal. rewrite <- Htake.
    replace ((k - index) * c)%nat with (c + (k - S index) * c)%nat by nia.
    by rewrite take_take_drop.
  - lia.
  - rewrite length_drop.
    assert (length (take c fsrc) <> 0)%nat by (by rewrite Htake).
    rewrite length_take in H. lia.
Qed.

(** X17 — a copy whose write of chunk [k] fails is recorded as a failure
    and its partial output stays in place: the destination holds the
    bytes that reached the file, the first [n] bytes of the source for
    the [n] the environment determines (a part of chunk [k] may be among
    them, and chunks handed over before may be missing), while the
    counter has advanced by the first [k] chunks. *)
Theorem interrupted_copy_leaves_prefix (src_tree : tree) (src_dir dest_dir : path)
    (environment : env) (completion : list file_info -> list file_info)
    (exclude_dirs exclude_files : option (list string)) (dest0 : gmap path bytes)
    (info : file_info) (k : nat) (e : exn) (n : nat) :
  tree_wf src_tree = true ->
  (forall l, completion l ≡ₚ l) ->
  In info (manifest_of environment src_tree src_dir dest_dir exclude_dirs
             exclude_files) ->
  cancel_requested environment (src_file info) = false ->
  fault_of environment (src_file info) = FailAtChunk k e n ->
  let result :=
    copy_directory_parallel src_tree src_dir environment completion dest_dir
      exclude_dirs exclude_files dest0 in
  exists data,
    open_src src_tree src_dir (src_file info) = Ret data /\
    dest result.2 !! dest_file info = Some (take n data) /\
    counted src_tree src_dir environment info
    = Z.of_nat (length (take (k * N.to_nat chunk_size) data)) /\
    In (src_file info, str_exn e) (failed_files result.2).
Proof.
  intros Hwf Hperm Hin Hc Hf result.
  destruct (manifest_entry _ _ _ _ _ _ info Hwf Hin) as (rel & data & _ & _ & _ & Ho).
  exists data. split; [done|]. split; [|split].
  - apply dest_holds_written; try done.
    unfold written, opened. by rewrite Hc, Hf, Ho.
  - unfold counted, handed, opened. rewrite Hc, Hf, Ho.
    cbn [fmap option_fmap option_map default].
    rewrite (copy_chunks_fault k e n (S (length data)) 0 data [] 0) by lia.
    by rewrite Nat.sub_0_r.
  - apply failure_recorded; try done.
    unfold outcome. rewrite Hc, Hf, Ho. done.
Qed.

Lemma interrupted_copy_leaves_prefix_witness :
  exists data,
    open_src ten_files ["src"]%string ["src"; "f9"]%string = Ret data /\
    dest (copy_directory_parallel ten_files ["src"]%string disk_full_at_f9
            (fun l => l) ["dst"]%string None None ∅).2 !! ["dst"; "f9"]%string
    = Some (take 0 data).
Proof.
  destruct (interrupted_copy_leaves_prefix ten_files ["src"]%string ["dst"]%string
              disk_full_at_f9 (fun l => l) None None ∅
              (mk_info ["src"; "f9"]%string ["dst"; "f9"]%string 1) 0
              (OSError "No space left on device") 0)
    as (data & Ho & Hd & _).
  - reflexivity.
  - intros l. reflexivity.
  - vm_compute. repeat (first [left; reflexivity | right]).
  - reflexivity.
  - reflexivity.
  - exists data. exact (conj Ho Hd).
Defined.

(** *** The variant with exact file exclusions *)

Section variant.
Variables (src_tree : tree) (src_dir : path) (environment : env).

Abbreviation outcome' := (outcome src_tree src_dir environment).
Abbreviation after_task' := (after_task src_tree src_dir environment).
Abbreviation run_tasks' := (run_tasks src_tree src_dir environment).
Abbreviation collect_x := (collect_exclusions src_tree src_dir environment).
Abbreviation cancelled' := (cancelled environment).
Abbreviation fails_in_task' := (fails_in_task src_tree src_dir environment).

(** The worker, in closed form. *)
Lemma copy_single_file_safe_closed (info : file_info) (st : state) :
  copy_single_file_safe src_tree src_dir environment info st
  = if cancel_requested environment (src_file info) then
      (Raise (InterruptedError "Installation cancelled by user"), st)
    else
      (Ret match outcome' info with
           | None => (true, src_file info, None)
           | Some e => (false, src_file info, Some (str_exn e))
           end,
       after_task' info st).
Proof.
  unfold copy_single_file_safe, CopierSpec.after_task,
    CopierSpec.outcome, CopierSpec.written, CopierSpec.counted, CopierSpec.handed,
    CopierSpec.opened, trace, started.
  unfold copy_attempt, remove_readonly_and_overwrite, log_event.
  destruct (cancel_requested environment (src_file info)) eqn:Hc; simpl; [done|].
  destruct (fault_of environment (src_file info)) as [|e|e|k e n|e] eqn:Hf; simpl.
  - destruct (open_src src_tree src_dir (src_file info)) as [data|e] eqn:Ho; simpl.
    + rewrite copy_chunks_from.
      rewrite copy_chunks_complete by (lia || done). simpl.
      destruct (dest st !! dest_file info); simpl; do 2 f_equal;
        by rewrite ?app_nil_r, <- ?app_assoc.
    + destruct (dest st !! dest_file info); simpl; do 2 f_equal;
        (lia || by rewrite <- ?app_assoc).
  - f_equal. destruct st; simpl. f_equal; [lia|by rewrite app_nil_r].
  - destruct (dest st !! dest_file info); simpl; do 2 f_equal;
      (lia || by rewrite <- ?app_assoc).
  - destruct (open_src src_tree src_dir (src_file info)) as [data|e'] eqn:Ho; simpl.
    + rewrite copy_chunks_from.
      pose proof (copy_chunks_end (S (length data)) (FailAtChunk k e n) 0 data [] 0) as He.
      destruct (copy_chunks (S (length data)) (FailAtChunk k e n) 0 data [] 0)
        as [[r w] c] eqn:Hcc.
      simpl in He. rewrite He by lia. simpl.
      destruct (dest st !! dest_file info); simpl; do 2 f_equal;
        by rewrite <- ?app_assoc.
    + destruct (dest st !! dest_file info); simpl; do 2 f_equal;
        (lia || by rewrite <- ?app_assoc).
  - destruct (open_src src_tree src_dir (src_file info)) as [data|e'] eqn:Ho; simpl.
    + rewrite copy_chunks_from.
      rewrite copy_chunks_complete by (lia || done). simpl.
      destruct (dest st !! dest_file info); simpl; do 2 f_equal;
        by rewrite <- ?app_assoc.
    + destruct (dest st !! dest_file info); simpl; do 2 f_equal;
        (lia || by rewrite <- ?app_assoc).
Qed.

Abbreviation records_of' := (records_of src_tree src_dir environment).

(** One turn of the collecting loop, in closed form. *)
Lemma collect_exclusions_closed (files_copied : Z) (st : state) (info : file_info) :
  exists files_copied',
    collect_x (files_copied, st) info
    = (files_copied',
       mk_state (dest (after_task' info st)) (copied_counter (after_task' info st))
                (failed_files st ++ records_of' info)
                (events (after_task' info st))).
Proof.
  unfold collect_exclusions. rewrite copy_single_file_safe_closed.
  unfold records_of, cancelled.
  destruct (cancel_requested environment (src_file info)) eqn:Hc.
  - eexists. f_equal. unfold CopierSpec.after_task, CopierSpec.written,
      CopierSpec.counted, CopierSpec.handed, CopierSpec.opened, trace, started.
    rewrite Hc. simpl. f_equal; [lia|by rewrite app_nil_r].
  - destruct (outcome' info) as [e|] eqn:Ho.
    + eexists. f_equal. cbn [default]. f_equal.
      unfold CopierSpec.after_task. rewrite Ho. cbn [failed_files].
      by rewrite <- app_assoc.
    + eexists. f_equal. unfold CopierSpec.after_task. rewrite Ho.
      cbn [failed_files]. destruct st as [d c f ev]. by rewrite !app_nil_r.
Qed.

(** Dest, counter and trace of a run do not depend on the failure list it
    starts from. *)
Lemma run_tasks_ext (l : list file_info) :
  forall st1 st2 : state,
    dest st1 = dest st2 -> copied_counter st1 = copied_counter st2 ->
    events st1 = events st2 ->
    dest (run_tasks' l st1) = dest (run_tasks' l st2) /\
    copied_counter (run_tasks' l st1) = copied_counter (run_tasks' l st2) /\
    events (run_tasks' l st1) = events (run_tasks' l st2).
Proof.
  induction l as [|info l IH]; intros st1 st2 Hd Hc He; [done|].
  rewrite !run_tasks_cons. apply IH.
  - unfold CopierSpec.after_task. cbn [dest]. by rewrite Hd.
  - unfold CopierSpec.after_task. cbn [copied_counter]. by rewrite Hc.
  - unfold CopierSpec.after_task, trace. cbn [events]. by rewrite He, Hd.
Qed.

Lemma foldl_collect_exclusions (l : list file_info) :
  forall (files_copied : Z) (st : state),
    let r := (foldl collect_x (files_copied, st) l).2 in
    dest r = dest (run_tasks' l st) /\
    copied_counter r = copied_counter (run_tasks' l st) /\
    events r = events (run_tasks' l st) /\
    failed_files r = failed_files st ++ flat_map records_of' l.
Proof.
  induction l as [|info l IH]; intros fc st.
  { cbn [foldl snd flat_map]. by rewrite app_nil_r. }
  cbn [foldl flat_map].
  destruct (collect_exclusions_closed fc st info) as [fc' ->].
  rewrite run_tasks_cons.
  set (st1 := mk_state _ _ _ _).
  destruct (IH fc' st1) as (Hd & Hc & He & Hf).
  destruct (run_tasks_ext l st1 (after_task' info st)) as (Hd' & Hc' & He'); try done.
  cbv zeta. rewrite Hd, Hc, He, Hf, Hd', Hc', He'.
  repeat split. unfold st1. cbn [failed_files]. by rewrite <- app_assoc.
Qed.

Lemma records_of_length (l : list file_info) :
  length (flat_map records_of' l)
  = (2 * length (List.filter fails_in_task' l) + length (List.filter cancelled' l))%nat.
Proof.
  induction l as [|info l IH]; [done|].
  cbn [flat_map List.filter]. rewrite length_app, IH.
  unfold records_of, fails_in_task.
  destruct (cancelled' info); cbn [negb andb length]; [lia|].
  destruct (outcome' info); cbn [length]; lia.
Qed.

End variant.

(** X18 — [copy_directory_parallel_with_exclusions] files every failure
    of a worker twice, once by the worker and once by the collecting loop,
    and a cancelled task once: with [T] tasks failing and [C] cancelled out
    of [M], [failed_files] has [2 T + C] entries, and the run raises the
    aggregate exception when [10 (2 T + C) > M] and returns [True]
    otherwise. *)
Theorem exclusions_variant_counts_failures_twice (src_tree : tree)
    (src_dir dest_dir : path) (environment : env)
    (completion : list file_info -> list file_info)
    (exclude_dirs exclude_files : option (list string)) (dest0 : gmap path bytes) :
  (forall l, completion l ≡ₚ l) ->
  let manifest :=
    scan_tree_set src_dir dest_dir
      (map lower (default default_exclude_dirs exclude_dirs))
      (default [] exclude_files) (getsize_fails environment) src_dir src_tree in
  manifest <> [] ->
  let M := length manifest in
  let T := length (List.filter (fails_in_task src_tree src_dir environment) manifest) in
  let C := length (List.filter (cancelled environment) manifest) in
  let result :=
    copy_directory_parallel_with_exclusions src_tree src_dir environment completion
      dest_dir exclude_dirs exclude_files dest0 in
  failed_files result.2
  ≡ₚ flat_map (records_of src_tree src_dir environment) manifest /\
  length (failed_files result.2) = (2 * T + C)%nat /\
  ((M < 10 * (2 * T + C))%nat ->
   result.1 = Raise (Exception "Too many copy failures")) /\
  ((10 * (2 * T + C) <= M)%nat -> result.1 = Ret true).
Proof.
  intros Hperm manifest Hne M T C result.
  unfold result, copy_directory_parallel_with_exclusions. fold manifest.
  destruct manifest as [|info0 rest] eqn:Hm; [done|].
  set (processed := completion (sort_by_size (info0 :: rest))).
  assert (Hproc : processed ≡ₚ info0 :: rest).
  { unfold processed. by rewrite Hperm, sort_by_size_perm. }
  destruct (foldl_collect_exclusions src_tree src_dir environment processed 0
              (mk_state dest0 0 [] [])) as (_ & _ & _ & Hf).
  destruct (foldl _ _ processed) as [fc st]. cbn [snd failed_files app] in Hf.
  assert (Hperm_f : failed_files st
                    ≡ₚ flat_map (records_of src_tree src_dir environment)
                         (info0 :: rest)).
  { rewrite Hf. by apply Permutation_flat_map. }
  assert (Hlen : length (failed_files st) = (2 * T + C)%nat).
  { rewrite Hperm_f. apply records_of_length. }
  assert (Hsort : length (sort_by_size (info0 :: rest)) = M).
  { by rewrite sort_by_size_perm. }
  rewrite Hlen, Hsort.
  destruct (too_many_failures (2 * T + C) M) eqn:Htm; cbn [fst snd].
  - apply too_many_failures_spec in Htm.
    split; [done|]. split; [done|]. split; [done|]. lia.
  - assert (~ (M < 10 * (2 * T + C))%nat).
    { rewrite <- too_many_failures_spec. by rewrite Htm. }
    split; [done|]. split; [done|]. split; [lia|done].
Qed.

Lemma exclusions_variant_counts_failures_twice_witness :
  (copy_directory_parallel_with_exclusions ten_files ["src"]%string
     permission_error_at_f9 (fun l => l) ["dst"]%string None None ∅).1
  = Raise (Exception "Too many copy failures").
Proof.
  destruct (exclusions_variant_counts_failures_twice ten_files ["src"]%string
              ["dst"]%string permission_error_at_f9 (fun l => l) None None ∅)
    as (_ & _ & Hraise & _).
  - intros l. reflexivity.
  - vm_compute. discriminate.
  - apply Hraise. vm_compute. lia.
Defined.

Lemma in_list_lower (x : string) (l : list string) :
  in_list x l = true -> in_list (lower x) (map lower l) = true.
Proof.
  rewrite !in_list_true. intros H. apply in_map_iff. eauto.
Qed.

Section superset.
Variables (src_dir dest_dir : path).
Variables (exclude_dirs_lower exclude_files : list string).
Variable getsize_fails : path -> bool.

Lemma scan_files_set_superset (root : path) (files : list (string * bytes))
    (info : file_info) :
  In info (scan_files src_dir dest_dir (map lower exclude_files) getsize_fails
             root files) ->
  In info (scan_files_set src_dir dest_dir exclude_files getsize_fails root files).
Proof.
  unfold scan_files, scan_files_set. rewrite !in_flat_map.
  intros ([file data] & Hin & Hinfo). exists (file, data). split; [done|].
  destruct (in_list (lower file) (map lower exclude_files)) eqn:Hl; [done|].
  destruct (in_list file exclude_files) eqn:He; [|done].
  apply in_list_lower in He. congruence.
Qed.

Lemma scan_tree_set_superset (t : tree) :
  forall (root : path) (info : file_info),
    In info (scan_tree src_dir dest_dir exclude_dirs_lower
               (map lower exclude_files) getsize_fails root t) ->
    In info (scan_tree_set src_dir dest_dir exclude_dirs_lower exclude_files
               getsize_fails root t).
Proof.
  induction t as [files dirs IH] using tree_ind'. intros root info.
  cbn [scan_tree scan_tree_set]. rewrite !in_app_iff, !in_flat_map.
  intros [Hf|([d sub] & Hin & Hsub)].
  - left. destruct (in_excluded_directory exclude_dirs_lower root); [done|].
    by apply scan_files_set_superset.
  - right. exists (d, sub). split; [done|].
    destruct (in_list (lower d) exclude_dirs_lower); [done|].
    rewrite Forall_forall in IH. apply list_elem_of_In in Hin.
    by apply (IH (d, sub) Hin).
Qed.

End superset.

(** X19 — [copy_directory_parallel_with_exclusions] compares file names
    with the excluded-file list as they are, [copy_directory_parallel]
    without regard to letter case: called with the same arguments, the
    variant copies every file that [copy_directory_parallel] copies. *)
Theorem exact_exclusion_copies_more (environment : env) (src_tree : tree)
    (src_dir dest_dir : path)
    (exclude_dirs exclude_files : option (list string)) (info : file_info) :
  In info (manifest_of environment src_tree src_dir dest_dir exclude_dirs
             exclude_files) ->
  In info (scan_tree_set src_dir dest_dir
             (map lower (default default_exclude_dirs exclude_dirs))
             (default [] exclude_files) (getsize_fails environment)
             src_dir src_tree).
Proof. apply scan_tree_set_superset. Qed.

Lemma exact_exclusion_copies_more_witness :
  In (mk_info ["src"; "f4"]%string ["dst"; "f4"]%string 1)
     (scan_tree_set ["src"]%string ["dst"]%string
        (map lower (default default_exclude_dirs None))
        (default [] (Some ["F3"]%string)) (getsize_fails quiet)
        ["src"]%string ten_files).
Proof.
  apply (exact_exclusion_copies_more quiet ten_files ["src"]%string ["dst"]%string
           None (Some ["F3"]%string)).
  vm_compute. repeat (first [left; reflexivity | right]).
Defined.

(** The two variants differ on a name that matches only in another letter
    case. *)
Example exclusion_case_difference :
  let f3 := mk_info ["src"; "f3"]%string ["dst"; "f3"]%string 1 in
  ~ In f3 (manifest_of quiet ten_files ["src"]%string ["dst"]%string None
             (Some ["F3"]%string)) /\
  In f3 (scan_tree_set ["src"]%string ["dst"]%string
           (map lower default_exclude_dirs) ["F3"]%string sizes_readable
           ["src"]%string ten_files).
Proof.
  split.
  - vm_compute. intros H. repeat (destruct H as [H|H]; [discriminate|]). done.
  - vm_compute. repeat (first [left; reflexivity | right]).
Qed.

(** *** The sequential copier *)

(** X20 — the copy loop of [copy_directory_with_progress] ends at the
    first entry that finds the cancellation flag set, with the
    cancellation signal; whose destination directory cannot be created,
    with the error of [os.makedirs]; whose first copy attempt raises
    anything but a [PermissionError], with that exception; or whose copy
    succeeds, at the first attempt or at the retry, while the total size
    of the manifest is zero, with the [ZeroDivisionError] of the progress
    update.  A [PermissionError] never ends the loop, whatever the retry
    does; and without such an entry the loop returns normally. *)
Theorem sequential_copy_result (src_tree : tree) (src_dir : path)
    (environment : env) (retry_fault : path -> fault) (total_size : Z)
    (files_to_copy : list file_info) (st : state) :
  (copy_loop_sequential src_tree src_dir environment retry_fault total_size
     files_to_copy st).1
  = match head (omap (stops_with src_tree src_dir environment retry_fault total_size)
                     files_to_copy) with
    | Some e => Raise e
    | None => Ret tt
    end.
Proof.
  assert (Hcopy : forall f info st0,
             (copy2_file src_tree src_dir f info st0).1
             = match copy2_failure src_tree src_dir f info with
               | Some e => Raise e
               | None => Ret tt
               end).
  { intros f info st0. unfold copy2_file, copy2_failure.
    destruct f; try done;
      destruct (open_src src_tree src_dir (src_file info)); done. }
  revert st. induction files_to_copy as [|info l IH]; intros st; [done|].
  cbn [copy_loop_sequential omap list_omap].
  unfold stops_with at 1.
  destruct (cancel_requested environment (src_file info)); [done|].
  set (st1 := remove_readonly_and_overwrite (dest_file info) st).
  assert (Hbody :
    forall f,
      (match copy2_file src_tree src_dir f info st1 with
       | (Ret _, st') =>
           match progress_percentage total_size with
           | Raise e => (Raise e, st')
           | Ret _ =>
               copy_loop_sequential src_tree src_dir environment retry_fault
                 total_size l st'
           end
       | (Raise e, st') =>
           if is_PermissionError e then
             match copy2_file src_tree src_dir (retry_fault (src_file info)) info
                     (remove_readonly_and_overwrite (dest_file info) st') with
             | (Ret _, st'') =>
                 match progress_percentage total_size with
                 | Raise e' => (Raise e', st'')
                 | Ret _ =>
                     copy_loop_sequential src_tree src_dir environment retry_fault
                       total_size l st''
                 end
             | (Raise _, st'') =>
                 copy_loop_sequential src_tree src_dir environment retry_fault
                   total_size l st''
             end
           else (Raise e, st')
       end).1
      = match head
                match
                  match copy2_failure src_tree src_dir f info with
                  | None => division total_size
                  | Some e =>
                      if is_PermissionError e then
                        match copy2_failure src_tree src_dir
                                (retry_fault (src_file info)) info with
                        | None => division total_size
                        | Some _ => None
                        end
                      else Some e
                  end
                with
                | Some y =>
                    y :: omap (stops_with src_tree src_dir environment retry_fault
                                 total_size) l
                | None =>
                    omap (stops_with src_tree src_dir environment retry_fault
                            total_size) l
                end
        with
        | Some e => Raise e
        | None => Ret tt
        end).
  { intros f.
    assert (Hprog : forall st',
      (match progress_percentage total_size with
       | Raise e => (Raise e, st')
       | Ret _ =>
           copy_loop_sequential src_tree src_dir environment retry_fault
             total_size l st'
       end).1
      = match head match division total_size with
                   | Some y =>
                       y :: omap (stops_with src_tree src_dir environment
                                    retry_fault total_size) l
                   | None =>
                       omap (stops_with src_tree src_dir environment retry_fault
                               total_size) l
                   end with
        | Some e => Raise e
        | None => Ret tt
        end).
    { intros st'. unfold progress_percentage, division.
      case_bool_decide; [done|]. apply IH. }
    pose proof (Hcopy f info st1) as H1.
    destruct (copy2_file src_tree src_dir f info st1) as [[[]|e] st'].
    - cbn [fst] in H1.
      destruct (copy2_failure src_tree src_dir f info); [done|]. apply Hprog.
    - cbn [fst] in H1.
      destruct (copy2_failure src_tree src_dir f info) as [e0|]; [|done].
      injection H1 as ->.
      destruct (is_PermissionError e0); [|done].
      pose proof (Hcopy (retry_fault (src_file info)) info
                    (remove_readonly_and_overwrite (dest_file info) st')) as H2.
      destruct (copy2_file src_tree src_dir (retry_fault (src_file info)) info
                  (remove_readonly_and_overwrite (dest_file info) st'))
        as [[[]|e'] st''].
      + cbn [fst] in H2.
        destruct (copy2_failure src_tree src_dir (retry_fault (src_file info)) info);
          [done|].
        apply Hprog.
      + cbn [fst] in H2.
        destruct (copy2_failure src_tree src_dir (retry_fault (src_file info)) info);
          [|done].
        apply IH. }
  destruct (fault_of environment (src_file info)) as [|e|e|k e n|e] eqn:Hf;
    try apply Hbody.
  done.
Qed.

(** On a manifest of empty files the progress update divides by zero after
    the first copy. *)
Example sequential_copier_divides_by_zero :
  (copy_loop_sequential (Tree [("empty"%string, [])] []) ["src"]%string quiet
     retry_succeeds 0
     [mk_info ["src"; "empty"]%string ["dst"; "empty"]%string 0]
     initial_state).1
  = Raise ZeroDivisionError.
Proof. reflexivity. Qed.

End CopierMoreFacts.

(** ** Further properties: copying the resolved DLC files *)

Module DlcCopyFacts.
Import DlcResolver ResolverSpec ResolverFacts ResolverMore ResolverMoreFacts.
Import NormaliserSpec NormaliserFacts DowngraderMore DowngraderMoreFacts.
Import PatcherFacts DlcCopy.

(** *** The copy loop *)

Lemma mfor_app {A B : Type} (l1 l2 : list A) (body : B -> A -> M B) :
  forall (acc : B) (s : fs),
    mfor (l1 ++ l2) acc body s
    = match mfor l1 acc body s with
      | (Ret acc', s') => mfor l2 acc' body s'
      | (Raise e, s') => (Raise e, s')
      end.
Proof.
  induction l1 as [|x l1 IH]; intros acc s; [done|].
  cbn [app mfor]. unfold mbind.
  destruct (body acc x s) as [[acc'|e] s1]; [apply IH|done].
Qed.

Section copy_dlc.
Context {E : os_faults}.

(** The nested loops of [copy_best_dlc_files] are one loop over all the
    files. *)
Lemma copy_best_dlc_files_flat (dlc_info : list (string * dlc_data))
    (dest_dir : path) (s : fs) :
  copy_best_dlc_files dlc_info dest_dir s
  = mfor (all_files dlc_info) tt (fun _ file_path => copy_file dest_dir file_path) s.
Proof.
  unfold copy_best_dlc_files, all_files. revert s.
  induction dlc_info as [|[name d] info IH]; intros s; [done|].
  cbn [mfor map concat snd]. rewrite mfor_app. unfold mbind.
  destruct (found d).
  - destruct (mfor (files_of d) tt _ s) as [[[]|e] s1]; [apply IH|done].
  - cbn [mfor]. unfold mret. apply IH.
Qed.

(** One call of [copy_file] on a regular file never raises; it touches at
    most the destination of the file. *)
Lemma copy_file_file (dest_dir p : path) (s : fs) (data : bytes) :
  s !! p = Some (File data) ->
  s !! path_join dest_dir (path_name p) <> Some Directory ->
  exists s1,
    copy_file dest_dir p s = (Ret tt, s1) /\
    s1 !! path_join dest_dir (path_name p) = left_at_dest s dest_dir p data /\
    forall q, q <> path_join dest_dir (path_name p) -> s1 !! q = s !! q.
Proof.
  intros Hp Hd. unfold copy_file, mtry, copy2, left_at_dest, copy_target. rewrite Hp.
  set (dst := path_join dest_dir (path_name p)) in *.
  assert (Htarget : match s !! dst with
                    | Some Directory => path_join dst (path_name p)
                    | _ => dst
                    end = dst).
  { by destruct (s !! dst) as [[?|]|]. }
  rewrite Htarget.
  destruct (copy_fault p dst) as [|e [n|]]; unfold mret.
  - eexists. split; [done|]. split; [apply lookup_insert_eq|].
    intros q Hq. by rewrite lookup_insert_ne.
  - eexists. split; [done|]. split; [apply lookup_insert_eq|].
    intros q Hq. by rewrite lookup_insert_ne.
  - exists s. done.
Qed.

Lemma left_at_dest_not_dir (s : fs) (dest_dir p : path) (data : bytes) :
  s !! path_join dest_dir (path_name p) <> Some Directory ->
  left_at_dest s dest_dir p data <> Some Directory.
Proof.
  intros Hd. unfold left_at_dest.
  by destruct (copy_fault p (path_join dest_dir (path_name p))) as [|e [n|]].
Qed.

(** Copying a list of regular files into a directory whose entries of
    these names are no directories. *)
Lemma copy_files_spec (dest_dir : path) (files : list path) :
  forall s : fs,
    (forall p, In p files -> exists data, s !! p = Some (File data)) ->
    (forall p n, In p files -> p <> path_join dest_dir n) ->
    (forall p, In p files ->
       s !! path_join dest_dir (path_name p) <> Some Directory) ->
    exists s',
      mfor files tt (fun _ file_path => copy_file dest_dir file_path) s
      = (Ret tt, s') /\
      (forall q, (forall p, In p files -> q <> path_join dest_dir (path_name p)) ->
         s' !! q = s !! q) /\
      (forall p data, In p files ->
         (forall p', In p' files -> path_name p' = path_name p -> p' = p) ->
         s !! p = Some (File data) ->
         s' !! path_join dest_dir (path_name p) = left_at_dest s dest_dir p data).
Proof.
  induction files as [|x l IH]; intros s Hsrc Hne Hdir.
  { exists s. split; [done|]. split; [done|]. intros p data []. }
  destruct (Hsrc x (or_introl eq_refl)) as [datax Hx].
  cbn [mfor]. unfold mbind.
  destruct (copy_file_file dest_dir x s datax Hx) as (s1 & -> & Hdst & Hother).
  { apply Hdir. by left. }
  assert (Hsame : forall p, In p (x :: l) -> s1 !! p = s !! p).
  { intros p Hp. apply Hother. intros Heq. by apply (Hne p (path_name x) Hp). }
  destruct (IH s1) as (s' & Hrun & Hframe & Hcopy).
  - intros p Hp. destruct (Hsrc p (or_intror Hp)) as [d Hd].
    exists d. rewrite Hsame; [done|by right].
  - intros p n Hp. apply Hne. by right.
  - intros p Hp.
    destruct (decide (path_join dest_dir (path_name p)
                      = path_join dest_dir (path_name x))) as [Heq|Hn].
    + rewrite Heq, Hdst. apply left_at_dest_not_dir, Hdir. by left.
    + rewrite Hother by done. apply Hdir. by right.
  - exists s'. split; [done|]. split.
    + intros q Hq. rewrite Hframe.
      * apply Hother. apply Hq. by left.
      * intros p Hp. apply Hq. by right.
    + intros p data Hp Hinj Hdata.
      destruct (decide (p ∈ l)) as [Hin|Hnin].
      { apply list_elem_of_In in Hin.
        rewrite (Hcopy p data Hin).
        - unfold left_at_dest.
          destruct (copy_fault p (path_join dest_dir (path_name p)))
            as [|e [n|]] eqn:Hf; try done.
          destruct (decide (path_join dest_dir (path_name p)
                            = path_join dest_dir (path_name x))) as [Heq|Hn].
          + assert (x = p) as ->.
            { apply Hinj; [by left|]. by apply path_join_inj in Heq. }
            rewrite Hdst. unfold left_at_dest. by rewrite Hf.
          + by apply Hother.
        - intros p' Hp' Hn. apply Hinj; [by right|done].
        - rewrite Hsame; [done|by right]. }
      destruct Hp as [<-|Hp]; [|by apply list_elem_of_In in Hp].
      assert (data = datax) as -> by congruence.
      rewrite Hframe; [done|].
      intros p' Hp' Heq. apply path_join_inj in Heq.
      apply Hnin, list_elem_of_In.
      by rewrite <- (Hinj p' (or_intror Hp') (eq_sym Heq)).
Qed.

End copy_dlc.

(** *** The files of a detected group *)

Lemma offers_In (s : fs) (d : dlc_data) (dirs : list (path * string))
    (src : string) (c : path * (list path * bool)) :
  In (src, c) (offers s d dirs) ->
  exists dir, In (dir, src) dirs /\ directory_candidate s dir d = Some c.
Proof.
  induction dirs as [|[dir0 src0] dirs IH]; [done|].
  rewrite offers_cons.
  destruct (directory_candidate s dir0 d) as [c0|] eqn:Hc.
  - intros [[= <- <-]|Hin].
    + exists dir0. split; [by left|done].
    + destruct (IH Hin) as (dir & ? & ?). exists dir. split; [by right|done].
  - intros Hin. destruct (IH Hin) as (dir & ? & ?).
    exists dir. split; [by right|done].
Qed.

Lemma best_In (l : list offer) (o : offer) : best l = Some o -> In o l.
Proof.
  unfold best. destruct (List.find compatible l) as [o'|] eqn:Hf.
  - intros [= <-]. by apply find_some in Hf as [? _].
  - destruct l as [|o' l]; [done|]. intros [= <-]. by left.
Qed.

Lemma scanned_source_names (s : fs) (f4_path : path)
    (f4vr_path london_data_path : option path) (dir : path) (src : string) :
  In (dir, src) (scanned_directories s f4_path f4vr_path london_data_path) ->
  String.eqb src "" = false.
Proof.
  unfold scanned_directories. rewrite !in_app_iff.
  intros [H|[H|H]];
    repeat match goal with
           | H : In _ (if ?b then _ else _) |- _ => destruct b
           | H : In _ (match ?o with Some _ => _ | None => _ end) |- _ =>
               destruct o
           | H : In _ (_ :: _) |- _ => destruct H as [H|H]
           | H : In _ [] |- _ => destruct H
           | H : (_, _) = (_, _) |- _ => injection H as <- <-
           end; reflexivity.
Qed.

Lemma scan_directories_length (s : fs) (dirs : list (path * string)) :
  forall info, length (scan_directories s dirs info) = length info.
Proof.
  unfold scan_directories.
  induction dirs as [|[dir src] dirs IH]; intros info; [done|].
  cbn [foldl]. rewrite IH. unfold _scan_single_directory_for_dlc.
  destruct (iterdir s dir) as [entries|]; [|done].
  destruct (build_maps _) as [esm_map ba2_map]. apply length_map.
Qed.

Lemma initial_dlc_info_empty (i : nat) (name : string) (d : dlc_data) :
  initial_dlc_info !! i = Some (name, d) -> files_of d = [].
Proof.
  unfold initial_dlc_info.
  do 7 (destruct i as [|i]; [by intros [= <- <-]|]); done.
Qed.

Section detected.
Context {E : os_faults}.
Variables (s : fs) (f4_path : path) (f4vr_path london_data_path : option path).

Abbreviation dlc_info :=
  (detect_dlc_in_both_games s f4_path f4vr_path london_data_path).
Abbreviation scanned :=
  (scanned_directories s f4_path f4vr_path london_data_path).

(** A group that lists files after detection was found in a scanned
    directory, and its files are regular files of that directory. *)
Lemma detected_group (i : nat) (name : string) (d : dlc_data) :
  dlc_info !! i = Some (name, d) ->
  files_of d <> [] ->
  exists d0 dir src,
    initial_dlc_info !! i = Some (name, d0) /\
    In (dir, src) scanned /\
    found d = true /\
    (forall e, esm_path d = Some e -> esm_of d0 e) /\
    (forall p, In p (ba2_paths d) -> archive_of d0 p) /\
    forall p, In p (files_of d) ->
      is_file s p = true /\ p = path_join dir (path_name p) /\
      ((esm_path d = Some p /\ esm_of d0 p) \/
       (In p (ba2_paths d) /\ archive_of d0 p)).
Proof.
  intros Hi Hfiles.
  assert (Hlt : (i < length initial_dlc_info)%nat).
  { rewrite <- (scan_directories_length s scanned), <- detect_as_sequence.
    by eapply lookup_lt_Some. }
  apply lookup_lt_is_Some in Hlt as [[name0 d0] H0].
  pose proof (detect_entry s f4_path f4vr_path london_data_path i name0 d0 H0) as He.
  rewrite Hi in He. injection He as -> ->.
  destruct (best (offers s d0 scanned)) as [[src [e [ps b]]]|] eqn:Hbest.
  2:{ exfalso. apply Hfiles. by apply (initial_dlc_info_empty i name0). }
  apply best_In, offers_In in Hbest as (dir & Hdir & Hc).
  exists d0, dir, src. split; [done|]. split; [done|]. split.
  { unfold found. cbn [resolve found_in].
    by rewrite (scanned_source_names _ _ _ _ _ _ Hdir). }
  pose proof (directory_candidate_spec s dir d0 e ps b Hc) as (He & Hps & _).
  assert (Hoffer : is_Some (directory_candidate s dir d0)) by eauto.
  apply directory_offers_spec in Hoffer as (_ & Hfile & Hesm).
  split.
  { cbn [resolve esm_path]. intros e' [= <-]. unfold esm_of.
    by rewrite He, path_name_join. }
  split.
  { cbn [resolve ba2_paths]. intros p Hp. by apply Hps in Hp as (_ & _ & ? & ? & ?). }
  intros p. unfold files_of. cbn [resolve esm_path ba2_paths app].
  intros [<-|Hp].
  - rewrite He at 1 2. rewrite He, path_name_join.
    split; [done|]. split; [done|]. left.
    split; [done|]. unfold esm_of. by rewrite path_name_join.
  - apply Hps in Hp as Hfacts. destruct Hfacts as (Hf & Hchild & Hne & Hb & Hpre).
    split; [done|]. apply is_child_join in Hchild as [Hchild _].
    split; [done|]. right. done.
Qed.

Lemma catalogue_esm_distinct (i j : nat) (n n' : string) (d d' : dlc_data) :
  initial_dlc_info !! i = Some (n, d) ->
  initial_dlc_info !! j = Some (n', d') ->
  esm d = esm d' -> i = j.
Proof.
  intros Hi Hj.
  assert (i < 6)%nat by (by apply lookup_lt_Some in Hi).
  assert (j < 6)%nat by (by apply lookup_lt_Some in Hj).
  destruct i as [|[|[|[|[|[|?]]]]]]; try lia;
    destruct j as [|[|[|[|[|[|?]]]]]]; try lia; try reflexivity;
    injection Hi as <- <-; injection Hj as <- <-; cbn [esm unresolved];
    intros He; discriminate He.
Qed.

Lemma catalogue_prefixes_disjoint (i j : nat) (n n' : string) (d d' : dlc_data)
    (x : string) :
  initial_dlc_info !! i = Some (n, d) ->
  initial_dlc_info !! j = Some (n', d') ->
  In x (ba2_prefixes d) -> In x (ba2_prefixes d') -> i = j.
Proof.
  intros Hi Hj.
  assert (i < 6)%nat by (by apply lookup_lt_Some in Hi).
  assert (j < 6)%nat by (by apply lookup_lt_Some in Hj).
  destruct i as [|[|[|[|[|[|?]]]]]]; try lia;
    destruct j as [|[|[|[|[|[|?]]]]]]; try lia; try reflexivity;
    injection Hi as <- <-; injection Hj as <- <-; cbn [ba2_prefixes unresolved];
    intros [<-|[]] [He|[]]; discriminate He.
Qed.

Lemma all_files_In (info : list (string * dlc_data)) (p : path) :
  In p (all_files info) <->
  exists i name d, info !! i = Some (name, d) /\ found d = true /\ In p (files_of d).
Proof.
  unfold all_files. rewrite in_concat. split.
  - intros (l & Hl & Hp). apply in_map_iff in Hl as ([name d] & <- & Hin).
    apply list_elem_of_In, list_elem_of_lookup in Hin as [i Hi].
    cbn [snd] in Hp. destruct (found d) eqn:Hf; [|done]. eauto 6.
  - intros (i & name & d & Hi & Hf & Hp).
    exists (files_of d). split; [|done]. apply in_map_iff.
    exists (name, d). cbn [snd]. rewrite Hf. split; [done|].
    apply list_elem_of_In. by eapply list_elem_of_lookup_2.
Qed.

(** Two detected files with the same name are the same file. *)
Lemma detected_names_injective (p p' : path) :
  In p (all_files dlc_info) -> In p' (all_files dlc_info) ->
  path_name p' = path_name p -> p' = p.
Proof.
  intros Hp Hp' Hname.
  apply all_files_In in Hp as (i & name & d & Hi & _ & Hin).
  apply all_files_In in Hp' as (j & name' & d' & Hj & _ & Hin').
  destruct (detected_group i name d Hi)
    as (d0 & dir & src & H0 & _ & _ & _ & _ & Hfacts).
  { intros Hnil. by rewrite Hnil in Hin. }
  destruct (detected_group j name' d' Hj)
    as (d0' & dir' & src' & H0' & _ & _ & _ & _ & Hfacts').
  { intros Hnil. by rewrite Hnil in Hin'. }
  destruct (Hfacts p Hin) as (_ & Hdir & Hkind).
  destruct (Hfacts' p' Hin') as (_ & Hdir' & Hkind').
  assert (i = j) as <-.
  { destruct Hkind as [[_ [He Hs]]|[_ (Hne & _ & Hpre)]];
      destruct Hkind' as [[_ [He' Hs']]|[_ (Hne' & _ & Hpre')]].
    - apply (catalogue_esm_distinct i j name name' d0 d0' H0 H0'). congruence.
    - rewrite Hname in Hne'. congruence.
    - rewrite Hname in Hs'. congruence.
    - rewrite Hname in Hpre'.
      by apply (catalogue_prefixes_disjoint i j name name' d0 d0' _ H0 H0' Hpre). }
  rewrite Hi in Hj. injection Hj as <- <-.
  destruct (Hfacts p' Hin') as (_ & Hdir'' & _).
  rewrite Hdir'', Hdir, Hname. done.
Qed.

(** What [copy_best_dlc_files] does with the result of the detection. *)
Lemma copy_detected_files (dest_dir : path) :
  (forall dir src, In (dir, src) scanned -> dir <> dest_dir) ->
  (forall p, In p (all_files dlc_info) ->
     s !! path_join dest_dir (path_name p) <> Some Directory) ->
  exists s',
    copy_best_dlc_files dlc_info dest_dir s = (Ret tt, s') /\
    (forall q, (forall p, In p (all_files dlc_info) ->
                  q <> path_join dest_dir (path_name p)) ->
       s' !! q = s !! q) /\
    (forall i name d p, dlc_info !! i = Some (name, d) -> In p (files_of d) ->
       exists data, s !! p = Some (File data) /\
                    s' !! path_join dest_dir (path_name p)
                    = left_at_dest s dest_dir p data).
Proof.
  intros Hdest Hnodir.
  assert (Hgroup : forall i name d p,
             dlc_info !! i = Some (name, d) -> In p (files_of d) ->
             In p (all_files dlc_info) /\
             (exists data, s !! p = Some (File data)) /\
             exists dir src, In (dir, src) scanned /\ p = path_join dir (path_name p)).
  { intros i name d p Hi Hp.
    destruct (detected_group i name d Hi)
      as (d0 & dir & src & _ & Hdir & Hf & _ & _ & Hfacts).
    { intros Hnil. by rewrite Hnil in Hp. }
    destruct (Hfacts p Hp) as (Hfile & Hpdir & _).
    split; [apply all_files_In; eauto 6|]. split; [|eauto].
    unfold is_file in Hfile. destruct (s !! p) as [[data|]|]; try done. eauto. }
  assert (Hall : forall p, In p (all_files dlc_info) ->
             (exists data, s !! p = Some (File data)) /\
             exists dir src, In (dir, src) scanned /\ p = path_join dir (path_name p)).
  { intros p Hp. apply all_files_In in Hp as (i & name & d & Hi & _ & Hin).
    by destruct (Hgroup i name d p Hi Hin) as (_ & ? & ?). }
  destruct (copy_files_spec dest_dir (all_files dlc_info) s)
    as (s' & Hrun & Hframe & Hcopy).
  - intros p Hp. by destruct (Hall p Hp).
  - intros p n Hp Heq. destruct (Hall p Hp) as (_ & dir & src & Hdir & Hpd).
    apply (Hdest dir src Hdir). rewrite Hpd in Heq. unfold path_join in Heq.
    by apply app_inj_tail in Heq as [? _].
  - done.
  - exists s'. split; [by rewrite copy_best_dlc_files_flat|]. split; [done|].
    intros i name d p Hi Hp.
    destruct (Hgroup i name d p Hi Hp) as (Hin & [data Hdata] & _).
    exists data. split; [done|]. apply Hcopy; [done| |done].
    intros p' Hp' Hn. by apply detected_names_injective.
Qed.

End detected.

(** X21 — [copy_best_dlc_files], called on the result of
    [detect_dlc_in_both_games] with an existing destination directory that
    is none of the scanned directories and holds no directory under the
    name of a file to copy, returns normally, whatever copy the operating
    system refuses.  Afterwards the destination holds, under its own
    name, a copy with the same bytes of the metadata file and of every
    archive of every resolved group whose copy was not refused; where the
    copy was refused it holds what was there before, or the part of the
    file that had been written; and every path that is not the
    destination of such a file is unchanged. *)
Theorem detected_dlc_files_are_copied {E : os_faults} (s : fs) (f4_path : path)
    (f4vr_path london_data_path : option path) (dest_dir : path) :
  let dlc_info := detect_dlc_in_both_games s f4_path f4vr_path london_data_path in
  s !! dest_dir = Some Directory ->
  (forall dir src,
      In (dir, src) (scanned_directories s f4_path f4vr_path london_data_path) ->
      dir <> dest_dir) ->
  (forall p, In p (all_files dlc_info) ->
     s !! path_join dest_dir (path_name p) <> Some Directory) ->
  exists s',
    copy_best_dlc_files dlc_info dest_dir s = (Ret tt, s') /\
    (forall q, (forall p, In p (all_files dlc_info) ->
                  q <> path_join dest_dir (path_name p)) ->
       s' !! q = s !! q) /\
    (forall i name d p, dlc_info !! i = Some (name, d) -> In p (files_of d) ->
       exists data,
         s !! p = Some (File data) /\
         s' !! path_join dest_dir (path_name p) = left_at_dest s dest_dir p data /\
         (copy_fault p (path_join dest_dir (path_name p)) = CopyDone ->
          s' !! path_join dest_dir (path_name p) = Some (File data))).
Proof.
  intros dlc_info _ Hdest Hnodir.
  destruct (copy_detected_files s f4_path f4vr_path london_data_path dest_dir
              Hdest Hnodir) as (s' & Hrun & Hframe & Hcopy).
  exists s'. split; [done|]. split; [done|].
  intros i name d p Hi Hp. destruct (Hcopy i name d p Hi Hp) as (data & Hdata & Hleft).
  exists data. split; [done|]. split; [done|].
  intros Hdone. rewrite Hleft. unfold left_at_dest. by rewrite Hdone.
Qed.

Lemma detected_dlc_files_are_copied_witness :
  exists s',
    copy_best_dlc_files (E := no_os_faults)
      (detect_dlc_in_both_games two_directories_and_dest ["A"]%string None
         (Some ["B"]%string))
      ["dst"]%string two_directories_and_dest = (Ret tt, s') /\
    exists data,
      two_directories_and_dest !! ["B"; "DLCRobot - Main.ba2"]%string
      = Some (File data) /\
      s' !! ["dst"; "DLCRobot - Main.ba2"]%string = Some (File data).
Proof.
  destruct (detected_dlc_files_are_copied (E := no_os_faults)
              two_directories_and_dest ["A"]%string
              None (Some ["B"]%string) ["dst"]%string)
    as (s' & Hrun & _ & Hcopy).
  - reflexivity.
  - intros dir src H. vm_compute in H.
    destruct H as [H|[H|[]]]; injection H as <- <-; discriminate.
  - intros p H. vm_compute in H.
    destruct H as [<-|[<-|[]]]; vm_compute; discriminate.
  - exists s'. split; [exact Hrun|].
    destruct (Hcopy 0%nat "Automatron"%string
                (mk_dlc_data "DLCRobot.esm" ["DLCRobot"]%string
                   (Some "Fallout London"%string) (Some ["B"; "DLCRobot.esm"]%string)
                   [["B"; "DLCRobot - Main.ba2"]%string] (Some false))
                ["B"; "DLCRobot - Main.ba2"]%string)
      as (data & Hdata & _ & Hdone).
    + vm_compute. reflexivity.
    + right. left. reflexivity.
    + exists data. split; [exact Hdata|]. apply Hdone. reflexivity.
Defined.

(** *** Copy, then normalise *)

Lemma before_first_prefix (sep s : string) :
  exists rest, s = before_first sep s +:+ rest.
Proof.
  induction s as [|c s IH].
  - exists ""%string. cbn [before_first]. by destruct (String.prefix sep "").
  - cbn [before_first]. destruct (String.prefix sep (String c s)).
    + by exists (String c s).
    + destruct IH as [rest Hrest]. exists rest.
      change (String c (before_first sep s) +:+ rest)
        with (String c (before_first sep s +:+ rest)).
      by rewrite <- Hrest.
Qed.

Lemma ba2_prefix_prefix (file_name : string) :
  exists rest, file_name = ba2_prefix file_name +:+ rest.
Proof.
  unfold ba2_prefix. destruct (contains file_name " - "); apply before_first_prefix.
Qed.

Lemma in_catalogue_prefix (q : path) (g : string * list string)
    (pre rest : string) :
  In g FalloutVRDowngrader.dlc_groups -> In pre g.2 ->
  path_name q = pre +:+ rest ->
  in_catalogue q = true.
Proof.
  intros Hg Hp Hn. unfold in_catalogue. apply existsb_exists.
  exists g. split; [done|]. unfold FalloutVRDowngrader.belongs_to.
  apply existsb_exists. exists pre. split; [done|].
  unfold startswith. rewrite Hn. apply ManifestFacts.prefix_app.
Qed.

(** An archive filed under a prefix of the resolver's catalogue belongs to
    a group of the normaliser's catalogue. *)
Lemma resolver_archive_in_catalogue (i : nat) (n : string) (d0 : dlc_data)
    (q : path) :
  initial_dlc_info !! i = Some (n, d0) ->
  In (ba2_prefix (path_name q)) (ba2_prefixes d0) ->
  in_catalogue q = true.
Proof.
  intros Hi Hin. destruct (ba2_prefix_prefix (path_name q)) as [rest Hrest].
  assert (i < 6)%nat by (by apply lookup_lt_Some in Hi).
  destruct i as [|[|[|[|[|[|?]]]]]]; try lia;
    injection Hi as <- <-; cbn [ba2_prefixes unresolved] in Hin;
    destruct Hin as [Hx|[]]; rewrite <- Hx in Hrest.
  - apply (in_catalogue_prefix q ("Automatron DLC", ["DLCRobot"])%string
             "DLCRobot" rest); [simpl; tauto|by left|done].
  - apply (in_catalogue_prefix q ("Wasteland Workshop DLC", ["DLCworkshop"])%string
             "DLCworkshop" ("01" +:+ rest)); [simpl; tauto|by left|done].
  - apply (in_catalogue_prefix q ("Far Harbor DLC", ["DLCCoast"])%string
             "DLCCoast" rest); [simpl; tauto|by left|done].
  - apply (in_catalogue_prefix q ("Wasteland Workshop DLC", ["DLCworkshop"])%string
             "DLCworkshop" ("02" +:+ rest)); [simpl; tauto|by left|done].
  - apply (in_catalogue_prefix q ("Wasteland Workshop DLC", ["DLCworkshop"])%string
             "DLCworkshop" ("03" +:+ rest)); [simpl; tauto|by left|done].
  - apply (in_catalogue_prefix q ("Nuka-World DLC", ["DLCNukaWorld"])%string
             "DLCNukaWorld" rest); [simpl; tauto|by left|done].
Qed.

Lemma catalogue_esm_not_ba2 (i : nat) (n : string) (d0 : dlc_data) :
  initial_dlc_info !! i = Some (n, d0) ->
  endswith (lower (esm d0)) ".ba2" = false.
Proof.
  intros Hi. assert (i < 6)%nat by (by apply lookup_lt_Some in Hi).
  destruct i as [|[|[|[|[|[|?]]]]]]; try lia;
    injection Hi as <- <-; vm_compute; reflexivity.
Qed.

Lemma matches_ba2_join (dest_dir : path) (file_name : string) :
  FalloutVRDowngrader.matches_ba2 dest_dir (path_join dest_dir file_name)
  = endswith (lower file_name) ".ba2".
Proof.
  unfold FalloutVRDowngrader.matches_ba2. rewrite path_name_join.
  rewrite bool_decide_eq_true_2; [done|]. split.
  - unfold path_join. by destruct dest_dir.
  - unfold path_parent, path_join. apply removelast_last.
Qed.

(** X22 — the detection, the copy of the detected files and the
    normalisation of the destination compose: after
    [copy_best_dlc_files] and [downgrade_dlc_ba2_files] on the destination
    directory, the metadata file of every resolved group whose copy was
    not refused is there unchanged, and every archive of every resolved
    group whose copy was not refused and whose copy can be opened for
    update is there and is not next-gen; such an archive whose version
    was the compatible one or a next-gen one reads back with the
    compatible version and its other header fields as in the source. *)
Theorem copied_dlc_archives_end_compatible {E : os_faults} (s : fs) (f4_path : path)
    (f4vr_path london_data_path : option path) (dest_dir : path) :
  let dlc_info := detect_dlc_in_both_games s f4_path f4vr_path london_data_path in
  let s1 := (copy_best_dlc_files dlc_info dest_dir s).2 in
  let s2 := (FalloutVRDowngrader.downgrade_dlc_ba2_files
               (FalloutVRDowngrader.mk dest_dir) s1).2 in
  s !! dest_dir = Some Directory ->
  (forall dir src,
      In (dir, src) (scanned_directories s f4_path f4vr_path london_data_path) ->
      dir <> dest_dir) ->
  (forall p, In p (all_files dlc_info) ->
     s !! path_join dest_dir (path_name p) <> Some Directory) ->
  forall i name d, dlc_info !! i = Some (name, d) ->
    (forall e, esm_path d = Some e ->
       copy_fault e (path_join dest_dir (path_name e)) = CopyDone ->
       is_file s e = true /\ s2 !! path_join dest_dir (path_name e) = s !! e) /\
    (forall p, In p (ba2_paths d) ->
       copy_fault p (path_join dest_dir (path_name p)) = CopyDone ->
       open_rw_fault (path_join dest_dir (path_name p)) = None ->
       ng s2 (path_join dest_dir (path_name p)) = false /\
       forall h, BA2.from_file s p = Ret (Some h) -> known_version (version h) ->
         BA2.from_file s2 (path_join dest_dir (path_name p))
         = Ret (Some (downgraded h))).
Proof.
  intros dlc_info s1 s2 _ Hdest Hnodir i name d Hi.
  destruct (copy_detected_files s f4_path f4vr_path london_data_path dest_dir
              Hdest Hnodir) as (s1' & Hrun & _ & Hcopy).
  fold dlc_info in Hrun, Hcopy.
  subst s2 s1. rewrite Hrun. cbn [snd].
  set (self := FalloutVRDowngrader.mk dest_dir) in *.
  destruct (downgrade_dlc_ba2_files_run self s1') as (s2' & Hrun2 & Hu & Hd).
  destruct (downgrade_dlc_ba2_files_spec self s1') as (r0 & s0 & Hrun0 & Hkeys & Hng).
  rewrite Hrun2 in Hrun0. injection Hrun0 as _ <-.
  rewrite Hrun2. cbn [snd].
  assert (Hgroup : files_of d <> [] ->
            exists d0, initial_dlc_info !! i = Some (name, d0) /\
              (forall e, esm_path d = Some e -> esm_of d0 e) /\
              (forall p, In p (ba2_paths d) -> archive_of d0 p)).
  { intros Hne.
    destruct (detected_group s f4_path f4vr_path london_data_path i name d Hi Hne)
      as (d0 & dir & src & H0 & _ & _ & He & Ha & _). eauto. }
  split.
  - intros e He Hdone.
    assert (Hin : In e (files_of d)) by (unfold files_of; rewrite He; by left).
    destruct Hgroup as (d0 & H0 & Hesm & _); [by intros Hnil; rewrite Hnil in Hin|].
    destruct (Hcopy i name d e Hi Hin) as (data & Hdata & Hdest1).
    unfold left_at_dest in Hdest1. rewrite Hdone in Hdest1.
    split; [unfold is_file; by rewrite Hdata|].
    rewrite Hu, Hdest1; [done|].
    rewrite filter_In. intros [Hw _]. apply worklist_iff in Hw as (Hglob & _ & _).
    apply glob_ba2_elem in Hglob as [_ Hm]. cbn [FalloutVRDowngrader.data_path self] in Hm.
    rewrite matches_ba2_join in Hm.
    destruct (Hesm e He) as [Hn _]. rewrite Hn in Hm.
    by rewrite (catalogue_esm_not_ba2 i name d0 H0) in Hm.
  - intros p Hp Hdone Hopen.
    assert (Hin : In p (files_of d)) by (unfold files_of; apply in_app_iff; by right).
    destruct Hgroup as (d0 & H0 & _ & Harch); [by intros Hnil; rewrite Hnil in Hin|].
    destruct (Harch p Hp) as (_ & Hba2 & Hpre).
    destruct (Hcopy i name d p Hi Hin) as (data & Hdata & Hdest1).
    unfold left_at_dest in Hdest1. rewrite Hdone in Hdest1.
    set (q := path_join dest_dir (path_name p)) in *.
    assert (Hcan : can_update q = true) by (by apply can_update_true).
    assert (Hhead : BA2.from_file s1' q = BA2.from_file s p).
    { by rewrite (from_file_on_file _ _ _ Hdest1), (from_file_on_file _ _ _ Hdata). }
    assert (Hglob : In q (FalloutVRDowngrader.glob_ba2 s1' dest_dir)).
    { apply glob_ba2_elem. split; [by rewrite Hdest1|].
      unfold q. by rewrite matches_ba2_join. }
    assert (Hcat : in_catalogue q = true).
    { apply (resolver_archive_in_catalogue i name d0 q H0).
      unfold q. by rewrite path_name_join. }
    assert (Hafter : ng s2' q = false).
    { destruct (ng s2' q) eqn:Hn2; [|done]. exfalso.
      destruct (Hng q Hn2) as [Hn1 [Hnw|Hf]].
      - apply Hnw, list_elem_of_In. by apply worklist_iff.
      - rewrite Hopen in Hf. by destruct Hf. }
    split; [done|]. intros h Hh Hk. rewrite <- Hhead in Hh.
    destruct (Hd q h Hh Hk) as [Hlisted Hany].
    destruct (ng s1' q) eqn:Hn1.
    + apply Hlisted; [|done]. by apply worklist_iff.
    + assert (Hv : version h = ArchiveVersionEnum.FALLOUT_4).
      { unfold ng in Hn1. rewrite Hh in Hn1. cbn [BA2.header_is_next_gen] in Hn1.
        destruct Hk as [Hk|Hk]; [done|congruence]. }
      destruct Hany as [Hsame|[_ Hdown]]; [|done].
      by rewrite (downgraded_compatible h Hv).
Qed.

Lemma copied_dlc_archives_end_compatible_witness :
  ng (FalloutVRDowngrader.downgrade_dlc_ba2_files (E := no_os_faults)
        (FalloutVRDowngrader.mk ["dst"]%string)
        (copy_best_dlc_files (E := no_os_faults)
           (detect_dlc_in_both_games two_directories_and_dest ["A"]%string None None)
           ["dst"]%string two_directories_and_dest).2).2
     (path_join ["dst"]%string (path_name ["A"; "DLCRobot - Main.ba2"]%string))
  = false.
Proof.
  destruct (copied_dlc_archives_end_compatible (E := no_os_faults)
              two_directories_and_dest
              ["A"]%string None None ["dst"]%string) with
    (i := 0%nat) (name := "Automatron"%string)
    (d := mk_dlc_data "DLCRobot.esm" ["DLCRobot"]%string
            (Some "Fallout 4 DLC"%string) (Some ["A"; "DLCRobot.esm"]%string)
            [["A"; "DLCRobot - Main.ba2"]%string] (Some true))
    as [_ Harch].
  - reflexivity.
  - intros dir src H. vm_compute in H.
    destruct H as [H|[]]; injection H as <- <-; discriminate.
  - intros p H. vm_compute in H.
    destruct H as [<-|[<-|[]]]; vm_compute; discriminate.
  - vm_compute. reflexivity.
  - destruct (Harch ["A"; "DLCRobot - Main.ba2"]%string) as [Hng _].
    + left. reflexivity.
    + reflexivity.
    + reflexivity.
    + exact Hng.
Defined.

End DlcCopyFacts.
